(** * Strided-view indexing and scatter updates on device arrays

    A shallow embedding of [subtensor.py] of Theano's gpuarray back end:
    the slice normalizer [fix_indices] that [GpuSubtensor] emits as C
    support code, the code generator [GpuSubtensor.c_code], the host
    implementations [GpuIncSubtensor.perform] and
    [GpuAdvancedIncSubtensor1.perform], the device kernel of
    [GpuAdvancedIncSubtensor1_dev20] with its half-float [atomicAdd],
    [make_node] of the scatter operations, and the pickling of
    [GpuIncSubtensor]. *)

From Stdlib Require Import ZArith List Bool Lia Permutation.
From Stdlib Require String PrimFloat.
Import ListNotations.
Local Open Scope Z_scope.

(** ** Exceptions and results *)

(** The Python exceptions the operations of this file raise. *)
Inductive exn : Type :=
| ValueError            (* "slice step cannot be zero", shape mismatch *)
| IndexError            (* "invalid index", index out of bounds *)
| AssertionError        (* a failed [assert] *)
| NotImplementedError.  (* float16 elemwise, "no C code yet" *)

Inductive result (A : Type) : Type :=
| Ok (a : A)
| Raise (e : exn).
Arguments Ok {A} a.
Arguments Raise {A} e.

(** ** C integer types of the generated code (LP64) *)

Module CInt.

Definition SSIZE_MAX : Z := 2 ^ 63 - 1.
Definition SSIZE_MIN : Z := - 2 ^ 63.
Definition INT_MAX : Z := 2 ^ 31 - 1.
Definition INT_MIN : Z := - 2 ^ 31.

(** Conversion to [size_t]: reduction modulo [2^64]. *)
Definition to_size (z : Z) : Z := z mod 2 ^ 64.

(** Conversion to [ssize_t]: the two's complement reading of the low
    64 bits. *)
Definition to_ssize (z : Z) : Z := (z + 2 ^ 63) mod 2 ^ 64 - 2 ^ 63.

(** Conversion to [int]: the two's complement reading of the low
    32 bits. *)
Definition to_int (z : Z) : Z := (z + 2 ^ 31) mod 2 ^ 32 - 2 ^ 31.

Definition in_ssize (z : Z) : Prop := SSIZE_MIN <= z <= SSIZE_MAX.
Definition in_size (z : Z) : Prop := 0 <= z < 2 ^ 64.

End CInt.
Import CInt.

(** ** IndexNormalizer: [fix_indices] (GpuSubtensor.c_support_code) *)

(** [fix_indices start stop step start_n stop_n step_n len]: the three
    [ssize_t] cells are passed by value and returned in the result; a flag
    [x_n] says the field was omitted in the slice.  [len] is a [size_t].
    The mixed [ssize_t]/[size_t] arithmetic of the C text is written out:
    [*start += len] is computed in [size_t] and stored back as [ssize_t],
    [*start >= len] is an unsigned comparison, and [len-1] is a [size_t]. *)
Definition fix_indices (start stop step : Z) (start_n stop_n step_n : bool)
                       (len : Z) : result (Z * Z * Z) :=
  let step := if step_n then 1 else step in
  if step =? 0 then Raise ValueError
  else
    let start :=
      if start_n then to_ssize (if step <? 0 then to_size (len - 1) else 0)
      else
        let start := if start <? 0 then to_ssize (to_size start + len)
                     else start in
        let start := if start <? 0 then (if step <? 0 then -1 else 0)
                     else start in
        if (start >? -1) && (to_size start >=? len)
        then to_ssize (if step <? 0 then to_size (len - 1) else len)
        else start in
    let stop :=
      if stop_n then to_ssize (if step <? 0 then to_size (-1) else len)
      else
        let stop := if stop <? 0 then to_ssize (to_size stop + len)
                    else stop in
        let stop := if stop <? 0 then (if step <? 0 then -1 else 0)
                    else stop in
        if (stop >? -1) && (to_size stop >=? len)
        then to_ssize (if step <? 0 then to_size (len - 1) else len)
        else stop in
    let stop := if (stop <? start) && (step >? 0) then start else stop in
    Ok (start, stop, step).

(** [fix_idx] of [GpuSubtensor.c_code] for a field whose value is known:
    an omitted field is passed as the literal [0] with its flag set. *)
Definition fix_idx_value (idx : option Z) : Z * bool :=
  match idx with
  | None => (0, true)
  | Some v => (v, false)
  end.

(** The call the generated code makes for one slice axis of length [len]:
    [starts[i] = start; stops[i] = stop; steps[i] = step;
     fix_indices(&starts[i], &stops[i], &steps[i], start_n, stop_n, step_n,
                 dimensions[i])]. *)
Definition normalize_slice (len : Z) (start stop step : option Z)
  : result (Z * Z * Z) :=
  let '(start, start_n) := fix_idx_value start in
  let '(stop, stop_n) := fix_idx_value stop in
  let '(step, step_n) := fix_idx_value step in
  fix_indices start stop step start_n stop_n step_n len.

(** *** Reference slice semantics

    The reference the normalizer is compared with: Python's
    [slice(start, stop, step).indices(len)] followed by [range]. *)
Module PyRef.

Definition adjust (v step len : Z) : Z :=
  if v <? 0 then
    let v' := v + len in
    if v' <? 0 then (if step <? 0 then -1 else 0) else v'
  else if v >=? len then (if step <? 0 then len - 1 else len)
  else v.

Definition slice_indices (start stop step : option Z) (len : Z)
  : result (Z * Z * Z) :=
  let step := match step with None => 1 | Some s => s end in
  if step =? 0 then Raise ValueError
  else
    let start := match start with
                 | None => if step <? 0 then len - 1 else 0
                 | Some v => adjust v step len
                 end in
    let stop := match stop with
                | None => if step <? 0 then -1 else len
                | Some v => adjust v step len
                end in
    Ok (start, stop, step).

(** [len(range(start, stop, step))]. *)
Definition range_len (start stop step : Z) : Z :=
  if 0 <? step then
    if start <? stop then (stop - start - 1) / step + 1 else 0
  else if step <? 0 then
    if stop <? start then (start - stop - 1) / (- step) + 1 else 0
  else 0.

(** [list(range(start, stop, step))]. *)
Definition range (start stop step : Z) : list Z :=
  map (fun k => start + Z.of_nat k * step)
      (seq 0 (Z.to_nat (range_len start stop step))).

(** The indices [a[start:stop:step]] selects on an axis of length [len]. *)
Definition selected (len : Z) (start stop step : option Z)
  : result (list Z) :=
  match slice_indices start stop step len with
  | Ok (a, b, c) => Ok (range a b c)
  | Raise e => Raise e
  end.

End PyRef.

(** The elements a normalized triple selects. *)
Definition triple_selects (t : Z * Z * Z) : list Z :=
  let '(start, stop, step) := t in PyRef.range start stop step.

Definition opt_in_ssize (o : option Z) : Prop :=
  match o with None => True | Some v => in_ssize v end.

(** The clamp [fix_indices] applies to a present [start] or [stop] field,
    named for the proofs; [fix_indices] spells it out twice. *)
Definition c_adjust (v step len : Z) : Z :=
  let v := if v <? 0 then to_ssize (to_size v + len) else v in
  let v := if v <? 0 then (if step <? 0 then -1 else 0) else v in
  if (v >? -1) && (to_size v >=? len)
  then to_ssize (if step <? 0 then to_size (len - 1) else len)
  else v.

(** What Python's [slice.indices] gives for one field. *)
Definition py_start (len c : Z) (start : option Z) : Z :=
  match start with
  | None => if c <? 0 then len - 1 else 0
  | Some v => PyRef.adjust v c len
  end.

Definition py_stop (len c : Z) (stop : option Z) : Z :=
  match stop with
  | None => if c <? 0 then -1 else len
  | Some v => PyRef.adjust v c len
  end.

Definition py_step (step : option Z) : Z :=
  match step with None => 1 | Some s => s end.

(** ** Device arrays (pygpu)

    Modelled from the spec: the array library [pygpu] is an external
    collaborator of the source file.  Its arrays follow section 3 of the
    specification (buffer handle, dtype, shape, strides and offset in
    bytes), its view builder [pygpu_index] section 4.2, and its indexing,
    assignment and elementwise operations NumPy's semantics. *)

Inductive dtype : Type := float16 | float32 | float64 | int32 | int64.

Definition dtype_eqb (a b : dtype) : bool :=
  match a, b with
  | float16, float16 | float32, float32 | float64, float64
  | int32, int32 | int64, int64 => true
  | _, _ => false
  end.

Definition itemsize (d : dtype) : Z :=
  match d with
  | float16 => 2
  | float32 | int32 => 4
  | float64 | int64 => 8
  end.

(** The element values and the device's addition on them. *)
Class ElemType : Type := {
  elem : Type;
  add : elem -> elem -> elem
}.

(** A [GpuArray]: a view on the buffer [data]. *)
Record GpuArray : Type := mkGpuArray {
  data : nat;            (* buffer handle *)
  offset : Z;            (* in bytes *)
  shape : list Z;
  strides : list Z;      (* in bytes, signed *)
  dtype_of : dtype
}.

Definition ndim (a : GpuArray) : nat := length (shape a).

(** A slice or integer of a Python index expression. *)
Inductive index : Type :=
| IInt (i : Z)
| ISlice (start stop step : option Z).

Fixpoint prod (dims : list Z) : Z :=
  match dims with
  | [] => 1
  | d :: ds => d * prod ds
  end.

(** Strides of a C-contiguous array. *)
Fixpoint c_strides (isz : Z) (dims : list Z) : list Z :=
  match dims with
  | [] => []
  | _ :: ds => isz * prod ds :: c_strides isz ds
  end.

(** The multi-indices of a shape, in C order. *)
Fixpoint indices_of (dims : list Z) : list (list Z) :=
  match dims with
  | [] => [[]]
  | d :: ds =>
      flat_map (fun i => map (cons i) (indices_of ds))
               (map Z.of_nat (seq 0 (Z.to_nat d)))
  end.

Fixpoint dot (m st : list Z) : Z :=
  match m, st with
  | i :: m', s :: st' => i * s + dot m' st'
  | _, _ => 0
  end.

(** Byte address, within its buffer, of the element at multi-index [m]. *)
Definition address (a : GpuArray) (m : list Z) : Z :=
  offset a + dot m (strides a).

(** [enumerate(idx)]. *)
Definition enumerate (idx : list Z) : list (Z * Z) :=
  combine (map Z.of_nat (seq 0 (length idx))) idx.

Section Store.
Context {E : ElemType}.

(** Device memory: the buffers allocated so far are the handles below
    [next]; a buffer maps the byte address of an element to its value. *)
Record store : Type := mkStore {
  bufs : nat -> Z -> elem;
  next : nat
}.

Definition write (h : nat) (addr : Z) (v : elem) (s : store) : store :=
  mkStore (fun h' a => if (h' =? h)%nat && (a =? addr) then v
                       else bufs s h' a)
          (next s).

Definition read (s : store) (a : GpuArray) (m : list Z) : elem :=
  bufs s (data a) (address a m).

(** Computations on the store that may raise; the store survives a
    raise, with the writes made before it. *)
Definition M (A : Type) : Type := store -> store * result A.

Definition ret {A} (a : A) : M A := fun s => (s, Ok a).
Definition raise {A} (e : exn) : M A := fun s => (s, Raise e).
Definition bind {A B} (c : M A) (k : A -> M B) : M B :=
  fun s => match c s with
           | (s', Ok a) => k a s'
           | (s', Raise e) => (s', Raise e)
           end.
Definition lift {A} (r : result A) : M A := fun s => (s, r).

Fixpoint for_each {A} (l : list A) (body : A -> M unit) : M unit :=
  match l with
  | [] => ret tt
  | a :: l' => bind (body a) (fun _ => for_each l' body)
  end.

End Store.

Declare Scope m_scope.
Delimit Scope m_scope with M.
Notation "x <- c ;; k" := (bind c (fun x => k))
  (at level 61, c at next level, right associativity) : m_scope.
Notation "c ;;; k" := (bind c (fun _ => k))
  (at level 61, right associativity) : m_scope.

Module Pygpu.
Section Ops.
Context {E : ElemType}.
Local Open Scope m_scope.

(** [a.copy()] and [pygpu_copy(a, GA_ANY_ORDER)]: a fresh buffer holding
    the elements of [a], C-contiguous. *)
Definition copy (a : GpuArray) : M GpuArray := fun s =>
  let h := next s in
  let r := mkGpuArray h 0 (shape a)
                      (c_strides (itemsize (dtype_of a)) (shape a))
                      (dtype_of a) in
  let s1 := mkStore (bufs s) (S h) in
  (fold_left (fun st m => write h (address r m) (read s a m) st)
             (indices_of (shape a)) s1,
   Ok r).

(** Extent of a sliced axis: [max(0, ceil((stop - start) / step))]. *)
Definition extent (start stop step : Z) : Z :=
  Z.max 0 (- ((- (stop - start)) / step)).

(** The view builder on normalized per-axis triples; a triple with
    [step = 0] is a collapsed (scalar-indexed) axis.  Returns the offset
    increment and the kept axes as (extent, stride) pairs.  A start out of
    [[-1, len]] is an [IndexError]. *)
Fixpoint index_axes (dims st : list Z) (ts : list (Z * Z * Z))
  : result (Z * list (Z * Z)) :=
  match dims, st, ts with
  | [], [], [] => Ok (0, [])
  | d :: ds, s :: ss, (start, stop, step) :: ts' =>
      if (start <? -1) || (start >? d) then Raise IndexError
      else
        match index_axes ds ss ts' with
        | Raise e => Raise e
        | Ok (off, kept) =>
            Ok (s * start + off,
                if step =? 0 then kept
                else (extent start stop step, s * step) :: kept)
        end
  | _, _, _ => Raise IndexError
  end.

(** [pygpu_index(a, starts, stops, steps)]: a view on the buffer of [a]. *)
Definition pygpu_index (a : GpuArray) (ts : list (Z * Z * Z))
  : result GpuArray :=
  match index_axes (shape a) (strides a) ts with
  | Raise e => Raise e
  | Ok (off, kept) =>
      Ok (mkGpuArray (data a) (offset a + off)
                     (map fst kept) (map snd kept) (dtype_of a))
  end.

(** The triples [a.__getitem__(key)] passes to the view builder: an
    integer is wrapped once and bounds-checked, a slice goes through
    [slice.indices], and the axes the key does not name are taken whole. *)
Fixpoint key_triples (dims : list Z) (key : list index)
  : result (list (Z * Z * Z)) :=
  match key, dims with
  | [], _ => Ok (map (fun d => (0, d, 1)) dims)
  | _ :: _, [] => Raise IndexError
  | k :: key', d :: ds =>
      let t :=
        match k with
        | IInt i =>
            let i' := if i <? 0 then i + d else i in
            if (i' <? 0) || (i' >=? d) then Raise IndexError
            else Ok (i', i' + 1, 0)
        | ISlice start stop step => PyRef.slice_indices start stop step d
        end in
      match t with
      | Raise e => Raise e
      | Ok t =>
          match key_triples ds key' with
          | Raise e => Raise e
          | Ok ts => Ok (t :: ts)
          end
      end
  end.

(** [a.__getitem__(key)]. *)
Definition getitem (a : GpuArray) (key : list index) : result GpuArray :=
  match key_triples (shape a) key with
  | Raise e => Raise e
  | Ok ts => pygpu_index a ts
  end.

(** Strides under which a source of shape [sdims] reads as an array of
    shape [ddims] of the same rank: a unit axis is repeated (stride 0). *)
Fixpoint stretch (ddims sdims sst : list Z) : result (list Z) :=
  match ddims, sdims, sst with
  | [], [], [] => Ok []
  | d :: ds, sd :: sds, s :: ss =>
      match stretch ds sds ss with
      | Raise e => Raise e
      | Ok r => if sd =? d then Ok (s :: r)
                else if sd =? 1 then Ok (0 :: r)
                else Raise ValueError
      end
  | _, _, _ => Raise ValueError
  end.

(** Broadcast [src] to the shape [dims]: left-pad with unit axes, then
    stretch.  The destination of an operation is never stretched: a
    source of higher rank, or wider on some axis, is a [ValueError]. *)
Definition broadcast_to (src : GpuArray) (dims : list Z)
  : result GpuArray :=
  let pad := (length dims - ndim src)%nat in
  match stretch dims (repeat 1 pad ++ shape src)
                (repeat 0 pad ++ strides src) with
  | Raise e => Raise e
  | Ok st => Ok (mkGpuArray (data src) (offset src) dims st (dtype_of src))
  end.

(** [dst[...] = src], element by element ([GpuArray_setarray]). *)
Definition setarray (dst src : GpuArray) : M unit :=
  src' <- lift (broadcast_to src (shape dst)) ;;
  for_each (indices_of (shape dst))
           (fun m s => (write (data dst) (address dst m) (read s src' m) s,
                        Ok tt)).

(** [a.__setitem__(key, v)]. *)
Definition setitem (a : GpuArray) (key : list index) (v : GpuArray)
  : M unit :=
  view <- lift (getitem a key) ;;
  setarray view v.

(** The elementwise kernel [a[i] = a[i] + b[i]]; without [broadcast]
    the shapes must be equal. *)
Definition shape_eqb (d1 d2 : list Z) : bool :=
  (length d1 =? length d2)%nat &&
  forallb (fun p => fst p =? snd p) (combine d1 d2).

Definition iadd (a b : GpuArray) (broadcast : bool) : M unit :=
  b' <- lift (if broadcast then broadcast_to b (shape a)
              else if shape_eqb (shape a) (shape b) then Ok b
              else Raise ValueError) ;;
  for_each (indices_of (shape a))
           (fun m s => (write (data a) (address a m)
                              (add (read s a m) (read s b' m)) s,
                        Ok tt)).

(** [pygpu.elemwise.ielemwise2(a, '+', b, broadcast=False)]. *)
Definition ielemwise2_add (a b : GpuArray) (broadcast : bool) : M unit :=
  iadd a b broadcast.

(** [pygpu.elemwise.elemwise2(a, '+', b, ary, broadcast=False)]: the sum
    in a fresh array shaped like [ary]. *)
Definition elemwise2_add (a b ary : GpuArray) (broadcast : bool)
  : M GpuArray :=
  b' <- lift (if broadcast then broadcast_to b (shape a)
              else if shape_eqb (shape a) (shape b) then Ok b
              else Raise ValueError) ;;
  fun s =>
    let h := next s in
    let r := mkGpuArray h 0 (shape ary)
                        (c_strides (itemsize (dtype_of ary)) (shape ary))
                        (dtype_of ary) in
    let s1 := mkStore (bufs s) (S h) in
    (fold_left (fun st m => write h (address r m)
                                  (add (read s a m) (read s b' m)) st)
               (indices_of (shape ary)) s1,
     Ok r).

(** [a.reshape(newshape)] for a shape that differs from [a]'s by unit
    axes only, which is a view: the axes of extent other than 1 keep
    their strides in order.  Other reshapes are not used by this file. *)
Fixpoint reshape_strides (old : list (Z * Z)) (newshape : list Z)
  : result (list Z) :=
  match newshape with
  | [] => match old with [] => Ok [] | _ :: _ => Raise ValueError end
  | n :: ns =>
      if n =? 1 then
        match reshape_strides old ns with
        | Raise e => Raise e
        | Ok r => Ok (0 :: r)
        end
      else
        match old with
        | (d, s) :: old' =>
            if d =? n then
              match reshape_strides old' ns with
              | Raise e => Raise e
              | Ok r => Ok (s :: r)
              end
            else Raise ValueError
        | [] => Raise ValueError
        end
  end.

Definition reshape (a : GpuArray) (newshape : list Z) : result GpuArray :=
  let old := filter (fun p => negb (fst p =? 1))
                    (combine (shape a) (strides a)) in
  match reshape_strides old newshape with
  | Raise e => Raise e
  | Ok st => Ok (mkGpuArray (data a) (offset a) newshape st (dtype_of a))
  end.

End Ops.
End Pygpu.

(** ** Index specifications of the graph layer *)

(** A field of a slice in [idx_list]: omitted, a constant, or a symbolic
    scalar ([gof.Type]) whose value is a runtime input of the node. *)
Inductive field : Type :=
| FNone
| FInt (v : Z)
| FType.

(** An entry of [idx_list]. *)
Inductive entry : Type :=
| EInt (v : Z)
| EType
| ESlice (start stop step : field).

(** The attributes shared by the increment operations. *)
Record IncOp : Type := mkIncOp {
  inplace : bool;
  set_instead_of_inc : bool
}.

(** ** ViewBuilder: [GpuSubtensor.c_code] *)

Module GpuSubtensor.

(** The C text [c_code] returns, as a syntax tree. *)
Inductive cexpr : Type :=
| CLit (v : Z)         (* [str(idx)] *)
| CInput (name : nat). (* the C variable of a runtime scalar input *)

Inductive axis_code : Type :=
| AxisSlice (start stop step : cexpr) (start_n stop_n step_n : bool)
| AxisScalar (start : cexpr).

Inductive ccode : Type :=
| CopyCode                          (* [pygpu_copy(inp, GA_ANY_ORDER)] *)
| IndexCode (sz : nat) (axes : list axis_code).
                                    (* [pygpu_index(inp, ...)] *)

(** The local function [fix_idx]; [indices] is the list of input names
    it pops the next one from. *)
Definition fix_idx (idx : field) (indices : list nat)
  : option (cexpr * bool * list nat) :=
  match idx with
  | FNone => Some (CLit 0, true, indices)
  | FInt v => Some (CLit v, false, indices)
  | FType =>
      match indices with
      | name :: rest => Some (CInput name, false, rest)
      | [] => None
      end
  end.

(** The loop [for i, idx in enumerate(idx_list)]. *)
Fixpoint axes_code (idx_list : list entry) (indices : list nat)
  : option (list axis_code) :=
  match idx_list with
  | [] => Some []
  | ESlice start stop step :: rest =>
      match fix_idx start indices with
      | None => None
      | Some (start, start_n, indices) =>
      match fix_idx stop indices with
      | None => None
      | Some (stop, stop_n, indices) =>
      match fix_idx step indices with
      | None => None
      | Some (step, step_n, indices) =>
      match axes_code rest indices with
      | None => None
      | Some axes =>
          Some (AxisSlice start stop step start_n stop_n step_n :: axes)
      end end end end
  | EType :: rest =>
      match indices with
      | [] => None
      | name :: indices =>
          match axes_code rest indices with
          | None => None
          | Some axes => Some (AxisScalar (CInput name) :: axes)
          end
      end
  | EInt v :: rest =>
      match axes_code rest indices with
      | None => None
      | Some axes => Some (AxisScalar (CLit v) :: axes)
      end
  end.

(** [c_code]: [idx_list] is first padded with full slices to the rank of
    the input; [None] is Python's failure to pop an input name. *)
Definition c_code (idx_list : list entry) (inp_ndim : nat)
                  (indices : list nat) : option ccode :=
  let idx_list :=
    idx_list ++ repeat (ESlice FNone FNone FNone)
                       (inp_ndim - length idx_list) in
  if (length idx_list =? 0)%nat then Some CopyCode
  else
    match axes_code idx_list indices with
    | None => None
    | Some axes => Some (IndexCode (length idx_list) axes)
    end.

(** *** Running the generated code *)

Definition eval (env : nat -> Z) (e : cexpr) : Z :=
  match e with
  | CLit v => v
  | CInput name => env name
  end.

(** One axis: the cells [starts[i]], [stops[i]], [steps[i]] are [ssize_t].
    A scalar axis leaves [stops[i]] unset (read here as 0; the view
    builder does not look at it when the step is 0). *)
Definition exec_axis (env : nat -> Z) (dim : Z) (ax : axis_code)
  : result (Z * Z * Z) :=
  match ax with
  | AxisSlice start stop step start_n stop_n step_n =>
      fix_indices (to_ssize (eval env start)) (to_ssize (eval env stop))
                  (to_ssize (eval env step)) start_n stop_n step_n dim
  | AxisScalar start =>
      let cur := to_ssize (eval env start) in
      let cur := if cur <? 0 then to_ssize (to_size cur + dim) else cur in
      Ok (cur, 0, 0)
  end.

Fixpoint exec_axes (env : nat -> Z) (dims : list Z) (axes : list axis_code)
  : result (list (Z * Z * Z)) :=
  match axes, dims with
  | [], _ => Ok []
  | ax :: axes', d :: ds =>
      match exec_axis env d ax with
      | Raise e => Raise e
      | Ok t =>
          match exec_axes env ds axes' with
          | Raise e => Raise e
          | Ok ts => Ok (t :: ts)
          end
      end
  | _ :: _, [] => Raise IndexError
  end.

Section Exec.
Context {E : ElemType}.
Local Open Scope m_scope.

Definition exec (code : ccode) (inp : GpuArray) (env : nat -> Z)
  : M GpuArray :=
  match code with
  | CopyCode => Pygpu.copy inp
  | IndexCode sz axes =>
      if negb (ndim inp =? sz)%nat then raise IndexError
      else
        ts <- lift (exec_axes env (shape inp) axes) ;;
        lift (Pygpu.pygpu_index inp ts)
  end.

(** The operation on an input array: generate the code for the rank of
    the input, then run it. *)
Definition run (idx_list : list entry) (indices : list nat)
               (inp : GpuArray) (env : nat -> Z) : option (M GpuArray) :=
  match c_code idx_list (ndim inp) indices with
  | None => None
  | Some code => Some (exec code inp env)
  end.

End Exec.

End GpuSubtensor.

(** ** InPlaceCombiner: [GpuIncSubtensor.perform] *)

Module GpuIncSubtensor.

(** [indices.pop()]: takes the last element. *)
Definition pop (indices : list Z) : result (Z * list Z) :=
  match rev indices with
  | [] => Raise IndexError
  | v :: r => Ok (v, rev r)
  end.

(** The local function [convert] on a slice field. *)
Definition convert_field (f : field) (indices : list Z)
  : result (option Z * list Z) :=
  match f with
  | FNone => Ok (None, indices)
  | FInt v => Ok (Some v, indices)
  | FType =>
      match pop indices with
      | Raise e => Raise e
      | Ok (v, indices) => Ok (Some v, indices)
      end
  end.

(** [convert] on an entry of [idx_list]. *)
Definition convert (en : entry) (indices : list Z)
  : result (index * list Z) :=
  match en with
  | EInt v => Ok (IInt v, indices)
  | EType =>
      match pop indices with
      | Raise e => Raise e
      | Ok (v, indices) => Ok (IInt v, indices)
      end
  | ESlice start stop step =>
      match convert_field start indices with
      | Raise e => Raise e
      | Ok (start, indices) =>
      match convert_field stop indices with
      | Raise e => Raise e
      | Ok (stop, indices) =>
      match convert_field step indices with
      | Raise e => Raise e
      | Ok (step, indices) => Ok (ISlice start stop step, indices)
      end end end
  end.

(** [tuple(map(convert, self.idx_list))]. *)
Fixpoint convert_all (idx_list : list entry) (indices : list Z)
  : result (list index) :=
  match idx_list with
  | [] => Ok []
  | en :: rest =>
      match convert en indices with
      | Raise e => Raise e
      | Ok (k, indices) =>
          match convert_all rest indices with
          | Raise e => Raise e
          | Ok ks => Ok (k :: ks)
          end
      end
  end.

Section Perform.
Context {E : ElemType}.
Local Open Scope m_scope.

(** [perform]: [x], [y] are [inputs[:2]] and [inputs] stands for
    [inputs[2:]]; the result is what is stored in [out[0]]. *)
Definition perform (self : IncOp) (idx_list : list entry)
                   (x y : GpuArray) (inputs : list Z) : M GpuArray :=
  cdata <- lift (convert_all idx_list (rev inputs)) ;;
  x <- (if negb (inplace self) then Pygpu.copy x else ret x) ;;
  sub_x <- lift (Pygpu.getitem x cdata) ;;
  match shape sub_x with
  | _ :: _ =>
      if negb (set_instead_of_inc self)
      then Pygpu.ielemwise2_add sub_x y false
      else Pygpu.setitem x cdata y
  | [] =>
      if negb (set_instead_of_inc self)
      then tmp <- Pygpu.elemwise2_add sub_x y sub_x false ;;
           Pygpu.setitem x cdata tmp
      else Pygpu.setitem x cdata y
  end ;;;
  ret x.

End Perform.

End GpuIncSubtensor.

(** ** ScatterUpdateEngine: [GpuAdvancedIncSubtensor1.perform] *)

Module GpuAdvancedIncSubtensor1.

(** The kernel object [getInplElemwiseAdditionKernel] builds:
    ["a[i] = a[i] + b[i]"]. *)
Inductive ElemwiseKernel : Type := InplElemwiseAddition.

Definition getInplElemwiseAdditionKernel (a b : GpuArray)
  : result ElemwiseKernel :=
  if dtype_eqb (dtype_of a) float16 || dtype_eqb (dtype_of b) float16
  then Raise NotImplementedError
  else Ok InplElemwiseAddition.

Section Perform.
Context {E : ElemType}.
Local Open Scope m_scope.

(** [k(a, b, broadcast=True)]. *)
Definition call (k : ElemwiseKernel) (a b : GpuArray) (broadcast : bool)
  : M unit :=
  match k with
  | InplElemwiseAddition => Pygpu.iadd a b broadcast
  end.

(** [y.ndim == x.ndim and y.shape[0] != 1]. *)
Definition jointly (x y : GpuArray) : result bool :=
  if (ndim y =? ndim x)%nat then
    match shape y with
    | d :: _ => Ok (negb (d =? 1))
    | [] => Raise IndexError
    end
  else Ok false.

(** [len(y)] of an array of rank at least 1. *)
Definition len (y : GpuArray) : Z :=
  match shape y with
  | d :: _ => d
  | [] => 0
  end.

(** [perform]: [idx] holds the values of the index vector (after
    [numpy.asarray]); the result is what is stored in [out[0]]. *)
Definition perform (self : IncOp) (x y : GpuArray) (idx : list Z)
  : M GpuArray :=
  x <- (if negb (inplace self) then Pygpu.copy x else ret x) ;;
  if (length idx =? 0)%nat then ret x
  else
    j <- lift (jointly x y) ;;
    (if j : bool then
       if negb (len y =? Z.of_nat (length idx)) then raise AssertionError
       else if set_instead_of_inc self then
         for_each (enumerate idx)
           (fun '(j, i) =>
              yj <- lift (Pygpu.getitem y [IInt j]) ;;
              Pygpu.setitem x [IInt i] yj)
       else
         x0 <- lift (Pygpu.getitem x [IInt 0]) ;;
         y0 <- lift (Pygpu.getitem y [IInt 0]) ;;
         k <- lift (getInplElemwiseAdditionKernel x0 y0) ;;
         for_each (enumerate idx)
           (fun '(j, i) =>
              xi <- lift (Pygpu.getitem x [IInt i]) ;;
              yj <- lift (Pygpu.getitem y [IInt j]) ;;
              call k xi yj true)
     else
       reshaped_y <-
         lift (if (ndim y =? ndim x)%nat
               then Pygpu.reshape y (tl (shape y))
               else
                 let nb_dims_to_add :=
                   (Z.of_nat (ndim x) - 1) - Z.of_nat (ndim y) in
                 Pygpu.reshape y (repeat 1 (Z.to_nat nb_dims_to_add)
                                  ++ shape y)) ;;
       if set_instead_of_inc self then
         for_each idx (fun i => Pygpu.setitem x [IInt i] reshaped_y)
       else
         x0 <- lift (Pygpu.getitem x [IInt 0]) ;;
         k <- lift (getInplElemwiseAdditionKernel x0 reshaped_y) ;;
         for_each idx
           (fun i =>
              xi <- lift (Pygpu.getitem x [IInt i]) ;;
              call k xi reshaped_y true)) ;;;
    ret x.

End Perform.

End GpuAdvancedIncSubtensor1.

(** ** Reading arrays back *)

Section Contents.
Context {E : ElemType}.

(** The elements of [a] in C order. *)
Definition contents (s : store) (a : GpuArray) : list elem :=
  map (read s a) (indices_of (shape a)).

(** The rows of a matrix ([a.tolist()] at rank 2). *)
Definition tolist2 (s : store) (a : GpuArray) : list (list elem) :=
  match shape a with
  | [r; c] =>
      map (fun i => map (fun j => read s a [i; j])
                        (map Z.of_nat (seq 0 (Z.to_nat c))))
          (map Z.of_nat (seq 0 (Z.to_nat r)))
  | _ => []
  end.

End Contents.

(** Integer elements with exact addition, for the concrete runs. *)
#[export] Instance Z_elem : ElemType := {| elem := Z; add := Z.add |}.

(** A store with the buffers of a list of matrices laid out C-contiguous
    with 8-byte items, buffer [h] holding the [h]-th matrix. *)
Definition buffer_of_rows (rows : list (list Z)) (a : Z) : Z :=
  let flat := concat rows in
  if (a <? 0) || negb (a mod 8 =? 0) then 0
  else nth (Z.to_nat (a / 8)) flat 0.

Definition store_of (ms : list (list (list Z))) : @store Z_elem :=
  mkStore (fun h a => buffer_of_rows (nth h ms []) a) (length ms).

Definition matrix (h : nat) (r c : Z) : GpuArray :=
  mkGpuArray h 0 [r; c] [8 * c; 8] float64.




(** ** AtomicScatterKernel: [GpuAdvancedIncSubtensor1_dev20] *)

(** The index vector of the accelerated operation, an integer array on the
    device: [ind_mem] gives the value stored at a byte address. *)
Record IndexVector : Type := mkIndexVector {
  ind_mem : Z -> Z;
  ind_offset : Z;
  ind_size : Z;
  ind_stride : Z;      (* in bytes *)
  ind_itemsize : Z
}.

(** [numpy.asarray(idx)]: the values of the vector in order. *)
Definition asarray (iv : IndexVector) : list Z :=
  map (fun i => ind_mem iv (ind_offset iv + Z.of_nat i * ind_stride iv))
      (seq 0 (Z.to_nat (ind_size iv))).

Module GpuAdvancedIncSubtensor1_dev20.

(** The C text of [c_code]: copy or alias [x], then
    [GpuArray_vector_add_fast(out, y, ind)]. *)
Inductive ccode : Type := VectorAddFast (inplace : bool).

(** [c_code]: the accelerated path is refused in set mode, when the ranks
    of [x] and [y] differ, when [x] is not a matrix, and below compute
    capability 2. *)
Definition c_code (self : IncOp) (x_ndim y_ndim : nat)
                  (compute_capability : Z) : result ccode :=
  if set_instead_of_inc self
     || negb (x_ndim =? y_ndim)%nat
     || negb (x_ndim =? 2)%nat
     || (compute_capability <? 2)
  then Raise NotImplementedError
  else Ok (VectorAddFast (inplace self)).

(** The parameters of [k_vector_add_fast]; strides count elements. *)
Record kparams : Type := mkKparams {
  numRowsX : Z; numColsX : Z; stridesX0 : Z; stridesX1 : Z;
  X : nat; offset_X : Z; itemsize_x : Z;
  numRowsY : Z; numColsY : Z; stridesY0 : Z; stridesY1 : Z;
  Y : nat; offset_Y : Z; itemsize_y : Z;
  numIndices : Z; stridesIndices : Z;
  indices_arr : Z -> Z; offset_indices_arr : Z; itemsize_ind : Z
}.

(** [int x_row = indices_arr[i * stridesIndices];
     if (x_row < 0) x_row += numRowsX;]
    on the value [index] read from the vector: [x_row] is an [int] and
    [numRowsX] a [ga_size], so the sum is taken in 64 bits unsigned and
    cut back to 32. *)
Definition x_row (index numRowsX : Z) : Z :=
  let x_row := to_int index in
  if x_row <? 0 then to_int (to_size (to_size x_row + numRowsX))
  else x_row.

(** The value [indices_arr[i * stridesIndices]]. *)
Definition index_at (p : kparams) (i : Z) : Z :=
  indices_arr p (offset_indices_arr p
                 + itemsize_ind p * (i * stridesIndices p)).

(** Byte address of [&X[(x_row * stridesX0) + (j * stridesX1)]]. *)
Definition target (p : kparams) (i j : Z) : Z :=
  offset_X p
  + itemsize_x p * (x_row (index_at p i) (numRowsX p) * stridesX0 p
                    + j * stridesX1 p).

(** Byte address of [&Y[(y_row * stridesY0) + (j * stridesY1)]]. *)
Definition source (p : kparams) (i j : Z) : Z :=
  let y_row := to_int i in
  offset_Y p + itemsize_y p * (y_row * stridesY0 p + j * stridesY1 p).

(** [for (int i = lo; i < hi; i += step)], [step > 0]. *)
Definition c_for (lo hi step : Z) : list Z := PyRef.range lo hi step.

Section Kernel.
Context {E : ElemType}.
Local Open Scope m_scope.

(** The effect of [atomicAdd(addr, val)] on the store. *)
Definition atomicAdd (h : nat) (addr : Z) (val : elem) : M unit :=
  fun s => (write h addr (add (bufs s h addr) val) s, Ok tt).

(** The body of [k_vector_add_fast] for one thread of one block. *)
Definition k_vector_add_fast (p : kparams)
           (gridDim blockDim blockIdx threadIdx : Z) : M unit :=
  for_each (c_for blockIdx (numIndices p) gridDim)
    (fun i =>
       for_each (c_for threadIdx (numColsX p) blockDim)
         (fun j s =>
            atomicAdd (X p) (target p i j)
                      (bufs s (Y p) (source p i j)) s)).

(** [GpuKernel_call]: every thread of every block runs the kernel; the
    threads are run here one after the other. *)
Definition GpuKernel_call (p : kparams) (threads_per_block n_blocks : Z)
  : M unit :=
  for_each (c_for 0 n_blocks 1)
    (fun b =>
       for_each (c_for 0 threads_per_block 1)
         (fun t => k_vector_add_fast p n_blocks threads_per_block b t)).

(** [GpuArray_vector_add_fast(py_self, py_other, indices_arr)] on
    matrices; the strides are divided by the item sizes as C does. *)
Definition GpuArray_vector_add_fast (py_self py_other : GpuArray)
           (ind : IndexVector) : M unit :=
  match shape py_self, strides py_self,
        shape py_other, strides py_other with
  | [r; c], [s0; s1], [ry; cy], [t0; t1] =>
      let threads_per_block := Z.min c 256 in
      let n_blocks := Z.min (ind_size ind) 4096 in
      if (threads_per_block >? 0) && (n_blocks >? 0) then
        let isx := itemsize (dtype_of py_self) in
        let isy := itemsize (dtype_of py_other) in
        GpuKernel_call
          (mkKparams r c (Z.quot s0 isx) (Z.quot s1 isx)
                     (data py_self) (offset py_self) isx
                     ry cy
                     (if ry =? 1 then 0 else Z.quot t0 isy)
                     (if cy =? 1 then 0 else Z.quot t1 isy)
                     (data py_other) (offset py_other) isy
                     (ind_size ind)
                     (Z.quot (ind_stride ind) (ind_itemsize ind))
                     (ind_mem ind) (ind_offset ind) (ind_itemsize ind))
          threads_per_block n_blocks
      else ret tt
  | _, _, _, _ => raise IndexError
  end.

(** Running the C text of [c_code]. *)
Definition exec (code : ccode) (x y : GpuArray) (ind : IndexVector)
  : M GpuArray :=
  match code with
  | VectorAddFast inplace =>
      out <- (if negb inplace then Pygpu.copy x else ret x) ;;
      GpuArray_vector_add_fast out y ind ;;;
      ret out
  end.

(** Modelled from the spec: the dispatch of the operator framework
    ([Op.make_thunk]), which is not part of the source file.  Section 7:
    accelerated-path eligibility failures are recovered locally by
    falling back to the sequential per-index path, that is, the
    inherited [perform]; they are never surfaced to the caller. *)
Definition make_thunk (self : IncOp) (compute_capability : Z)
           (x y : GpuArray) (ind : IndexVector) : M GpuArray :=
  match c_code self (ndim x) (ndim y) compute_capability with
  | Ok code => exec code x y ind
  | Raise NotImplementedError =>
      GpuAdvancedIncSubtensor1.perform self x y (asarray ind)
  | Raise e => raise e
  end.

End Kernel.

End GpuAdvancedIncSubtensor1_dev20.

(** ** Half-float [atomicAdd]: the compare-and-swap retry loop *)

Module AtomicHalf.

(** Byte [k] of a word. *)
Definition byte (w k : Z) : Z := Z.land (Z.shiftr w (8 * k)) 255.

(** [__byte_perm(x, y, s)]: byte [n] of the result is the byte of the
    pair [(x, y)] that the low three bits of nibble [n] of [s] name
    (0..3 in [x], 4..7 in [y]). *)
Definition selected (x y s n : Z) : Z :=
  let c := Z.land (Z.shiftr s (4 * n)) 7 in
  if c <? 4 then byte x c else byte y (c - 4).

Definition byte_perm (x y s : Z) : Z :=
  selected x y s 0 + 2 ^ 8 * selected x y s 1
  + 2 ^ 16 * selected x y s 2 + 2 ^ 24 * selected x y s 3.

(** The two halves of a 4-byte word (little endian: the half at byte
    offset 2 is the upper one). *)
Definition lo16 (w : Z) : Z := Z.land w 65535.
Definition hi16 (w : Z) : Z := Z.land (Z.shiftr w 16) 65535.

Section Loop.
(** [__float2half_rn(__half2float(val) + __half2float(h))] on the bit
    patterns of half floats; the arithmetic itself is left open. *)
Variable half_add : Z -> Z -> Z.
(** The arguments of [atomicAdd]. *)
Variable addr : Z.
Variable val : Z.

(** [(ga_size)addr & 2]. *)
Definition upper : bool := negb (Z.land addr 2 =? 0).

(** [(ga_half)__byte_perm(old, 0, upper ? 0x4432 : 0x4410)]. *)
Definition extract (old : Z) : Z :=
  lo16 (byte_perm old 0 (if upper then 0x4432 else 0x4410)).

(** The value of [new_] computed from [old]. *)
Definition new_word (old : Z) : Z :=
  let sum := lo16 (half_add val (extract old)) in
  byte_perm old sum (if upper then 0x5410 else 0x3254).

(** The half of the word [atomicAdd] targets, and the other one. *)
Definition target_half (w : Z) : Z := if upper then hi16 w else lo16 w.
Definition other_half (w : Z) : Z := if upper then lo16 w else hi16 w.

(** Where a thread is in [atomicAdd]: before [old = *base], at the top
    of the [do] loop holding [old], or returned. *)
Inductive thread : Type :=
| Start
| Loop (old : Z)
| Done (ret : Z).

(** One step of a thread on the shared word [w]: the initial read, or
    one iteration of the loop, whose only access to memory is the
    [atomicCAS].  Gives the new word and the new thread state. *)
Definition thread_step (w : Z) (t : thread) : option (Z * thread) :=
  match t with
  | Start => Some (w, Loop w)
  | Loop old =>
      let assumed := old in
      let new_ := new_word old in
      let w' := if w =? assumed then new_ else w in
      let old := w in
      Some (w', if assumed =? old then Done (extract old) else Loop old)
  | Done _ => None
  end.

(** The word at [base] and the threads adding to it. *)
Record sys : Type := mkSys { word : Z; threads : list thread }.

(** Any thread that has not returned may take the next step. *)
Inductive step : sys -> sys -> Prop :=
| step_thread w l1 t l2 w' t' :
    thread_step w t = Some (w', t') ->
    step (mkSys w (l1 ++ t :: l2)) (mkSys w' (l1 ++ t' :: l2)).

(** Executions of [n] steps. *)
Inductive steps : nat -> sys -> sys -> Prop :=
| steps_O s : steps O s s
| steps_S n s1 s2 s3 : step s1 s2 -> steps n s2 s3 -> steps (S n) s1 s3.

Definition init (N : nat) (w0 : Z) : sys := mkSys w0 (repeat Start N).

Definition is_done (t : thread) : bool :=
  match t with Done _ => true | _ => false end.

Definition all_done (s : sys) : Prop :=
  forallb is_done (threads s) = true.

(** [N] additions of [val], one after the other. *)
Definition sum_of (N : nat) (h0 : Z) : Z :=
  Nat.iter N (fun h => lo16 (half_add val h)) h0.

(** A schedule names the thread that takes each step; running it. *)
Fixpoint run (sched : list nat) (s : sys) : sys :=
  match sched with
  | [] => s
  | i :: sched' =>
      match nth_error (threads s) i with
      | Some t =>
          match thread_step (word s) t with
          | Some (w', t') =>
              run sched' (mkSys w' (firstn i (threads s) ++ t'
                                    :: skipn (S i) (threads s)))
          | None => run sched' s
          end
      | None => run sched' s
      end
  end.

End Loop.

End AtomicHalf.

(** [(ga_uint * )((ga_size)addr & ~2)]: the address of the word
    [atomicAdd] exchanges. *)
Definition base (addr : Z) : Z := Z.land addr (Z.lnot 2).

(** ** The graph layer: [make_node] of the scatter operations *)

Module Node.
Import String.
Local Open Scope string_scope.

(** The type of a symbolic variable: [type.dtype] and [type.ndim]. *)
Record TensorType : Type := mkTensorType {
  type_dtype : string;
  type_ndim : nat
}.

(** What [make_node] raises. *)
Inductive node_exn : Type :=
| NodeAssertionError
| NodeTypeError (msg : string).

(** [gof.Apply(self, inputs, outputs)]. *)
Record Apply : Type := mkApply {
  inputs : list TensorType;
  outputs : list TensorType
}.

Inductive made : Type :=
| Applied (node : Apply)
| NodeRaise (e : node_exn).

(** [dtype[:3] not in ('int', 'uin')]. *)
Definition integer_dtype (dtype : string) : bool :=
  let p := substring 0 3 dtype in
  (p =? "int")%string || (p =? "uin")%string.

(** [make_node] of [GpuAdvancedIncSubtensor1] and of
    [GpuAdvancedIncSubtensor1_dev20], which differ only in how the index
    is made a variable; [x_], [y_] and [ilist_] are the types of the
    three variables.  The message of the last [raise] is formatted from
    four places and three values, for which Python itself raises its
    [TypeError]. *)
Definition make_node (set_instead_of_inc : bool)
                     (x_ y_ ilist_ : TensorType) : made :=
  if negb (type_dtype x_ =? type_dtype y_)%string
  then NodeRaise NodeAssertionError
  else if negb (type_ndim y_ <=? type_ndim x_)%nat
  then NodeRaise NodeAssertionError
  else if negb (integer_dtype (type_dtype ilist_))
  then NodeRaise (NodeTypeError "index must be integers")
  else if negb (type_ndim ilist_ =? 1)%nat
  then NodeRaise (NodeTypeError "index must be vector")
  else if (type_ndim x_ =? 0)%nat
  then NodeRaise (NodeTypeError "cannot index into a scalar")
  else if (type_ndim x_ <? type_ndim y_)%nat
  then
    let opname := if set_instead_of_inc then "set" else "increment" in
    NodeRaise (NodeTypeError "not enough arguments for format string")
  else Applied (mkApply [x_; y_; ilist_] [x_]).

(** The dtype names of the graph layer. *)
Definition dtype_names : list string :=
  ["int8"; "int16"; "int32"; "int64";
   "uint8"; "uint16"; "uint32"; "uint64";
   "float16"; "float32"; "float64"; "complex64"; "complex128"; "bool"]%string.

End Node.

(** ** Pickling [GpuIncSubtensor]: [__getstate__] and [__setstate__] *)

Module GpuIncSubtensorState.
Import String.
Local Open Scope string_scope.

Section Dict.
(** The values of the attributes. *)
Variable V : Type.

(** A Python [dict] with string keys: its items in insertion order, no
    key twice. *)
Definition dict : Type := list (string * V).

Definition keys (d : dict) : list string := map fst d.

(** [d.get(k)]. *)
Fixpoint get (d : dict) (k : string) : option V :=
  match d with
  | [] => None
  | (k', v) :: d' => if (k' =? k)%string then Some v else get d' k
  end.

(** [k in d]. *)
Definition contains (d : dict) (k : string) : bool :=
  match get d k with Some _ => true | None => false end.

(** [d[k] = v]: a present key keeps its place. *)
Fixpoint set (d : dict) (k : string) (v : V) : dict :=
  match d with
  | [] => [(k, v)]
  | (k', v') :: d' =>
      if (k' =? k)%string then (k, v) :: d' else (k', v') :: set d' k v
  end.

(** [d.pop(k)] on the dict. *)
Fixpoint pop (d : dict) (k : string) : dict :=
  match d with
  | [] => []
  | (k', v) :: d' => if (k' =? k)%string then d' else (k', v) :: pop d' k
  end.

(** [d.update(other)]. *)
Definition update (d other : dict) : dict :=
  fold_left (fun acc kv => set acc (fst kv) (snd kv)) other d.

(** [__getstate__], on [self.__dict__]; the result is the pickled
    state. *)
Definition getstate (self_dict : dict) : dict :=
  let d := self_dict in                  (* copy.copy(self.__dict__) *)
  if contains d "iadd_node" then pop d "iadd_node" else d.

(** [getattr(self.__dict__, name, None)] for a name that is no attribute
    of [dict] objects: the keys of a dict are not its attributes. *)
Definition getattr_of_dict (d : dict) (name : string) : option V := None.

(** [__setstate__], giving the new [self.__dict__]; [None] stands for
    the call of [create_iadd_node] on the undefined name [op]. *)
Definition setstate (self_dict d : dict) : option dict :=
  let self_dict := update self_dict d in
  match getattr_of_dict self_dict "owner" with
  | Some owner => None
  | None => Some self_dict
  end.

End Dict.

End GpuIncSubtensorState.

(** ** The scatter policy in the words of the specification

    Section 4.4, to compare [GpuAdvancedIncSubtensor1.perform] with: a
    source of the destination's rank whose leading extent is not 1 is
    mapped row by row, the [i]-th index to the [i]-th row (the lengths
    must match); any other source is broadcast, its degenerate leading
    axis dropped or unit axes added on the left up to the rank of a row,
    and applied to every selected row. *)

Module ScatterSpec.
Section Spec.
Context {E : ElemType}.
Local Open Scope m_scope.

(** [Set] overwrites the row, [Accumulate] adds to it elementwise. *)
Definition row_update (set : bool) (row src : GpuArray) : M unit :=
  if set then Pygpu.setarray row src else Pygpu.iadd row src true.

Definition one_to_one (x y : GpuArray) : bool :=
  (ndim y =? ndim x)%nat && negb (hd 0 (shape y) =? 1).

Definition broadcast_source (x y : GpuArray) : result GpuArray :=
  if (ndim y =? ndim x)%nat then Pygpu.reshape y (tl (shape y))
  else Pygpu.reshape y (repeat 1 (ndim x - 1 - ndim y)%nat ++ shape y).

Definition scatter (self : IncOp) (x y : GpuArray) (idx : list Z)
  : M GpuArray :=
  x <- (if inplace self then ret x else Pygpu.copy x) ;;
  (if one_to_one x y then
     if negb (hd 0 (shape y) =? Z.of_nat (length idx))
     then raise AssertionError
     else
       for_each (enumerate idx)
         (fun '(j, i) =>
            row <- lift (Pygpu.getitem x [IInt i]) ;;
            src <- lift (Pygpu.getitem y [IInt j]) ;;
            row_update (set_instead_of_inc self) row src)
   else
     src <- lift (broadcast_source x y) ;;
     for_each idx
       (fun i =>
          row <- lift (Pygpu.getitem x [IInt i]) ;;
          row_update (set_instead_of_inc self) row src)) ;;;
  ret x.

End Spec.
End ScatterSpec.

(** ** Vocabulary of the statements

    Notions the theorems are stated with: sequences of writes and of
    additions, frames, rows of well-formed arrays, the tasks of the
    accumulating loop, and the continuations of the operations after their
    optional copy. *)

Section Vocabulary.
Context {E : ElemType}.
Local Open Scope m_scope.

(** A sequence of writes into one buffer: item [m] of [l] is written at
    [addr m] with a value that may depend on the store at that time. *)
Definition writes {T} (h : nat) (addr : T -> Z) (val : store -> T -> elem)
                  (l : list T) (s : store) : store :=
  fold_left (fun st m => write h (addr m) (val st m) st) l s.

(** The array [a.copy()] returns in the store [s]. *)
Definition copy_of (s : store) (a : GpuArray) : GpuArray :=
  mkGpuArray (next s) 0 (shape a)
             (c_strides (itemsize (dtype_of a)) (shape a)) (dtype_of a).

(** [frame keep c]: running [c] allocates but never frees, and leaves the
    buffers that existed before and that [keep] protects as they were. *)
Definition frame (keep : nat -> Prop) {A} (c : M A) : Prop :=
  forall s,
    (next s <= next (fst (c s)))%nat /\
    forall h t, keep h -> (h < next s)%nat ->
                bufs (fst (c s)) h t = bufs s h t.

(** What follows the optional copy in [GpuIncSubtensor.perform]. *)
Definition combine_into (self : IncOp) (cdata : list index) (y x : GpuArray)
  : M GpuArray :=
  sub_x <- lift (Pygpu.getitem x cdata) ;;
  match shape sub_x with
  | _ :: _ =>
      if negb (set_instead_of_inc self)
      then Pygpu.ielemwise2_add sub_x y false
      else Pygpu.setitem x cdata y
  | [] =>
      if negb (set_instead_of_inc self)
      then tmp <- Pygpu.elemwise2_add sub_x y sub_x false ;;
           Pygpu.setitem x cdata tmp
      else Pygpu.setitem x cdata y
  end ;;;
  ret x.

(** What follows the optional copy in [GpuAdvancedIncSubtensor1.perform]. *)
Definition scatter_into (self : IncOp) (y : GpuArray) (idx : list Z)
                        (x : GpuArray) : M GpuArray :=
  if (length idx =? 0)%nat then ret x
  else
    j <- lift (GpuAdvancedIncSubtensor1.jointly x y) ;;
    (if j : bool then
       if negb (GpuAdvancedIncSubtensor1.len y =? Z.of_nat (length idx))
       then raise AssertionError
       else if set_instead_of_inc self then
         for_each (enumerate idx)
           (fun '(j, i) =>
              yj <- lift (Pygpu.getitem y [IInt j]) ;;
              Pygpu.setitem x [IInt i] yj)
       else
         x0 <- lift (Pygpu.getitem x [IInt 0]) ;;
         y0 <- lift (Pygpu.getitem y [IInt 0]) ;;
         k <- lift (GpuAdvancedIncSubtensor1.getInplElemwiseAdditionKernel
                      x0 y0) ;;
         for_each (enumerate idx)
           (fun '(j, i) =>
              xi <- lift (Pygpu.getitem x [IInt i]) ;;
              yj <- lift (Pygpu.getitem y [IInt j]) ;;
              GpuAdvancedIncSubtensor1.call k xi yj true)
     else
       reshaped_y <-
         lift (if (ndim y =? ndim x)%nat
               then Pygpu.reshape y (tl (shape y))
               else
                 let nb_dims_to_add :=
                   (Z.of_nat (ndim x) - 1) - Z.of_nat (ndim y) in
                 Pygpu.reshape y (repeat 1 (Z.to_nat nb_dims_to_add)
                                  ++ shape y)) ;;
       if set_instead_of_inc self then
         for_each idx (fun i => Pygpu.setitem x [IInt i] reshaped_y)
       else
         x0 <- lift (Pygpu.getitem x [IInt 0]) ;;
         k <- lift (GpuAdvancedIncSubtensor1.getInplElemwiseAdditionKernel
                      x0 reshaped_y) ;;
         for_each idx
           (fun i =>
              xi <- lift (Pygpu.getitem x [IInt i]) ;;
              GpuAdvancedIncSubtensor1.call k xi reshaped_y true)) ;;;
    ret x.

(** The triples of the axes a key leaves whole. *)
Definition whole (ds : list Z) : list (Z * Z * Z) :=
  map (fun d => (0, d, 1)) ds.

(** What follows the optional copy in [ScatterSpec.scatter]. *)
Definition policy_into (self : IncOp) (y : GpuArray) (idx : list Z)
                       (x : GpuArray) : M GpuArray :=
  (if ScatterSpec.one_to_one x y then
     if negb (hd 0 (shape y) =? Z.of_nat (length idx))
     then raise AssertionError
     else
       for_each (enumerate idx)
         (fun '(j, i) =>
            row <- lift (Pygpu.getitem x [IInt i]) ;;
            src <- lift (Pygpu.getitem y [IInt j]) ;;
            ScatterSpec.row_update (set_instead_of_inc self) row src)
   else
     src <- lift (ScatterSpec.broadcast_source x y) ;;
     for_each idx
       (fun i =>
          row <- lift (Pygpu.getitem x [IInt i]) ;;
          ScatterSpec.row_update (set_instead_of_inc self) row src)) ;;;
  ret x.

(** The axes [reshape] keeps the strides of. *)
Definition nonunit (p : Z * Z) : bool := negb (fst p =? 1).


(** Adding [c] to the element at address [t] of buffer [h]. *)
Definition bump (h : nat) (t : Z) (c : elem) (s : store) : store :=
  write h t (add (bufs s h t) c) s.

(** A list of additions, each given by its address and its value. *)
Definition apply_bumps (h : nat) (l : list (Z * elem)) (s : store) : store :=
  fold_left (fun st p => bump h (fst p) (snd p) st) l s.

(** An array with a leading axis, a stride per axis and no negative
    extent. *)
Definition well_formed (a : GpuArray) : Prop :=
  (1 <= ndim a)%nat /\
  length (strides a) = length (shape a) /\
  Forall (fun d => 0 <= d) (shape a).

(** Python's reading of a possibly negative index on an axis of length
    [d]. *)
Definition wrap (d i : Z) : Z := if i <? 0 then i + d else i.

(** The view [a[i]] for a position [i] of the leading axis. *)
Definition row (a : GpuArray) (i : Z) : GpuArray :=
  mkGpuArray (data a) (offset a + i * hd 0 (strides a))
             (tl (shape a)) (tl (strides a)) (dtype_of a).

(** A task of the loop: the index of the row and the source added to it. *)
Definition valid_task (X : GpuArray) (t : Z * GpuArray) : Prop :=
  - hd 0 (shape X) <= fst t < hd 0 (shape X) /\
  shape (snd t) = tl (shape X) /\
  length (strides (snd t)) = length (shape (snd t)) /\
  data (snd t) <> data X.

(** The additions a task makes, with the source read in the store [s0]. *)
Definition task_bumps (X : GpuArray) (s0 : store) (t : Z * GpuArray)
  : list (Z * elem) :=
  map (fun m => (address X (wrap (hd 0 (shape X)) (fst t) :: m),
                 read s0 (snd t) m))
      (indices_of (tl (shape X))).

(** The task of a pair [(j, i)] of the joint loop: row [j] of [y] goes to
    the row [i] names. *)
Definition joint_task (y : GpuArray) (p : Z * Z) : Z * GpuArray :=
  (snd p, row y (fst p)).

(** The accumulating loop over a list of tasks. *)
Definition task_loop (X : GpuArray) (tasks : list (Z * GpuArray)) : M unit :=
  for_each tasks
    (fun t => xi <- lift (Pygpu.getitem X [IInt (fst t)]) ;;
              Pygpu.iadd xi (snd t) true).

(** The tasks of a scatter update: row [j] of [y] for the [j]-th index
    when rows are mapped one to one, the broadcast source for every index
    otherwise. *)
Definition scatter_tasks (x y : GpuArray) (idx : list Z)
  : result (list (Z * GpuArray)) :=
  if ScatterSpec.one_to_one x y
  then Ok (map (joint_task y) (enumerate idx))
  else
    match ScatterSpec.broadcast_source x y with
    | Ok src => Ok (map (fun i => (i, src)) idx)
    | Raise e => Raise e
    end.

(** Distinct elements of the array occupy distinct addresses. *)
Definition injective_addresses (X : GpuArray) : Prop :=
  forall m1 m2,
    In m1 (indices_of (shape X)) -> In m2 (indices_of (shape X)) ->
    address X m1 = address X m2 -> m1 = m2.

(** The values the loop adds to element [m] of row [r]: element [m] of
    the source of every task whose index names row [r], in the order of
    the tasks. *)
Definition contributions (s : store) (tasks : list (Z * GpuArray)) (d : Z)
                         (r : Z) (m : list Z) : list elem :=
  flat_map (fun t => if wrap d (fst t) =? r then [read s (snd t) m] else [])
           tasks.

(** The destination the loop works on, and the store it starts from. *)
Definition destination (self : IncOp) (s : store) (x : GpuArray) : GpuArray :=
  if inplace self then x else copy_of s x.

Definition start_store (self : IncOp) (s : store) (x : GpuArray) : store :=
  fst ((if inplace self then ret x else Pygpu.copy x) s).

End Vocabulary.

(** Counting the threads of the compare-and-swap loop, its invariant and
    its potential. *)

Section CasVocabulary.
Import AtomicHalf.
Variable half_add : Z -> Z -> Z.
Variable addr : Z.
Variable val : Z.

(** Threads that have returned, and threads still at work. *)
Definition done_count (l : list thread) : nat := length (filter is_done l).

Definition pending (l : list thread) : nat :=
  length (filter (fun t => negb (is_done t)) l).

(** The invariant: the targeted half holds as many additions as threads
    have returned, the other half its initial value. *)
Definition cas_inv (w0 : Z) (s : sys) : Prop :=
  target_half addr (word s)
  = sum_of half_add val (done_count (threads s)) (target_half addr w0) /\
  other_half addr (word s) = other_half addr w0.

(** Steps a thread still needs when no other thread interferes: the read
    and one exchange from [Start], one exchange when it holds the current
    word, a failed and a successful one when it holds a stale word. *)
Definition rank (w : Z) (t : thread) : nat :=
  match t with
  | Start => 2
  | Loop old => if old =? w then 1 else 2
  | Done _ => 0
  end.

Definition rank_sum (w : Z) (l : list thread) : nat :=
  list_sum (map (rank w) l).

(** The potential that every step lowers. *)
Definition potential (s : sys) : nat :=
  (rank_sum (word s) (threads s)
   + pending (threads s) * pending (threads s))%nat.

End CasVocabulary.

(** ** Vocabulary of the further statements *)

(** Index lists and keys. *)

(** The runtime inputs a field, an entry and an index list stand for: one
    for each symbolic scalar. *)
Definition field_inputs (f : field) : nat :=
  match f with FType => 1 | _ => 0 end.

Definition entry_inputs (en : entry) : nat :=
  match en with
  | EInt _ => 0
  | EType => 1
  | ESlice start stop step =>
      field_inputs start + field_inputs stop + field_inputs step
  end.

Fixpoint inputs_needed (idx_list : list entry) : nat :=
  match idx_list with
  | [] => 0
  | en :: rest => entry_inputs en + inputs_needed rest
  end.

(** [slice(None)], the entry an index list is padded with. *)
Definition full_slice : entry := ESlice FNone FNone FNone.

(** What an integer or a slice of a key must satisfy on an axis of length
    [d] for the generated C code, which does not check an integer index
    against the axis, to be within its contract. *)
Definition valid_index (d : Z) (k : index) : Prop :=
  match k with
  | IInt i => - d <= i < d
  | ISlice start stop step =>
      opt_in_ssize start /\ opt_in_ssize stop /\ opt_in_ssize step
  end.

Fixpoint valid_key (dims : list Z) (key : list index) : Prop :=
  match key, dims with
  | k :: key', d :: ds => valid_index d k /\ valid_key ds key'
  | _, _ => True
  end.

(** The value a field of the generated code stands for: [None] when its
    flag says the field was omitted. *)
Definition field_value (env : nat -> Z) (e : GpuSubtensor.cexpr) (n : bool)
  : option Z :=
  if n then None else Some (GpuSubtensor.eval env e).

(** The index of a key that an axis of the generated code stands for. *)
Definition axis_index (env : nat -> Z) (ax : GpuSubtensor.axis_code) : index :=
  match ax with
  | GpuSubtensor.AxisScalar start => IInt (GpuSubtensor.eval env start)
  | GpuSubtensor.AxisSlice start stop step start_n stop_n step_n =>
      ISlice (field_value env start start_n) (field_value env stop stop_n)
             (field_value env step step_n)
  end.

(** The code [axes_code] emits for an omitted field is the literal 0. *)
Definition omitted_is_zero (ax : GpuSubtensor.axis_code) : Prop :=
  match ax with
  | GpuSubtensor.AxisScalar _ => True
  | GpuSubtensor.AxisSlice start stop step start_n stop_n step_n =>
      (start_n = true -> start = GpuSubtensor.CLit 0) /\
      (stop_n = true -> stop = GpuSubtensor.CLit 0) /\
      (step_n = true -> step = GpuSubtensor.CLit 0)
  end.

(** The code of a full slice. *)
Definition full_axis : GpuSubtensor.axis_code :=
  GpuSubtensor.AxisSlice (GpuSubtensor.CLit 0) (GpuSubtensor.CLit 0)
                         (GpuSubtensor.CLit 0) true true true.

(** Views and sequences of stores. *)

Section ViewVocabulary.
Context {E : ElemType}.

(** The elements of a view occupy distinct addresses. *)
Definition distinct_elements (a : GpuArray) : Prop :=
  forall m1 m2,
    In m1 (indices_of (shape a)) -> In m2 (indices_of (shape a)) ->
    address a m1 = address a m2 -> m1 = m2.

(** The address [t] is not that of an element of the view. *)
Definition outside (a : GpuArray) (t : Z) : Prop :=
  forall m, In m (indices_of (shape a)) -> address a m <> t.

(** A sequence of stores into one buffer, each given by its address and
    its value. *)
Definition apply_sets (h : nat) (l : list (Z * elem)) (s : store) : store :=
  fold_left (fun st p => write h (fst p) (snd p) st) l s.

End ViewVocabulary.

Section SetVocabulary.
Context {E : ElemType}.
Local Open Scope m_scope.

(** The overwriting loop over a list of tasks. *)
Definition set_loop (X : GpuArray) (tasks : list (Z * GpuArray)) : M unit :=
  for_each tasks
    (fun t => xi <- lift (Pygpu.getitem X [IInt (fst t)]) ;;
              Pygpu.setarray xi (snd t)).

(** What an element holds after the values [l] have been applied to it in
    order: the last of them in set mode, their sum on top of the old
    value otherwise. *)
Definition settle (set : bool) (l : list elem) (v : elem) : elem :=
  if set then last l v else fold_left add l v.

End SetVocabulary.

(** The launch of the kernel. *)

(** The pairs [(i, j)] of index position and column the thread
    [threadIdx] of the block [blockIdx] visits, in order. *)
Definition thread_pairs (n c gridDim blockDim blockIdx threadIdx : Z)
  : list (Z * Z) :=
  flat_map (fun i => map (pair i)
                         (GpuAdvancedIncSubtensor1_dev20.c_for
                            threadIdx c blockDim))
           (GpuAdvancedIncSubtensor1_dev20.c_for blockIdx n gridDim).

(** The pairs a launch visits, block after block and thread after
    thread. *)
Definition launch_pairs (n c threads_per_block n_blocks : Z)
  : list (Z * Z) :=
  flat_map
    (fun b =>
       flat_map (fun t => thread_pairs n c n_blocks threads_per_block b t)
                (GpuAdvancedIncSubtensor1_dev20.c_for 0 threads_per_block 1))
    (GpuAdvancedIncSubtensor1_dev20.c_for 0 n_blocks 1).

(** Every index position with every column, in row-major order. *)
Definition all_pairs (n c : Z) : list (Z * Z) :=
  flat_map (fun i => map (pair i)
                         (GpuAdvancedIncSubtensor1_dev20.c_for 0 c 1))
           (GpuAdvancedIncSubtensor1_dev20.c_for 0 n 1).

(** The kernel parameters [GpuArray_vector_add_fast] passes for matrices
    of the given extents and byte strides. *)
Definition fast_params (py_self py_other : GpuArray) (ind : IndexVector)
                       (r c s0 s1 ry cy t0 t1 : Z)
  : GpuAdvancedIncSubtensor1_dev20.kparams :=
  let isx := itemsize (dtype_of py_self) in
  let isy := itemsize (dtype_of py_other) in
  GpuAdvancedIncSubtensor1_dev20.mkKparams
    r c (Z.quot s0 isx) (Z.quot s1 isx)
    (data py_self) (offset py_self) isx
    ry cy
    (if ry =? 1 then 0 else Z.quot t0 isy)
    (if cy =? 1 then 0 else Z.quot t1 isy)
    (data py_other) (offset py_other) isy
    (ind_size ind)
    (Z.quot (ind_stride ind) (ind_itemsize ind))
    (ind_mem ind) (ind_offset ind) (ind_itemsize ind).

(** The value at position [i] of the index vector. *)
Definition index_value (ind : IndexVector) (i : Z) : Z :=
  ind_mem ind (ind_offset ind + i * ind_stride ind).

(** What the accelerated path asks of its operands beyond what [c_code]
    checks: matrices [x] of [r] rows and [y] of [ry] rows, both of [c]
    columns, with [ry] 1 or the number of indices; extents and index
    values that fit the [int] counters of the kernel; byte strides that
    are multiples of the item sizes, so that the element strides the
    kernel is given are exact; and index values that name rows of [x]. *)
Record fast_path_operands (x y : GpuArray) (ind : IndexVector)
                          (r c s0 s1 ry t0 t1 : Z) : Prop := {
  fp_shape_x : shape x = [r; c];
  fp_strides_x : strides x = [s0; s1];
  fp_shape_y : shape y = [ry; c];
  fp_strides_y : strides y = [t0; t1];
  fp_rows : 0 <= r <= INT_MAX;
  fp_cols : 0 <= c <= INT_MAX;
  fp_indices : 0 <= ind_size ind <= INT_MAX;
  fp_rows_y : ry = 1 \/ ry = ind_size ind;
  fp_stride_y0 : ry <> 1 -> (itemsize (dtype_of y) | t0);
  fp_stride_y1 : c <> 1 -> (itemsize (dtype_of y) | t1);
  fp_stride_ind : (ind_itemsize ind | ind_stride ind);
  fp_values : Forall (fun v => - r <= v < r) (asarray ind)
}.



(** The values [atomicAdd] returns. *)

Section ReturnVocabulary.
Import AtomicHalf.
Variable half_add : Z -> Z -> Z.
Variable val : Z.

(** The values the calls that have returned gave back. *)
Definition returned (l : list thread) : list Z :=
  flat_map (fun t => match t with Done r => [r] | _ => [] end) l.

(** The half-float after 0, 1, ..., [k - 1] additions of [val]. *)
Definition partial_sums (k : nat) (h0 : Z) : list Z :=
  map (fun i => sum_of half_add val i h0) (seq 0 k).

End ReturnVocabulary.

(** ** Concrete inputs of the examples *)

(** Kernel parameters for a matrix of [rows] rows and two columns and an
    index vector whose entries all hold [v]. *)
Definition one_index (v rows : Z) : GpuAdvancedIncSubtensor1_dev20.kparams :=
  GpuAdvancedIncSubtensor1_dev20.mkKparams
    rows 2 2 1 0 0 4  1 2 0 1 1 0 4  1 1 (fun _ => v) 0 8.

(** A rank-0 array on buffer [h]. *)
Definition scalar_array (h : nat) : GpuArray :=
  mkGpuArray h 0 [] [] float64.

(** The index vector [[0]]. *)
Definition one_zero_index : IndexVector :=
  mkIndexVector (fun _ => 0) 0 1 8 8.

(** The example of the specification: a 3x2 zero destination, indices
    [[0, 0]] and a source of ones. *)
Definition zeros_and_ones : @store Z_elem :=
  store_of [[[0; 0]; [0; 0]; [0; 0]]; [[1; 1]; [1; 1]]].

(** Its tasks: both rows of the source go to row 0. *)
Definition two_rows_to_row_0 : list (Z * GpuArray) :=
  map (joint_task (matrix 1 2 2)) (enumerate [0; 0]).

(** [2^53], from which on binary64 no longer holds every integer:
    [2^53 + 1] rounds back to [2^53]. *)
Section FloatConstants.
Import PrimFloat.
End FloatConstants.


(** An addition on bit patterns to run the loop with. *)
Definition int_add (v h : Z) : Z := v + h.

(** Two threads adding 1 to the upper half of the word [0x00050003]: the
    second reads before the first exchanges, fails its own exchange and
    retries. *)
Definition contended_run : AtomicHalf.sys :=
  AtomicHalf.run int_add 2 1 [0; 1; 0; 1; 1]%nat (AtomicHalf.init 2 0x00050003).

(** An index vector of 8-byte integers holding the values [l]. *)
Definition index_vector_of (l : list Z) : IndexVector :=
  mkIndexVector (fun a => nth (Z.to_nat (a / 8)) l 0) 0
                (Z.of_nat (length l)) 8 8.

(** Kernel parameters for five indices into a matrix of three columns. *)
Definition five_by_three : GpuAdvancedIncSubtensor1_dev20.kparams :=
  GpuAdvancedIncSubtensor1_dev20.mkKparams
    4 3 3 1 0 0 8  5 3 3 1 1 0 8  5 1 (fun _ => 0) 0 8.

(** * Theorems *)

(** ** Facts on the C integer conversions *)

Lemma to_ssize_id z : in_ssize z -> to_ssize z = z.
Proof.
  unfold in_ssize, to_ssize, SSIZE_MIN, SSIZE_MAX. intros H.
  rewrite Z.mod_small; lia.
Qed.

Lemma to_size_nonneg z : 0 <= z <= SSIZE_MAX -> to_size z = z.
Proof.
  unfold to_size, SSIZE_MAX. intros H. apply Z.mod_small. lia.
Qed.

Lemma to_size_neg z : SSIZE_MIN <= z < 0 -> to_size z = z + 2 ^ 64.
Proof.
  unfold to_size, SSIZE_MIN. intros H.
  symmetry. apply Z.mod_unique with (q := -1); lia.
Qed.

Lemma to_ssize_shift z : in_ssize z -> to_ssize (z + 2 ^ 64) = z.
Proof.
  unfold in_ssize, to_ssize, SSIZE_MIN, SSIZE_MAX. intros H.
  replace (z + 2 ^ 64 + 2 ^ 63) with (z + 2 ^ 63 + 1 * 2 ^ 64) by ring.
  rewrite Z.mod_add by lia. rewrite Z.mod_small; lia.
Qed.

Ltac bool_to_prop :=
  repeat match goal with
  | H : (_ <? _) = true |- _ => apply Z.ltb_lt in H
  | H : (_ <? _) = false |- _ => apply Z.ltb_ge in H
  | H : (_ >? _) = true |- _ => apply Z.gtb_lt in H
  | H : (_ >? _) = false |- _ => rewrite Z.gtb_ltb in H; apply Z.ltb_ge in H
  | H : (_ >=? _) = true |- _ => rewrite Z.geb_leb in H; apply Z.leb_le in H
  | H : (_ >=? _) = false |- _ => rewrite Z.geb_leb in H; apply Z.leb_gt in H
  | H : (_ <=? _) = true |- _ => apply Z.leb_le in H
  | H : (_ <=? _) = false |- _ => apply Z.leb_gt in H
  | H : (_ =? _) = true |- _ => apply Z.eqb_eq in H
  | H : (_ =? _) = false |- _ => apply Z.eqb_neq in H
  | H : (_ && _) = true |- _ => apply andb_true_iff in H; destruct H
  | H : (_ && _) = false |- _ => apply andb_false_iff in H; destruct H
  end.

Ltac split_ifs :=
  repeat match goal with
  | |- context [if ?b then _ else _] => destruct b eqn:?
  | H : context [if ?b then _ else _] |- _ => destruct b eqn:?
  end.

Lemma c_adjust_py v step len :
  in_ssize v -> 0 <= len <= SSIZE_MAX ->
  c_adjust v step len = PyRef.adjust v step len.
Proof.
  unfold in_ssize, SSIZE_MIN, SSIZE_MAX, c_adjust, PyRef.adjust,
    to_size, to_ssize.
  change (2 ^ 64) with 18446744073709551616.
  change (2 ^ 63) with 9223372036854775808.
  intros Hv Hl. cbv zeta.
  split_ifs; bool_to_prop; split_ifs; bool_to_prop;
    Z.div_mod_to_equations; lia.
Qed.

Lemma fix_indices_unfold start stop step start_n stop_n step_n len :
  fix_indices start stop step start_n stop_n step_n len =
  let step := if step_n then 1 else step in
  if step =? 0 then Raise ValueError
  else
    let start :=
      if start_n then to_ssize (if step <? 0 then to_size (len - 1) else 0)
      else c_adjust start step len in
    let stop :=
      if stop_n then to_ssize (if step <? 0 then to_size (-1) else len)
      else c_adjust stop step len in
    Ok (start, (if (stop <? start) && (step >? 0) then start else stop), step).
Proof. reflexivity. Qed.

Lemma omitted_start len c :
  0 <= len <= SSIZE_MAX ->
  to_ssize (if c <? 0 then to_size (len - 1) else 0) = py_start len c None.
Proof.
  unfold SSIZE_MAX, py_start, to_size, to_ssize.
  change (2 ^ 64) with 18446744073709551616.
  change (2 ^ 63) with 9223372036854775808.
  intros Hl. split_ifs; bool_to_prop; Z.div_mod_to_equations; lia.
Qed.

Lemma omitted_stop len c :
  0 <= len <= SSIZE_MAX ->
  to_ssize (if c <? 0 then to_size (-1) else len) = py_stop len c None.
Proof.
  unfold SSIZE_MAX, py_stop, to_size, to_ssize.
  change (2 ^ 64) with 18446744073709551616.
  change (2 ^ 63) with 9223372036854775808.
  intros Hl. split_ifs; bool_to_prop; Z.div_mod_to_equations; lia.
Qed.

(** The normalizer computes Python's start and step, and Python's stop
    except that an inverted forward range is closed at [start]. *)
Lemma normalize_slice_eq len start stop step :
  0 <= len <= SSIZE_MAX ->
  opt_in_ssize start -> opt_in_ssize stop -> opt_in_ssize step ->
  step <> Some 0 ->
  let c := py_step step in
  let a := py_start len c start in
  let b := py_stop len c stop in
  normalize_slice len start stop step
  = Ok (a, (if (b <? a) && (c >? 0) then a else b), c).
Proof.
  intros Hl Ha Hb Hc Hz c a b. subst a b c.
  unfold normalize_slice, fix_idx_value.
  assert (Hstep : (py_step step =? 0) = false).
  { apply Z.eqb_neq. destruct step as [s |]; simpl; [congruence | lia]. }
  destruct start as [a |], stop as [b |], step as [c |];
    rewrite fix_indices_unfold; cbv zeta; cbn [py_step] in *;
    try rewrite Hstep; try change (1 =? 0) with false; cbv iota;
    cbn [opt_in_ssize] in *;
    rewrite ?c_adjust_py, ?omitted_start, ?omitted_stop by assumption;
    reflexivity.
Qed.

Lemma py_start_bounds len c start :
  0 <= len -> c <> 0 ->
  (0 < c -> 0 <= py_start len c start <= len) /\
  (c < 0 -> -1 <= py_start len c start <= len - 1).
Proof.
  intros Hl Hc. unfold py_start, PyRef.adjust.
  destruct start; cbv zeta; split; intros; split_ifs; bool_to_prop; lia.
Qed.

Lemma py_stop_bounds len c stop :
  0 <= len -> c <> 0 ->
  (0 < c -> 0 <= py_stop len c stop <= len) /\
  (c < 0 -> -1 <= py_stop len c stop <= len - 1).
Proof.
  intros Hl Hc. unfold py_stop, PyRef.adjust.
  destruct stop; cbv zeta; split; intros; split_ifs; bool_to_prop; lia.
Qed.

Lemma in_range_iff a b c i :
  In i (PyRef.range a b c) <->
  exists k, 0 <= k < PyRef.range_len a b c /\ i = a + k * c.
Proof.
  unfold PyRef.range. rewrite in_map_iff. split.
  - intros (k & <- & Hk). apply in_seq in Hk. exists (Z.of_nat k). split; lia.
  - intros (k & Hk & ->). exists (Z.to_nat k). split.
    + rewrite Z2Nat.id by lia. reflexivity.
    + apply in_seq. lia.
Qed.

(** Every element of a forward range lies in [[a, b)], of a backward range
    in [(b, a]]. *)
Lemma range_elements a b c i :
  In i (PyRef.range a b c) ->
  (0 < c /\ a <= i < b) \/ (c < 0 /\ b < i <= a).
Proof.
  intros Hi. apply in_range_iff in Hi. destruct Hi as (k & Hk & ->).
  unfold PyRef.range_len in Hk.
  destruct (Z.ltb_spec 0 c) as [Hpos | Hnp].
  - left. destruct (Z.ltb_spec a b); [| lia].
    assert (c * ((b - a - 1) / c) <= b - a - 1)
      by (apply Z.mul_div_le; lia).
    split; [assumption | nia].
  - right. destruct (Z.ltb_spec c 0) as [Hneg | ]; [| lia].
    destruct (Z.ltb_spec b a); [| lia].
    assert (- c * ((a - b - 1) / - c) <= a - b - 1)
      by (apply Z.mul_div_le; lia).
    split; [assumption | nia].
Qed.

(** C1.  On an axis of length [len] (at most [SSIZE_MAX], the lengths
    Python's reference knows), for every slice whose present fields are
    [ssize_t] values and whose step is not zero, the normalizer returns a
    triple that selects exactly the elements Python's
    [range( *slice(start, stop, step).indices(len))] selects, all of them
    valid positions of the axis.  Its start and step are Python's (a
    negative value has [len] added once and is then clamped to [-1] or
    [len-1] for a negative step and to [0] or [len] otherwise), and its
    stop is Python's unless that would invert a forward range. *)
Theorem fix_indices_selects_like_python (len : Z) (start stop step : option Z) :
  0 <= len <= SSIZE_MAX ->
  opt_in_ssize start -> opt_in_ssize stop -> opt_in_ssize step ->
  step <> Some 0 ->
  exists a b c,
    normalize_slice len start stop step = Ok (a, b, c) /\
    PyRef.selected len start stop step = Ok (triple_selects (a, b, c)) /\
    Forall (fun i => 0 <= i < len) (triple_selects (a, b, c)) /\
    c = py_step step /\
    a = py_start len c start /\
    b = (if (py_stop len c stop <? a) && (c >? 0) then a
         else py_stop len c stop).
Proof.
  intros Hl Ha Hb Hc Hz.
  pose proof (normalize_slice_eq len start stop step Hl Ha Hb Hc Hz) as Hn.
  cbv zeta in Hn.
  set (c := py_step step) in *.
  set (a := py_start len c start) in *.
  set (b0 := py_stop len c stop) in *.
  assert (Hc0 : c <> 0).
  { subst c. destruct step as [s |]; simpl; [congruence | lia]. }
  assert (Hsel : PyRef.slice_indices start stop step len = Ok (a, b0, c)).
  { unfold PyRef.slice_indices. fold (py_step step). fold c.
    replace (c =? 0) with false by (symmetry; apply Z.eqb_neq; assumption).
    reflexivity. }
  assert (Hsame : PyRef.range a (if (b0 <? a) && (c >? 0) then a else b0) c
                  = PyRef.range a b0 c).
  { destruct ((b0 <? a) && (c >? 0)) eqn:E; [| reflexivity].
    bool_to_prop. unfold PyRef.range, PyRef.range_len.
    replace (0 <? c) with true by (symmetry; apply Z.ltb_lt; lia).
    replace (a <? a) with false by (symmetry; apply Z.ltb_ge; lia).
    replace (a <? b0) with false by (symmetry; apply Z.ltb_ge; lia).
    reflexivity. }
  exists a, (if (b0 <? a) && (c >? 0) then a else b0), c.
  split; [exact Hn |]. split; [| split; [| auto]].
  - unfold PyRef.selected. rewrite Hsel. unfold triple_selects.
    rewrite Hsame. reflexivity.
  - unfold triple_selects. rewrite Hsame. apply Forall_forall. intros i Hi.
    apply range_elements in Hi.
    destruct (py_start_bounds len c start ltac:(lia) Hc0) as [Hap Han].
    destruct (py_stop_bounds len c stop ltac:(lia) Hc0) as [Hbp Hbn].
    fold a in Hap, Han. fold b0 in Hbp, Hbn.
    destruct Hi as [[Hpos Hi] | [Hneg Hi]].
    + specialize (Hap Hpos). specialize (Hbp Hpos). lia.
    + specialize (Han Hneg). specialize (Hbn Hneg). lia.
Qed.

Lemma fix_indices_selects_like_python_witness :
  (0 <= 5 <= SSIZE_MAX /\ opt_in_ssize None /\ opt_in_ssize None /\
   opt_in_ssize (Some (-1)) /\ Some (-1) <> Some 0) /\
  exists a b c,
    normalize_slice 5 None None (Some (-1)) = Ok (a, b, c) /\
    PyRef.selected 5 None None (Some (-1)) = Ok (triple_selects (a, b, c)) /\
    Forall (fun i => 0 <= i < 5) (triple_selects (a, b, c)) /\
    c = py_step (Some (-1)) /\
    a = py_start 5 c None /\
    b = (if (py_stop 5 c None <? a) && (c >? 0) then a
         else py_stop 5 c None).
Proof.
  assert (H : 0 <= 5 <= SSIZE_MAX /\ opt_in_ssize None /\ opt_in_ssize None /\
              opt_in_ssize (Some (-1)) /\ Some (-1) <> Some 0).
  { unfold SSIZE_MAX, opt_in_ssize, in_ssize, SSIZE_MIN, SSIZE_MAX.
    repeat split; try lia. discriminate. }
  split; [exact H |].
  destruct H as (H1 & H2 & H3 & H4 & H5).
  exact (fix_indices_selects_like_python 5 None None (Some (-1))
           H1 H2 H3 H4 H5).
Defined.

(** The examples of the specification. *)
Example normalize_reverse :
  normalize_slice 5 None None (Some (-1)) = Ok (4, -1, -1) /\
  triple_selects (4, -1, -1) = [4; 3; 2; 1; 0].
Proof. split; reflexivity. Qed.

Example normalize_out_of_range :
  normalize_slice 5 (Some (-10)) (Some 100) (Some 1) = Ok (0, 5, 1) /\
  triple_selects (0, 5, 1) = [0; 1; 2; 3; 4].
Proof. split; reflexivity. Qed.

Example normalize_strided :
  normalize_slice 10 (Some 2) (Some 8) (Some 2) = Ok (2, 8, 2) /\
  triple_selects (2, 8, 2) = [2; 4; 6].
Proof. split; reflexivity. Qed.


(** ** Facts on the store *)

Section StoreFacts.
Context {E : ElemType}.

Lemma write_other h a v s h' a' :
  h' <> h -> bufs (write h a v s) h' a' = bufs s h' a'.
Proof.
  intros Hne. simpl. destruct (Nat.eqb_spec h' h); [contradiction |].
  reflexivity.
Qed.

Lemma write_same h a v s : bufs (write h a v s) h a = v.
Proof. simpl. rewrite Nat.eqb_refl, Z.eqb_refl. reflexivity. Qed.

Lemma write_other_addr h a v s a' :
  a' <> a -> bufs (write h a v s) h a' = bufs s h a'.
Proof.
  intros Hne. simpl. rewrite Nat.eqb_refl.
  destruct (Z.eqb_spec a' a); [contradiction | reflexivity].
Qed.

Lemma writes_next {T} h (addr : T -> Z) val l s :
  next (writes h addr val l s) = next s.
Proof.
  unfold writes. revert s. induction l as [| m l IH]; intros s; simpl.
  - reflexivity.
  - rewrite IH. reflexivity.
Qed.

Lemma writes_other {T} h (addr : T -> Z) val l s h' a :
  h' <> h -> bufs (writes h addr val l s) h' a = bufs s h' a.
Proof.
  intros Hne. unfold writes. revert s.
  induction l as [| m l IH]; intros s; simpl.
  - reflexivity.
  - rewrite IH. apply write_other. assumption.
Qed.

Lemma writes_untouched {T} h (addr : T -> Z) val l s a :
  ~ In a (map addr l) -> bufs (writes h addr val l s) h a = bufs s h a.
Proof.
  unfold writes. revert s. induction l as [| m l IH]; intros s Hn; simpl.
  - reflexivity.
  - simpl in Hn. rewrite IH by tauto. apply write_other_addr.
    intros ->. tauto.
Qed.

(** When the values do not depend on the store and the addresses of
    distinct items differ, each item's address holds its value. *)
Lemma writes_read {T} h (addr : T -> Z) (v : T -> elem) l s m :
  (forall m1 m2, In m1 l -> In m2 l -> addr m1 = addr m2 -> m1 = m2) ->
  In m l ->
  bufs (writes h addr (fun _ => v) l s) h (addr m) = v m.
Proof.
  unfold writes. revert s.
  induction l as [| m0 l IH]; intros s Hinj Hin; [destruct Hin |].
  simpl.
  destruct (in_dec Z.eq_dec (addr m) (map addr l)) as [Hi | Hni].
  - apply in_map_iff in Hi. destruct Hi as (m' & Heq & Hm').
    assert (m' = m) by (apply Hinj; simpl; auto). subst m'.
    apply IH; [| assumption].
    intros m1 m2 H1 H2. apply Hinj; simpl; auto.
  - fold (writes h addr (fun _ => v) l (write h (addr m0) (v m0) s)).
    rewrite writes_untouched by assumption.
    destruct Hin as [-> | Hin].
    + apply write_same.
    + exfalso. apply Hni. apply in_map. assumption.
Qed.

Lemma for_each_writes {T} h (addr : T -> Z) val (l : list T) s :
  for_each l (fun m st => (write h (addr m) (val st m) st, Ok tt)) s
  = (writes h addr val l s, Ok tt).
Proof.
  unfold writes. revert s. induction l as [| m l IH]; intros s; simpl.
  - reflexivity.
  - unfold bind. apply IH.
Qed.

End StoreFacts.

(** ** Facts on shapes and C-contiguous addressing *)

Lemma indices_of_cons d ds m :
  In m (indices_of (d :: ds)) <->
  exists i r, m = i :: r /\ 0 <= i < d /\ In r (indices_of ds).
Proof.
  simpl. rewrite in_flat_map. split.
  - intros (i & Hi & Hm). apply in_map_iff in Hi. destruct Hi as (k & <- & Hk).
    apply in_seq in Hk. apply in_map_iff in Hm. destruct Hm as (r & <- & Hr).
    exists (Z.of_nat k), r. repeat split; try assumption; lia.
  - intros (i & r & -> & Hi & Hr). exists i. split.
    + apply in_map_iff. exists (Z.to_nat i). split; [lia |].
      apply in_seq. lia.
    + apply in_map. assumption.
Qed.

Lemma dot_c_strides_bounds isz dims m :
  0 < isz -> In m (indices_of dims) ->
  0 <= dot m (c_strides isz dims) <= isz * (prod dims - 1).
Proof.
  intros Hisz. revert m. induction dims as [| d ds IH]; intros m Hm.
  - destruct Hm as [<- | []]. simpl. lia.
  - apply indices_of_cons in Hm. destruct Hm as (i & r & -> & Hi & Hr).
    specialize (IH r Hr). simpl. nia.
Qed.

Lemma dot_c_strides_inj isz dims m1 m2 :
  0 < isz -> In m1 (indices_of dims) -> In m2 (indices_of dims) ->
  dot m1 (c_strides isz dims) = dot m2 (c_strides isz dims) -> m1 = m2.
Proof.
  intros Hisz. revert m1 m2. induction dims as [| d ds IH]; intros m1 m2 H1 H2.
  - destruct H1 as [<- | []]. destruct H2 as [<- | []]. reflexivity.
  - apply indices_of_cons in H1. destruct H1 as (i1 & r1 & -> & Hi1 & Hr1).
    apply indices_of_cons in H2. destruct H2 as (i2 & r2 & -> & Hi2 & Hr2).
    simpl. intros Heq.
    pose proof (dot_c_strides_bounds isz ds r1 Hisz Hr1) as B1.
    pose proof (dot_c_strides_bounds isz ds r2 Hisz Hr2) as B2.
    assert (i1 = i2) by nia. subst i2.
    f_equal. apply IH; try assumption. lia.
Qed.

Lemma itemsize_pos d : 0 < itemsize d.
Proof. destruct d; simpl; lia. Qed.

(** ** The copy *)

Section CopyFacts.
Context {E : ElemType}.

Lemma copy_eq a s :
  Pygpu.copy a s
  = (writes (next s) (address (copy_of s a)) (fun _ => read s a)
            (indices_of (shape a)) (mkStore (bufs s) (S (next s))),
     Ok (copy_of s a)).
Proof. reflexivity. Qed.

Lemma copy_of_inj s a m1 m2 :
  In m1 (indices_of (shape a)) -> In m2 (indices_of (shape a)) ->
  address (copy_of s a) m1 = address (copy_of s a) m2 -> m1 = m2.
Proof.
  unfold address. simpl. intros H1 H2 Heq.
  apply (dot_c_strides_inj (itemsize (dtype_of a)) (shape a));
    auto using itemsize_pos; lia.
Qed.

(** [a.copy()] returns a fresh buffer with the shape and the elements of
    [a], and leaves every buffer that existed before untouched. *)
Lemma copy_spec a s :
  exists s', Pygpu.copy a s = (s', Ok (copy_of s a)) /\
    next s' = S (next s) /\
    contents s' (copy_of s a) = contents s a /\
    (forall h t, h <> next s -> bufs s' h t = bufs s h t).
Proof.
  rewrite copy_eq. eexists. split; [reflexivity |].
  split; [apply writes_next |]. split.
  - unfold contents. simpl shape. apply map_ext_in. intros m Hm.
    unfold read at 1. simpl data.
    apply (writes_read (next s) (address (copy_of s a)) (read s a)).
    + intros m1 m2. apply copy_of_inj.
    + assumption.
  - intros h t Hne. rewrite writes_other by assumption. reflexivity.
Qed.

End CopyFacts.

(** C10.  A scatter update with an empty index vector writes no element of
    any existing buffer and returns the destination as given: the very
    array [x] on an unchanged store when [inplace] is set, and otherwise
    the fresh copy of [x], with the shape and the elements of [x]. *)
Theorem scatter_empty_index_vector
  {E : ElemType} (self : IncOp) (x y : GpuArray) (s : store) :
  GpuAdvancedIncSubtensor1.perform self x y [] s
  = (if inplace self then (s, Ok x) else Pygpu.copy x s) /\
  exists s', Pygpu.copy x s = (s', Ok (copy_of s x)) /\
    data (copy_of s x) = next s /\
    shape (copy_of s x) = shape x /\
    contents s' (copy_of s x) = contents s x /\
    (forall h t, h <> next s -> bufs s' h t = bufs s h t).
Proof.
  split.
  - unfold GpuAdvancedIncSubtensor1.perform.
    destruct (inplace self); reflexivity.
  - destruct (copy_spec x s) as (s' & Hc & _ & Hcont & Hframe).
    exists s'. repeat split; assumption.
Qed.

(** ** The generated indexing code *)

Lemma fix_idx_shape f indices e n indices' :
  GpuSubtensor.fix_idx f indices = Some (e, n, indices') ->
  (f = FNone /\ n = true) \/
  (exists v, f = FInt v /\ e = GpuSubtensor.CLit v /\ n = false) \/
  (f = FType /\ n = false).
Proof.
  destruct f as [| v |]; simpl.
  - intros H. injection H as <- <- <-. auto.
  - intros H. injection H as <- <- <-. right. left. eauto.
  - destruct indices; [discriminate |].
    intros H. injection H as <- <- <-. auto.
Qed.

Lemma axes_code_length idx_list : forall indices axes,
  GpuSubtensor.axes_code idx_list indices = Some axes ->
  length axes = length idx_list.
Proof.
  induction idx_list as [| en rest IH]; intros indices axes H; simpl in H.
  - injection H as <-. reflexivity.
  - destruct en as [v | | a b c].
    + destruct (GpuSubtensor.axes_code rest indices) as [axes' |] eqn:Er;
        [| discriminate].
      injection H as <-. simpl. f_equal. eapply IH; eassumption.
    + destruct indices as [| name indices]; [discriminate |].
      destruct (GpuSubtensor.axes_code rest indices) as [axes' |] eqn:Er;
        [| discriminate].
      injection H as <-. simpl. f_equal. eapply IH; eassumption.
    + destruct (GpuSubtensor.fix_idx a indices) as [[[a' an] i1] |];
        [| discriminate].
      destruct (GpuSubtensor.fix_idx b i1) as [[[b' bn] i2] |];
        [| discriminate].
      destruct (GpuSubtensor.fix_idx c i2) as [[[c' cn] i3] |];
        [| discriminate].
      destruct (GpuSubtensor.axes_code rest i3) as [axes' |] eqn:Er;
        [| discriminate].
      injection H as <-. simpl. f_equal. eapply IH; eassumption.
Qed.

(** A slice with the constant step 0 becomes a slice axis whose step cell
    is the literal 0, marked present. *)
Lemma axes_code_zero_step idx_list start stop : forall indices axes,
  GpuSubtensor.axes_code idx_list indices = Some axes ->
  In (ESlice start stop (FInt 0)) idx_list ->
  exists a b an bn,
    In (GpuSubtensor.AxisSlice a b (GpuSubtensor.CLit 0) an bn false) axes.
Proof.
  induction idx_list as [| en rest IH]; intros indices axes H Hin;
    [destruct Hin |].
  simpl in H. destruct en as [v | | a b c].
  - destruct (GpuSubtensor.axes_code rest indices) as [axes' |] eqn:Er;
      [| discriminate].
    injection H as <-. destruct Hin as [Hd | Hin]; [discriminate |].
    destruct (IH _ _ Er Hin) as (a' & b' & an & bn & Hi).
    exists a', b', an, bn. right. assumption.
  - destruct indices as [| name indices]; [discriminate |].
    destruct (GpuSubtensor.axes_code rest indices) as [axes' |] eqn:Er;
      [| discriminate].
    injection H as <-. destruct Hin as [Hd | Hin]; [discriminate |].
    destruct (IH _ _ Er Hin) as (a' & b' & an & bn & Hi).
    exists a', b', an, bn. right. assumption.
  - destruct (GpuSubtensor.fix_idx a indices) as [[[a' an] i1] |];
      [| discriminate].
    destruct (GpuSubtensor.fix_idx b i1) as [[[b' bn] i2] |];
      [| discriminate].
    destruct (GpuSubtensor.fix_idx c i2) as [[[c' cn] i3] |] eqn:Ec;
      [| discriminate].
    destruct (GpuSubtensor.axes_code rest i3) as [axes' |] eqn:Er;
      [| discriminate].
    injection H as <-. destruct Hin as [Hd | Hin].
    + injection Hd as -> -> ->. simpl in Ec. injection Ec as <- <- <-.
      exists a', b', an, bn. left. reflexivity.
    + destruct (IH _ _ Er Hin) as (a2 & b2 & an2 & bn2 & Hi).
      exists a2, b2, an2, bn2. right. assumption.
Qed.

Lemma fix_indices_raises start stop step start_n stop_n step_n len e :
  fix_indices start stop step start_n stop_n step_n len = Raise e ->
  e = ValueError.
Proof.
  rewrite fix_indices_unfold. cbv zeta.
  destruct ((if step_n then 1 else step) =? 0); congruence.
Qed.

Lemma exec_axis_raises env d ax e :
  GpuSubtensor.exec_axis env d ax = Raise e -> e = ValueError.
Proof.
  destruct ax; simpl.
  - apply fix_indices_raises.
  - discriminate.
Qed.

(** Running the axes of a code that has a present zero step fails with
    [ValueError] as soon as the array has an axis for each of them. *)
Lemma exec_axes_zero_step env a b c an bn : forall axes dims,
  In (GpuSubtensor.AxisSlice a b c an bn false) axes ->
  to_ssize (GpuSubtensor.eval env c) = 0 ->
  length dims = length axes ->
  GpuSubtensor.exec_axes env dims axes = Raise ValueError.
Proof.
  induction axes as [| ax axes IH]; intros dims Hin Hz Hlen; [destruct Hin |].
  destruct dims as [| d ds]; [discriminate |]. simpl.
  destruct (GpuSubtensor.exec_axis env d ax) as [t | e] eqn:Eax.
  - destruct Hin as [-> | Hin].
    + simpl in Eax. rewrite Hz, fix_indices_unfold in Eax. discriminate.
    + rewrite IH; auto.
  - apply exec_axis_raises in Eax. subst e. reflexivity.
Qed.

(** C6.  A slice whose step is present and zero makes [fix_indices] fail
    with [ValueError] ("slice step cannot be zero"), whatever the other
    fields; an omitted step is taken to be 1 and the normalization then
    succeeds.  In the operation, an index list with such a slice never
    yields a view: running the generated code raises, with the store
    unchanged, and what it raises is that [ValueError] unless the rank
    check of the generated code fails first. *)
Theorem zero_step_is_rejected {E : ElemType} :
  (forall start stop start_n stop_n len,
     fix_indices start stop 0 start_n stop_n false len = Raise ValueError) /\
  (forall start stop step start_n stop_n len,
     exists a b,
       fix_indices start stop step start_n stop_n true len = Ok (a, b, 1)) /\
  (forall len start stop,
     normalize_slice len start stop (Some 0) = Raise ValueError /\
     exists a b, normalize_slice len start stop None = Ok (a, b, 1)) /\
  (forall idx_list indices inp env start stop code s,
     In (ESlice start stop (FInt 0)) idx_list ->
     GpuSubtensor.c_code idx_list (ndim inp) indices = Some code ->
     exists e, GpuSubtensor.exec code inp env s = (s, Raise e) /\
               ((length idx_list <= ndim inp)%nat -> e = ValueError)).
Proof.
  assert (H1 : forall start stop start_n stop_n len,
             fix_indices start stop 0 start_n stop_n false len
             = Raise ValueError) by reflexivity.
  assert (H2 : forall start stop step start_n stop_n len,
             exists a b,
               fix_indices start stop step start_n stop_n true len
               = Ok (a, b, 1)).
  { intros. rewrite fix_indices_unfold. cbv zeta.
    change (1 =? 0) with false. cbv iota. eauto. }
  split; [exact H1 |]. split; [exact H2 |]. split.
  - intros len start stop. split.
    + unfold normalize_slice, fix_idx_value.
      destruct start, stop; apply H1.
    + unfold normalize_slice, fix_idx_value.
      destruct start, stop; apply H2.
  - intros idx_list indices inp env start stop code s Hin Hc.
    unfold GpuSubtensor.c_code in Hc.
    set (padded := idx_list ++ repeat (ESlice FNone FNone FNone)
                                      (ndim inp - length idx_list)) in *.
    assert (Hpin : In (ESlice start stop (FInt 0)) padded)
      by (apply in_or_app; auto).
    destruct (Nat.eqb_spec (length padded) 0) as [H0 | Hn0].
    { destruct padded; [destruct Hpin | discriminate]. }
    destruct (GpuSubtensor.axes_code padded indices) as [axes |] eqn:Eax;
      [| discriminate].
    injection Hc as <-. simpl. unfold bind, lift, raise.
    destruct (Nat.eqb_spec (ndim inp) (length padded)) as [Hr | Hr]; simpl.
    + destruct (axes_code_zero_step _ _ _ _ _ Eax Hpin)
        as (a & b & an & bn & Hi).
      rewrite (exec_axes_zero_step env a b (GpuSubtensor.CLit 0) an bn axes)
        by (auto; rewrite (axes_code_length _ _ _ Eax); exact Hr).
      exists ValueError. auto.
    + exists IndexError. split; [reflexivity |].
      intros Hle. exfalso. apply Hr. subst padded.
      rewrite length_app, repeat_length. lia.
Qed.

Lemma zero_step_is_rejected_witness :
  In (ESlice FNone FNone (FInt 0)) [ESlice FNone FNone (FInt 0)] /\
  GpuSubtensor.c_code [ESlice FNone FNone (FInt 0)] (ndim (matrix 0 2 3)) []
  = Some (GpuSubtensor.IndexCode 2
            [GpuSubtensor.AxisSlice (GpuSubtensor.CLit 0) (GpuSubtensor.CLit 0)
               (GpuSubtensor.CLit 0) true true false;
             GpuSubtensor.AxisSlice (GpuSubtensor.CLit 0) (GpuSubtensor.CLit 0)
               (GpuSubtensor.CLit 0) true true true]) /\
  exists e,
    GpuSubtensor.exec
      (GpuSubtensor.IndexCode 2
         [GpuSubtensor.AxisSlice (GpuSubtensor.CLit 0) (GpuSubtensor.CLit 0)
            (GpuSubtensor.CLit 0) true true false;
          GpuSubtensor.AxisSlice (GpuSubtensor.CLit 0) (GpuSubtensor.CLit 0)
            (GpuSubtensor.CLit 0) true true true])
      (matrix 0 2 3) (fun _ => 0) (store_of [[[1; 2; 3]; [4; 5; 6]]])
    = (store_of [[[1; 2; 3]; [4; 5; 6]]], Raise e) /\
    ((length [ESlice FNone FNone (FInt 0)] <= ndim (matrix 0 2 3))%nat ->
     e = ValueError).
Proof.
  split; [left; reflexivity |]. split; [reflexivity |].
  exact (proj2 (proj2 (proj2 (zero_step_is_rejected (E := Z_elem))))
           [ESlice FNone FNone (FInt 0)] [] (matrix 0 2 3) (fun _ => 0)
           FNone FNone _ (store_of [[[1; 2; 3]; [4; 5; 6]]])
           (or_introl eq_refl) eq_refl).
Defined.

Example zero_step_run :
  GpuSubtensor.run [ESlice FNone FNone (FInt 0)] [] (matrix 0 2 3)
                   (fun _ => 0)
  = Some (fun s => (s, Raise ValueError)).
Proof. reflexivity. Qed.

(** ** The row the kernel adds to *)

Lemma to_int_id z : INT_MIN <= z <= INT_MAX -> to_int z = z.
Proof.
  unfold to_int, INT_MIN, INT_MAX. intros H. rewrite Z.mod_small; lia.
Qed.

(** On [int] values the kernel adds [numRowsX] once to a negative index
    and leaves the others alone. *)
Lemma x_row_eq index numRowsX :
  0 <= numRowsX <= INT_MAX -> INT_MIN <= index <= INT_MAX ->
  GpuAdvancedIncSubtensor1_dev20.x_row index numRowsX
  = if index <? 0 then index + numRowsX else index.
Proof.
  unfold GpuAdvancedIncSubtensor1_dev20.x_row, INT_MIN, INT_MAX,
    to_int, to_size.
  change (2 ^ 64) with 18446744073709551616.
  change (2 ^ 32) with 4294967296.
  change (2 ^ 31) with 2147483648.
  intros Hn Hi. cbv zeta.
  split_ifs; bool_to_prop; Z.div_mod_to_equations; lia.
Qed.

(** X23.  The row the kernel resolves for an index within the axis.  For
    a row count that fits an [int] and an index value in
    [[-numRowsX, numRowsX)], the row is the value modulo the row count, a
    row of the destination: a negative value has the row count added
    once.  The atomic add of the pair [(i, j)] goes to that row. *)
Theorem x_row_in_range_indices (p : GpuAdvancedIncSubtensor1_dev20.kparams)
                               (i j : Z) :
  let n := GpuAdvancedIncSubtensor1_dev20.numRowsX p in
  let v := GpuAdvancedIncSubtensor1_dev20.index_at p i in
  0 < n <= INT_MAX -> - n <= v < n ->
  exists r,
    GpuAdvancedIncSubtensor1_dev20.x_row v n = r /\
    r = v mod n /\ 0 <= r < n /\
    r = (if v <? 0 then v + n else v) /\
    GpuAdvancedIncSubtensor1_dev20.target p i j
    = GpuAdvancedIncSubtensor1_dev20.offset_X p
      + GpuAdvancedIncSubtensor1_dev20.itemsize_x p
        * (r * GpuAdvancedIncSubtensor1_dev20.stridesX0 p
           + j * GpuAdvancedIncSubtensor1_dev20.stridesX1 p).
Proof.
  intros n v Hn Hv.
  assert (Hx : GpuAdvancedIncSubtensor1_dev20.x_row v n
               = if v <? 0 then v + n else v).
  { apply x_row_eq; unfold INT_MIN, INT_MAX in *; lia. }
  exists (GpuAdvancedIncSubtensor1_dev20.x_row v n).
  split; [reflexivity |]. rewrite Hx.
  assert (Hr : 0 <= (if v <? 0 then v + n else v) < n)
    by (destruct (Z.ltb_spec v 0); lia).
  split; [| split; [exact Hr | split; [reflexivity |]]].
  - destruct (Z.ltb_spec v 0).
    + apply Z.mod_unique with (q := -1); lia.
    + symmetry. apply Z.mod_small. lia.
  - unfold GpuAdvancedIncSubtensor1_dev20.target. fold v n. rewrite Hx.
    reflexivity.
Qed.

Lemma x_row_in_range_indices_witness :
  (0 < 3 <= INT_MAX /\ - 3 <= -1 < 3) /\
  exists r,
    GpuAdvancedIncSubtensor1_dev20.x_row (-1) 3 = r /\
    r = (-1) mod 3 /\ 0 <= r < 3 /\
    r = (if -1 <? 0 then -1 + 3 else -1) /\
    GpuAdvancedIncSubtensor1_dev20.target (one_index (-1) 3) 0 1
    = 0 + 4 * (r * 2 + 1 * 1).
Proof.
  assert (H : 0 < 3 <= INT_MAX /\ - 3 <= -1 < 3)
    by (unfold INT_MAX; lia).
  split; [exact H |].
  exact (x_row_in_range_indices (one_index (-1) 3) 0 1
           (proj1 H) (proj2 H)).
Defined.

(** Below the axis the single addition is not enough: with three rows
    the index value [-4] resolves to row [-1], which is neither
    [-4 mod 3] nor a row. *)
Lemma x_row_adds_once_only :
  GpuAdvancedIncSubtensor1_dev20.x_row (-4) 3 = -1 /\
  ~ (0 <= GpuAdvancedIncSubtensor1_dev20.x_row (-4) 3 < 3) /\
  GpuAdvancedIncSubtensor1_dev20.x_row (-4) 3 <> (-4) mod 3 /\
  GpuAdvancedIncSubtensor1_dev20.target (one_index (-4) 3) 0 0 = -8.
Proof.
  repeat split; try reflexivity.
  - vm_compute. intros [H _]. apply H. reflexivity.
  - vm_compute. discriminate.
Qed.

(** C8, at the failing input.  The index vector [[-4]] on a destination
    of three rows is accepted by [c_code], and the kernel resolves the
    index to row [-1], which is not a row of the destination: the fast
    path succeeds, leaves the six elements of the matrix as they were and
    adds the row of [y] at the byte addresses -16 and -8, before the
    first element of [x].  The sequential [perform] raises [IndexError]
    on the same operands and writes nothing. *)
Theorem kernel_adds_outside_the_matrix :
  let s := store_of [[[0; 0]; [0; 0]; [0; 0]]; [[5; 7]]] in
  let x := matrix 0 3 2 in
  let y := matrix 1 1 2 in
  let ind := index_vector_of [-4] in
  let fast := GpuAdvancedIncSubtensor1_dev20.exec
                (GpuAdvancedIncSubtensor1_dev20.VectorAddFast true)
                x y ind s in
  let slow := GpuAdvancedIncSubtensor1.perform (mkIncOp true false) x y
                (asarray ind) s in
  asarray ind = [-4] /\
  GpuAdvancedIncSubtensor1_dev20.c_code (mkIncOp true false)
    (ndim x) (ndim y) 3
  = Ok (GpuAdvancedIncSubtensor1_dev20.VectorAddFast true) /\
  GpuAdvancedIncSubtensor1_dev20.x_row (-4) 3 = -1 /\
  ~ (0 <= GpuAdvancedIncSubtensor1_dev20.x_row (-4) 3 < 3) /\
  snd fast = Ok x /\
  tolist2 (fst fast) x = [[0; 0]; [0; 0]; [0; 0]] /\
  address x [-1; 0] = -16 /\ bufs (fst fast) 0%nat (-16) = 5 /\
  address x [-1; 1] = -8 /\ bufs (fst fast) 0%nat (-8) = 7 /\
  slow = (s, Raise IndexError).
Proof.
  cbv zeta. repeat split; try reflexivity.
  vm_compute. intros [H _]. apply H. reflexivity.
Qed.

(** ** Views and copies of [GpuSubtensor] *)

Lemma pygpu_index_shares a ts out :
  Pygpu.pygpu_index a ts = Ok out -> data out = data a.
Proof.
  unfold Pygpu.pygpu_index.
  destruct (Pygpu.index_axes (shape a) (strides a) ts) as [[off kept] | e];
    [| discriminate].
  intros H. injection H as <-. reflexivity.
Qed.

(** [c_code] emits the copy exactly when the padded index list is empty:
    an empty [idx_list] on an input of rank 0. *)
Lemma c_code_copy_iff idx_list inp_ndim indices :
  GpuSubtensor.c_code idx_list inp_ndim indices = Some GpuSubtensor.CopyCode
  <-> idx_list = [] /\ inp_ndim = 0%nat.
Proof.
  unfold GpuSubtensor.c_code.
  set (padded := idx_list ++ repeat (ESlice FNone FNone FNone)
                                    (inp_ndim - length idx_list)).
  assert (Hlen : length padded = Nat.max (length idx_list) inp_ndim).
  { subst padded. rewrite length_app, repeat_length. lia. }
  destruct (Nat.eqb_spec (length padded) 0) as [H0 | Hn0].
  - split; [intros _ | reflexivity].
    rewrite Hlen in H0.
    destruct idx_list; simpl length in H0; [split; [reflexivity | lia] | lia].
  - split.
    + destruct (GpuSubtensor.axes_code padded indices); discriminate.
    + intros [-> ->]. rewrite Hlen in Hn0. simpl in Hn0. lia.
Qed.

(** C5, as the code has it.  The generated code copies exactly when the
    index list is still empty after it has been padded with full slices
    to the rank of the input, that is, for an empty list on a rank-0
    array: the result is then a fresh buffer with the shape and elements
    of the source, and no older buffer is written.  In every other case,
    an empty list on an array of rank 1 or more included, the code builds
    no copy: the store is unchanged and a result, when there is one, is a
    view on the buffer of the source. *)
Theorem copy_only_for_empty_padded_index_list
  {E : ElemType} (idx_list : list entry) (indices : list nat)
  (inp : GpuArray) (env : nat -> Z) (s : store) (code : GpuSubtensor.ccode) :
  GpuSubtensor.c_code idx_list (ndim inp) indices = Some code ->
  (idx_list = [] /\ ndim inp = 0%nat ->
   code = GpuSubtensor.CopyCode /\
   exists s',
     GpuSubtensor.exec code inp env s = (s', Ok (copy_of s inp)) /\
     data (copy_of s inp) = next s /\
     shape (copy_of s inp) = shape inp /\
     contents s' (copy_of s inp) = contents s inp /\
     (forall h t, h <> next s -> bufs s' h t = bufs s h t)) /\
  (~ (idx_list = [] /\ ndim inp = 0%nat) ->
   code <> GpuSubtensor.CopyCode /\
   exists r,
     GpuSubtensor.exec code inp env s = (s, r) /\
     forall out, r = Ok out -> data out = data inp).
Proof.
  intros Hc. split.
  - intros Hempty.
    apply (proj2 (c_code_copy_iff idx_list (ndim inp) indices)) in Hempty.
    rewrite Hempty in Hc. injection Hc as <-. split; [reflexivity |].
    destruct (copy_spec inp s) as (s' & Hcopy & _ & Hcont & Hframe).
    exists s'. simpl. repeat split; assumption.
  - intros Hne.
    assert (Hcode : code <> GpuSubtensor.CopyCode).
    { intros ->. apply Hne.
      exact (proj1 (c_code_copy_iff idx_list (ndim inp) indices) Hc). }
    split; [exact Hcode |].
    destruct code as [| sz axes]; [contradiction |].
    simpl. unfold bind, lift, raise.
    destruct (negb (ndim inp =? sz)%nat).
    + eexists. split; [reflexivity | discriminate].
    + destruct (GpuSubtensor.exec_axes env (shape inp) axes) as [ts | e].
      * eexists. split; [reflexivity |].
        intros out. apply pygpu_index_shares.
      * eexists. split; [reflexivity | discriminate].
Qed.

Lemma copy_only_for_empty_padded_index_list_witness :
  GpuSubtensor.c_code [] (ndim (scalar_array 0)) []
  = Some GpuSubtensor.CopyCode /\
  ((@nil entry = [] /\ ndim (scalar_array 0) = 0%nat ->
    GpuSubtensor.CopyCode = GpuSubtensor.CopyCode /\
    exists s',
      GpuSubtensor.exec GpuSubtensor.CopyCode (scalar_array 0) (fun _ => 0)
                        (store_of [[[7]]])
      = (s', Ok (copy_of (store_of [[[7]]]) (scalar_array 0))) /\
      data (copy_of (store_of [[[7]]]) (scalar_array 0))
      = next (store_of [[[7]]]) /\
      shape (copy_of (store_of [[[7]]]) (scalar_array 0))
      = shape (scalar_array 0) /\
      contents s' (copy_of (store_of [[[7]]]) (scalar_array 0))
      = contents (store_of [[[7]]]) (scalar_array 0) /\
      (forall h t, h <> next (store_of [[[7]]]) ->
                   bufs s' h t = bufs (store_of [[[7]]]) h t)) /\
   (~ (@nil entry = [] /\ ndim (scalar_array 0) = 0%nat) ->
    GpuSubtensor.CopyCode <> GpuSubtensor.CopyCode /\
    exists r,
      GpuSubtensor.exec GpuSubtensor.CopyCode (scalar_array 0) (fun _ => 0)
                        (store_of [[[7]]])
      = (store_of [[[7]]], r) /\
      forall out, r = Ok out -> data out = data (scalar_array 0))).
Proof.
  split; [reflexivity |].
  exact (copy_only_for_empty_padded_index_list
           [] [] (scalar_array 0) (fun _ => 0) (store_of [[[7]]])
           GpuSubtensor.CopyCode eq_refl).
Defined.

(** The claim as stated fails: an empty index list on a 2x3 matrix is
    padded to two full slices, and the generated code returns a view on
    the buffer of its input; no buffer is allocated. *)
Lemma empty_index_list_on_matrix_is_a_view :
  GpuSubtensor.c_code [] (ndim (matrix 0 2 3)) [] <> Some GpuSubtensor.CopyCode
  /\
  exists code out,
    GpuSubtensor.c_code [] (ndim (matrix 0 2 3)) [] = Some code /\
    GpuSubtensor.exec code (matrix 0 2 3) (fun _ => 0)
                      (store_of [[[1; 2; 3]; [4; 5; 6]]])
    = (store_of [[[1; 2; 3]; [4; 5; 6]]], Ok out) /\
    data out = data (matrix 0 2 3) /\
    tolist2 (store_of [[[1; 2; 3]; [4; 5; 6]]]) out
    = [[1; 2; 3]; [4; 5; 6]].
Proof.
  split; [discriminate |].
  eexists. eexists. split; [reflexivity |].
  split; [reflexivity |]. split; reflexivity.
Qed.

(** ** Which buffers an operation may write *)

Section Frame.
Context {E : ElemType}.

Lemma frame_weaken (keep keep' : nat -> Prop) {A} (c : M A) :
  (forall h, keep' h -> keep h) -> frame keep c -> frame keep' c.
Proof.
  intros Hsub Hc s. destruct (Hc s) as [Hn Hb]. split; auto.
Qed.

Lemma frame_ret keep {A} (a : A) : frame keep (ret a).
Proof. intros s. simpl. auto. Qed.

Lemma frame_raise keep {A} e : frame keep (@raise _ A e).
Proof. intros s. simpl. auto. Qed.

Lemma frame_lift keep {A} (r : result A) : frame keep (lift r).
Proof. intros s. simpl. auto. Qed.

Lemma frame_bind keep {A B} (c : M A) (k : A -> M B) :
  frame keep c ->
  (forall s a, snd (c s) = Ok a -> frame keep (k a)) ->
  frame keep (bind c k).
Proof.
  intros Hc Hk s. unfold bind.
  specialize (Hc s). specialize (Hk s).
  destruct (c s) as [s1 [a | e]]; simpl in *.
  - destruct Hc as [Hn Hb]. destruct (Hk a eq_refl s1) as [Hn' Hb'].
    split; [lia |]. intros h t Hkeep Hlt.
    rewrite Hb' by (auto; lia). auto.
  - exact Hc.
Qed.

Lemma frame_for_each keep {A} (l : list A) (body : A -> M unit) :
  (forall a, frame keep (body a)) -> frame keep (for_each l body).
Proof.
  intros Hb. induction l as [| a l IH]; simpl.
  - apply frame_ret.
  - apply frame_bind; auto.
Qed.

Lemma frame_write keep h (addr : store -> Z) (v : store -> elem) :
  (forall h', keep h' -> h' <> h) ->
  frame keep (fun s => (write h (addr s) (v s) s, Ok tt)).
Proof.
  intros Hk s. simpl. split; [lia |].
  intros h' t Hkeep _. destruct (Nat.eqb_spec h' h) as [-> | Hne].
  - exfalso. exact (Hk h Hkeep eq_refl).
  - reflexivity.
Qed.

Lemma getitem_shares a key v :
  Pygpu.getitem a key = Ok v -> data v = data a.
Proof.
  unfold Pygpu.getitem.
  destruct (Pygpu.key_triples (shape a) key); [| discriminate].
  apply pygpu_index_shares.
Qed.

Lemma frame_setarray dst src :
  frame (fun h => h <> data dst) (Pygpu.setarray dst src).
Proof.
  unfold Pygpu.setarray. apply frame_bind; [apply frame_lift |].
  intros _ src' _. apply frame_for_each. intros m.
  apply (frame_write _ (data dst) (fun _ => address dst m)
                     (fun s => read s src' m)).
  auto.
Qed.

Lemma frame_setitem a key v :
  frame (fun h => h <> data a) (Pygpu.setitem a key v).
Proof.
  unfold Pygpu.setitem. apply frame_bind; [apply frame_lift |].
  intros s view Hv. simpl in Hv. apply getitem_shares in Hv.
  rewrite <- Hv. apply frame_setarray.
Qed.

Lemma frame_iadd a b bc :
  frame (fun h => h <> data a) (Pygpu.iadd a b bc).
Proof.
  unfold Pygpu.iadd. apply frame_bind; [apply frame_lift |].
  intros _ b' _. apply frame_for_each. intros m.
  apply (frame_write _ (data a) (fun _ => address a m)
                     (fun s => add (read s a m) (read s b' m))).
  auto.
Qed.

(** Allocating operations write the new buffer only. *)
Lemma frame_copy a : frame (fun _ => True) (Pygpu.copy a).
Proof.
  intros s. rewrite copy_eq. simpl fst. rewrite writes_next. simpl.
  split; [lia |]. intros h t _ Hlt.
  rewrite writes_other by lia. reflexivity.
Qed.

Lemma frame_elemwise2_add a b ary bc :
  frame (fun _ => True) (Pygpu.elemwise2_add a b ary bc).
Proof.
  unfold Pygpu.elemwise2_add. apply frame_bind; [apply frame_lift |].
  intros _ b' _ s. simpl fst.
  change (fold_left _ _ _)
    with (writes (next s)
            (address (mkGpuArray (next s) 0 (shape ary)
                        (c_strides (itemsize (dtype_of ary)) (shape ary))
                        (dtype_of ary)))
            (fun _ m => add (read s a m) (read s b' m))
            (indices_of (shape ary)) (mkStore (bufs s) (S (next s)))).
  rewrite writes_next. simpl. split; [lia |]. intros h t _ Hlt.
  rewrite writes_other by lia. reflexivity.
Qed.

Lemma elemwise2_add_fresh a b ary bc s out :
  snd (Pygpu.elemwise2_add a b ary bc s) = Ok out -> data out = next s.
Proof.
  unfold Pygpu.elemwise2_add, bind, lift.
  destruct (if bc then _ else _); simpl; [| discriminate].
  intros H. injection H as <-. reflexivity.
Qed.

End Frame.

(** ** The [inplace] flag *)

Section Inplace.
Context {E : ElemType}.
Local Open Scope m_scope.

Lemma inc_perform_eq self idx_list x y inputs :
  GpuIncSubtensor.perform self idx_list x y inputs
  = (cdata <- lift (GpuIncSubtensor.convert_all idx_list (rev inputs)) ;;
     x <- (if negb (inplace self) then Pygpu.copy x else ret x) ;;
     combine_into self cdata y x).
Proof. reflexivity. Qed.

Lemma scatter_perform_eq self x y idx :
  GpuAdvancedIncSubtensor1.perform self x y idx
  = (x <- (if negb (inplace self) then Pygpu.copy x else ret x) ;;
     scatter_into self y idx x).
Proof. reflexivity. Qed.

Lemma frame_call k a b bc :
  frame (fun h => h <> data a) (GpuAdvancedIncSubtensor1.call k a b bc).
Proof. destruct k. apply frame_iadd. Qed.

Lemma frame_row_update x i (c : GpuArray -> M unit) :
  (forall xi, frame (fun h => h <> data xi) (c xi)) ->
  frame (fun h => h <> data x)
        (xi <- lift (Pygpu.getitem x [IInt i]) ;; c xi).
Proof.
  intros Hc. apply frame_bind; [apply frame_lift |].
  intros s xi Hxi. simpl in Hxi. apply getitem_shares in Hxi.
  rewrite <- Hxi. apply Hc.
Qed.

Lemma frame_combine_into self cdata y x :
  frame (fun h => h <> data x) (combine_into self cdata y x).
Proof.
  unfold combine_into. apply frame_bind; [apply frame_lift |].
  intros s sub_x Hsub. simpl in Hsub. apply getitem_shares in Hsub.
  apply frame_bind; [| intros; apply frame_ret].
  destruct (shape sub_x); destruct (negb (set_instead_of_inc self)).
  - apply frame_bind.
    + eapply frame_weaken; [| apply frame_elemwise2_add].
      intros h _. exact I.
    + intros; apply frame_setitem.
  - apply frame_setitem.
  - unfold Pygpu.ielemwise2_add. rewrite <- Hsub. apply frame_iadd.
  - apply frame_setitem.
Qed.

Lemma frame_scatter_into self y idx x :
  frame (fun h => h <> data x) (scatter_into self y idx x).
Proof.
  unfold scatter_into. destruct (length idx =? 0)%nat; [apply frame_ret |].
  apply frame_bind; [apply frame_lift |]. intros _ j _.
  apply frame_bind; [| intros; apply frame_ret].
  destruct j.
  - destruct (negb _); [apply frame_raise |].
    destruct (set_instead_of_inc self).
    + apply frame_for_each. intros [j i].
      apply frame_bind; [apply frame_lift |]. intros. apply frame_setitem.
    + apply frame_bind; [apply frame_lift |]. intros _ x0 _.
      apply frame_bind; [apply frame_lift |]. intros _ y0 _.
      apply frame_bind; [apply frame_lift |]. intros _ k _.
      apply frame_for_each. intros [j i].
      apply frame_row_update. intros xi.
      apply frame_bind; [apply frame_lift |]. intros. apply frame_call.
  - apply frame_bind; [apply frame_lift |]. intros _ reshaped_y _.
    destruct (set_instead_of_inc self).
    + apply frame_for_each. intros i. apply frame_setitem.
    + apply frame_bind; [apply frame_lift |]. intros _ x0 _.
      apply frame_bind; [apply frame_lift |]. intros _ k _.
      apply frame_for_each. intros i.
      apply frame_row_update. intros xi. apply frame_call.
Qed.

(** A computation that ends in [ret x] returns [x] when it returns. *)
Lemma bind_ret_result {A B} (c : M A) (b : B) s out :
  snd ((c ;;; ret b) s) = Ok out -> out = b.
Proof.
  unfold bind, ret. destruct (c s) as [s1 [a | e]]; simpl.
  - intros H. injection H as <-. reflexivity.
  - discriminate.
Qed.

Lemma combine_into_result self cdata y x s out :
  snd (combine_into self cdata y x s) = Ok out -> out = x.
Proof.
  unfold combine_into, bind at 1, lift.
  destruct (Pygpu.getitem x cdata) as [sub_x | e]; [| discriminate].
  apply bind_ret_result.
Qed.

Lemma scatter_into_result self y idx x s out :
  snd (scatter_into self y idx x s) = Ok out -> out = x.
Proof.
  unfold scatter_into. destruct (length idx =? 0)%nat.
  - simpl. intros H. injection H as <-. reflexivity.
  - unfold bind at 1, lift.
    destruct (GpuAdvancedIncSubtensor1.jointly x y) as [j | e];
      [| discriminate].
    apply bind_ret_result.
Qed.

(** The optional copy in front of a computation that writes through its
    array only, and returns it. *)
Lemma optional_copy_frame (inpl : bool) x (k : GpuArray -> M GpuArray) s :
  (forall x', frame (fun h => h <> data x') (k x')) ->
  (forall x' s' out, snd (k x' s') = Ok out -> out = x') ->
  let c := x' <- (if negb inpl then Pygpu.copy x else ret x) ;; k x' in
  (inpl = false ->
   (forall h t, (h < next s)%nat -> bufs (fst (c s)) h t = bufs s h t) /\
   (forall out, snd (c s) = Ok out -> out = copy_of s x)) /\
  (inpl = true ->
   (forall h t, h <> data x -> (h < next s)%nat ->
                bufs (fst (c s)) h t = bufs s h t) /\
   (forall out, snd (c s) = Ok out -> out = x)).
Proof.
  intros Hk Hres c. subst c. split; intros ->; simpl negb; cbv iota.
  - unfold bind. rewrite copy_eq.
    set (s1 := writes _ _ _ _ _).
    assert (Hs1 : next s1 = S (next s)) by apply writes_next.
    assert (Hb1 : forall h t, (h < next s)%nat -> bufs s1 h t = bufs s h t).
    { intros h t Hlt. subst s1. rewrite writes_other by lia. reflexivity. }
    destruct (Hk (copy_of s x) s1) as [_ Hf]. split.
    + intros h t Hlt. rewrite Hf; [auto | simpl; lia | lia].
    + apply Hres.
  - unfold bind, ret. destruct (Hk x s) as [_ Hf]. split.
    + intros h t Hne Hlt. apply Hf; assumption.
    + apply Hres.
Qed.

End Inplace.

(** The buffers the two host implementations may write.  When [inplace]
    is false, no buffer that existed before the call is written, on any
    path, a raising one included, and the result is the copy of [x] made
    before the first write, in a new buffer.  When [inplace] is true, the
    result is the array [x] itself and among the buffers that existed
    before the call only the buffer of [x] may change. *)
Lemma inplace_frames
  {E : ElemType} (self : IncOp) (idx_list : list entry) (x y : GpuArray)
  (inputs idx : list Z) (s : store) :
  let r1 := GpuIncSubtensor.perform self idx_list x y inputs s in
  let r2 := GpuAdvancedIncSubtensor1.perform self x y idx s in
  (inplace self = false ->
   (forall h t, (h < next s)%nat -> bufs (fst r1) h t = bufs s h t) /\
   (forall out, snd r1 = Ok out -> out = copy_of s x) /\
   (forall h t, (h < next s)%nat -> bufs (fst r2) h t = bufs s h t) /\
   (forall out, snd r2 = Ok out -> out = copy_of s x) /\
   data (copy_of s x) = next s) /\
  (inplace self = true ->
   (forall h t, h <> data x -> (h < next s)%nat ->
                bufs (fst r1) h t = bufs s h t) /\
   (forall out, snd r1 = Ok out -> out = x) /\
   (forall h t, h <> data x -> (h < next s)%nat ->
                bufs (fst r2) h t = bufs s h t) /\
   (forall out, snd r2 = Ok out -> out = x)).
Proof.
  intros r1 r2.
  pose proof (optional_copy_frame (inplace self) x
                (scatter_into self y idx) s
                (frame_scatter_into self y idx)
                (scatter_into_result self y idx)) as H2.
  cbv zeta in H2. rewrite <- scatter_perform_eq in H2. fold r2 in H2.
  assert (H1 :
    (inplace self = false ->
     (forall h t, (h < next s)%nat -> bufs (fst r1) h t = bufs s h t) /\
     (forall out, snd r1 = Ok out -> out = copy_of s x)) /\
    (inplace self = true ->
     (forall h t, h <> data x -> (h < next s)%nat ->
                  bufs (fst r1) h t = bufs s h t) /\
     (forall out, snd r1 = Ok out -> out = x))).
  { subst r1. rewrite inc_perform_eq. unfold bind at 1, lift.
    destruct (GpuIncSubtensor.convert_all idx_list (rev inputs))
      as [cdata | e].
    - exact (optional_copy_frame (inplace self) x
               (combine_into self cdata y) s
               (frame_combine_into self cdata y)
               (combine_into_result self cdata y)).
    - simpl. split; intros _; split; try reflexivity; discriminate. }
  destruct H1 as [H1f H1t]. destruct H2 as [H2f H2t]. split.
  - intros Hf. destruct (H1f Hf) as [Ha Hb]. destruct (H2f Hf) as [Hc Hd].
    repeat split; assumption.
  - intros Ht. destruct (H1t Ht) as [Ha Hb]. destruct (H2t Ht) as [Hc Hd].
    repeat split; assumption.
Qed.

(** The two settings on the same update [x[0, :] += y] of a 2x2 matrix. *)
Example inplace_true_mutates_the_original :
  let s := store_of [[[1; 2]; [3; 4]]; [[10; 20]]] in
  let x := matrix 0 2 2 in
  let y := mkGpuArray 1 0 [2] [8] float64 in
  let r := GpuIncSubtensor.perform (mkIncOp true false) [EInt 0] x y [] s in
  snd r = Ok x /\ tolist2 (fst r) x = [[11; 22]; [3; 4]].
Proof. split; reflexivity. Qed.

Example inplace_false_keeps_the_original :
  let s := store_of [[[1; 2]; [3; 4]]; [[10; 20]]] in
  let x := matrix 0 2 2 in
  let y := mkGpuArray 1 0 [2] [8] float64 in
  let r := GpuIncSubtensor.perform (mkIncOp false false) [EInt 0] x y [] s in
  snd r = Ok (matrix 2 2 2) /\
  tolist2 (fst r) x = [[1; 2]; [3; 4]] /\
  tolist2 (fst r) (matrix 2 2 2) = [[11; 22]; [3; 4]].
Proof. repeat split; reflexivity. Qed.

(** ** Rows: [a[i]] for an integer [i] *)

Section Rows.
Context {E : ElemType}.
Local Open Scope m_scope.

Lemma index_axes_raises dims : forall st ts e,
  Pygpu.index_axes dims st ts = Raise e -> e = IndexError.
Proof.
  induction dims as [| d ds IH]; intros st ts e; simpl.
  - destruct st; [destruct ts |]; congruence.
  - destruct st as [| s ss]; [congruence |].
    destruct ts as [| [[start stop] step] ts]; [congruence |].
    destruct ((start <? -1) || (start >? d)); [congruence |].
    destruct (Pygpu.index_axes ds ss ts) as [[off kept] | e'] eqn:Er.
    + discriminate.
    + intros H. injection H as <-. eapply IH; eassumption.
Qed.

Lemma key_triples_nil ds : Pygpu.key_triples ds [] = Ok (whole ds).
Proof. destruct ds; reflexivity. Qed.

(** [a[i]] spelled out: the bounds check on the leading axis, then the
    view on the remaining axes. *)
Lemma getitem_int_eq a i :
  Pygpu.getitem a [IInt i] =
  match shape a, strides a with
  | d :: ds, st :: sts =>
      let i' := if i <? 0 then i + d else i in
      if (i' <? 0) || (i' >=? d) then Raise IndexError
      else
        match Pygpu.index_axes ds sts (whole ds) with
        | Raise _ => Raise IndexError
        | Ok (off, kept) =>
            Ok (mkGpuArray (data a) (offset a + (st * i' + off))
                           (map fst kept) (map snd kept) (dtype_of a))
        end
  | _, _ => Raise IndexError
  end.
Proof.
  unfold Pygpu.getitem, Pygpu.pygpu_index.
  destruct (shape a) as [| d ds] eqn:Es; [reflexivity |].
  cbn [Pygpu.key_triples]. rewrite key_triples_nil. cbv zeta.
  set (i' := if i <? 0 then i + d else i).
  destruct ((i' <? 0) || (i' >=? d)) eqn:Eb.
  - destruct (strides a); reflexivity.
  - bool_to_prop.
    destruct (strides a) as [| st sts]; [reflexivity |].
    cbn [Pygpu.index_axes].
    replace ((i' <? -1) || (i' >? d)) with false
      by (symmetry; apply orb_false_iff; split;
          [apply Z.ltb_ge | rewrite Z.gtb_ltb; apply Z.ltb_ge]; lia).
    destruct (Pygpu.index_axes ds sts (whole ds)) as [[off kept] | e] eqn:Er.
    + change (0 =? 0) with true. reflexivity.
    + apply index_axes_raises in Er. subst e. reflexivity.
Qed.

Lemma getitem_int_raises a i e :
  Pygpu.getitem a [IInt i] = Raise e -> e = IndexError.
Proof.
  rewrite getitem_int_eq.
  destruct (shape a) as [| d ds]; [congruence |].
  destruct (strides a) as [| st sts]; [congruence |].
  cbv zeta. destruct (_ || _); [congruence |].
  destruct (Pygpu.index_axes ds sts (whole ds)) as [[off kept] | e'];
    congruence.
Qed.

(** When [a[0]] raises, every [a[i]] does. *)
Lemma getitem_zero_raises a e i :
  Pygpu.getitem a [IInt 0] = Raise e ->
  Pygpu.getitem a [IInt i] = Raise IndexError.
Proof.
  rewrite !getitem_int_eq.
  destruct (shape a) as [| d ds]; [reflexivity |].
  destruct (strides a) as [| st sts]; [reflexivity |].
  cbv zeta. change (0 <? 0) with false. cbv iota.
  destruct (Pygpu.index_axes ds sts (whole ds)) as [[off kept] | e'].
  - destruct ((0 <? 0) || (0 >=? d)) eqn:E0; [| discriminate].
    intros _. simpl in E0. bool_to_prop.
    replace (_ || _) with true; [reflexivity |].
    symmetry. apply orb_true_iff.
    destruct (Z.ltb_spec i 0).
    + destruct (Z.ltb_spec (i + d) 0); [auto | right].
      rewrite Z.geb_leb. apply Z.leb_le. lia.
    + right. rewrite Z.geb_leb. apply Z.leb_le. lia.
  - intros _. destruct (_ || _); reflexivity.
Qed.

Lemma getitem_int_dtype a i r :
  Pygpu.getitem a [IInt i] = Ok r -> dtype_of r = dtype_of a.
Proof.
  rewrite getitem_int_eq.
  destruct (shape a) as [| d ds]; [discriminate |].
  destruct (strides a) as [| st sts]; [discriminate |].
  cbv zeta. destruct (_ || _); [discriminate |].
  destruct (Pygpu.index_axes ds sts (whole ds)) as [[off kept] | e'];
    [| discriminate].
  intros H. injection H as <-. reflexivity.
Qed.

Lemma reshape_dtype a newshape r :
  Pygpu.reshape a newshape = Ok r -> dtype_of r = dtype_of a.
Proof.
  unfold Pygpu.reshape. destruct (Pygpu.reshape_strides _ _); [| discriminate].
  intros H. injection H as <-. reflexivity.
Qed.

Lemma kernel_available a b :
  dtype_of a <> float16 -> dtype_of b <> float16 ->
  GpuAdvancedIncSubtensor1.getInplElemwiseAdditionKernel a b
  = Ok GpuAdvancedIncSubtensor1.InplElemwiseAddition.
Proof.
  unfold GpuAdvancedIncSubtensor1.getInplElemwiseAdditionKernel.
  intros Ha Hb. destruct (dtype_of a), (dtype_of b); try reflexivity;
    congruence.
Qed.

Lemma for_each_ext {A} (l : list A) (f g : A -> M unit) s :
  (forall a s', In a l -> f a s' = g a s') ->
  for_each l f s = for_each l g s.
Proof.
  revert s. induction l as [| a l IH]; intros s H; simpl; [reflexivity |].
  unfold bind. rewrite H by (left; reflexivity).
  destruct (g a s) as [s1 [[] | e]]; [| reflexivity].
  apply IH. intros a' s' Hin. apply H. right. assumption.
Qed.

End Rows.

(** ** The scatter policy *)

Section Policy.
Context {E : ElemType}.
Local Open Scope m_scope.

Lemma policy_eq self x y idx :
  ScatterSpec.scatter self x y idx
  = (x <- (if inplace self then ret x else Pygpu.copy x) ;;
     policy_into self y idx x).
Proof. reflexivity. Qed.

Lemma jointly_eq x y :
  (1 <= ndim x)%nat ->
  GpuAdvancedIncSubtensor1.jointly x y = Ok (ScatterSpec.one_to_one x y).
Proof.
  unfold GpuAdvancedIncSubtensor1.jointly, ScatterSpec.one_to_one, ndim.
  intros Hx. destruct (Nat.eqb_spec (length (shape y)) (length (shape x)))
    as [Heq | Hne]; [| reflexivity].
  destruct (shape y); [simpl in Heq; lia | reflexivity].
Qed.

Lemma len_eq y : GpuAdvancedIncSubtensor1.len y = hd 0 (shape y).
Proof.
  unfold GpuAdvancedIncSubtensor1.len. destruct (shape y); reflexivity.
Qed.

Lemma reshaped_eq x y :
  (if (ndim y =? ndim x)%nat
   then Pygpu.reshape y (tl (shape y))
   else
     let nb_dims_to_add := (Z.of_nat (ndim x) - 1) - Z.of_nat (ndim y) in
     Pygpu.reshape y (repeat 1 (Z.to_nat nb_dims_to_add) ++ shape y))
  = ScatterSpec.broadcast_source x y.
Proof.
  unfold ScatterSpec.broadcast_source. destruct (ndim y =? ndim x)%nat;
    [reflexivity |].
  cbv zeta. do 3 f_equal. lia.
Qed.

(** The loop bodies of the two modes, in the order the code evaluates
    them, against the policy's. *)
Lemma set_body_eq x y j i s :
  (yj <- lift (Pygpu.getitem y [IInt j]) ;; Pygpu.setitem x [IInt i] yj) s
  = (row <- lift (Pygpu.getitem x [IInt i]) ;;
     src <- lift (Pygpu.getitem y [IInt j]) ;;
     ScatterSpec.row_update true row src) s.
Proof.
  unfold Pygpu.setitem, bind, lift, ScatterSpec.row_update.
  destruct (Pygpu.getitem y [IInt j]) as [yj | ey] eqn:Ey;
    destruct (Pygpu.getitem x [IInt i]) as [xi | ex] eqn:Ex;
    try reflexivity.
  apply getitem_int_raises in Ey, Ex. subst. reflexivity.
Qed.

(** A loop over a non-empty index vector raises what [x[0]] raised. *)
Lemma loop_raises_like_first_row {A} x e (l : list A) (sel : A -> Z)
      (c : A -> GpuArray -> M unit) s :
  l <> [] ->
  Pygpu.getitem x [IInt 0] = Raise e ->
  for_each l (fun a => row <- lift (Pygpu.getitem x [IInt (sel a)]) ;;
                       c a row) s
  = (s, Raise IndexError).
Proof.
  intros Hl H0. destruct l as [| a l]; [contradiction |].
  simpl. unfold bind, lift.
  rewrite (getitem_zero_raises x e (sel a) H0). reflexivity.
Qed.

End Policy.

Section PolicyProof.
Context {E : ElemType}.
Local Open Scope m_scope.

Lemma bind_cong {A B} (c c' : M A) (k : A -> M B) s :
  c s = c' s -> bind c k s = bind c' k s.
Proof. unfold bind. intros ->. reflexivity. Qed.

Lemma enumerate_cons i0 rest :
  exists l, enumerate (i0 :: rest) = (0, i0) :: l.
Proof. unfold enumerate. simpl. eexists. reflexivity. Qed.

(** After the optional copy, on a non-empty index vector, the code does
    what the policy says. *)
Lemma scatter_into_policy self y idx x s :
  idx <> [] -> (1 <= ndim x)%nat ->
  (set_instead_of_inc self = true \/
   (dtype_of x <> float16 /\ dtype_of y <> float16)) ->
  scatter_into self y idx x s = policy_into self y idx x s.
Proof.
  intros Hidx Hx Hd.
  unfold scatter_into, policy_into.
  replace (length idx =? 0)%nat with false
    by (destruct idx; [contradiction | reflexivity]).
  rewrite jointly_eq by assumption. rewrite len_eq, reshaped_eq.
  unfold bind at 1. unfold lift at 1.
  apply bind_cong.
  destruct (ScatterSpec.one_to_one x y).
  - destruct (negb (hd 0 (shape y) =? Z.of_nat (length idx)));
      [reflexivity |].
    destruct (set_instead_of_inc self) eqn:Eset.
    + apply for_each_ext. intros [j i] s' _. apply set_body_eq.
    + destruct Hd as [Hd | [Hdx Hdy]]; [discriminate |].
      unfold bind at 1. unfold lift at 1.
      destruct (Pygpu.getitem x [IInt 0]) as [x0 | e0] eqn:E0.
      * unfold bind at 1. unfold lift at 1.
        destruct (Pygpu.getitem y [IInt 0]) as [y0 | e1] eqn:E1.
        -- rewrite kernel_available
             by (erewrite getitem_int_dtype by eassumption; assumption).
           reflexivity.
        -- destruct idx as [| i0 rest]; [contradiction |].
           destruct (enumerate_cons i0 rest) as [l ->].
           simpl. unfold bind, lift. rewrite E1.
           apply getitem_int_raises in E1. subst e1.
           destruct (Pygpu.getitem x [IInt i0]) as [xi | ex] eqn:Ex;
             [reflexivity |].
           apply getitem_int_raises in Ex. subst ex. reflexivity.
      * destruct idx as [| i0 rest]; [contradiction |].
        destruct (enumerate_cons i0 rest) as [l ->].
        simpl. unfold bind, lift.
        rewrite (getitem_zero_raises x e0 i0 E0).
        apply getitem_int_raises in E0. subst e0. reflexivity.
  - unfold bind at 1 3. unfold lift at 1 3.
    destruct (ScatterSpec.broadcast_source x y) as [src | e] eqn:Esrc;
      [| reflexivity].
    destruct (set_instead_of_inc self) eqn:Eset.
    + reflexivity.
    + destruct Hd as [Hd | [Hdx Hdy]]; [discriminate |].
      unfold bind at 1. unfold lift at 1.
      destruct (Pygpu.getitem x [IInt 0]) as [x0 | e0] eqn:E0.
      * rewrite kernel_available.
        -- reflexivity.
        -- erewrite getitem_int_dtype by eassumption. assumption.
        -- unfold ScatterSpec.broadcast_source in Esrc.
           destruct (ndim y =? ndim x)%nat;
             erewrite reshape_dtype by eassumption; assumption.
      * destruct idx as [| i0 rest]; [contradiction |].
        simpl. unfold bind, lift.
        rewrite (getitem_zero_raises x e0 i0 E0).
        apply getitem_int_raises in E0. subst e0. reflexivity.
Qed.

End PolicyProof.

(** ** The broadcast source *)

(** Reshaping to the array's own shape keeps every element in place. *)
Lemma reshape_strides_same ds : forall ss,
  length ss = length ds ->
  exists st,
    Pygpu.reshape_strides (filter nonunit (combine ds ss)) ds = Ok st /\
    length st = length ds /\
    forall m, In m (indices_of ds) -> dot m st = dot m ss.
Proof.
  induction ds as [| d ds IH]; intros ss Hlen.
  - exists []. destruct ss; [| discriminate]. simpl. auto.
  - destruct ss as [| s ss]; [discriminate |].
    injection Hlen as Hlen. destruct (IH ss Hlen) as (st & Hst & Hl & Hdot).
    simpl combine. simpl filter. unfold nonunit at 1. simpl fst.
    destruct (Z.eqb_spec d 1) as [-> | Hd]; simpl negb; cbv iota.
    + exists (0 :: st). split; [| split].
      * simpl. rewrite Hst. reflexivity.
      * simpl. congruence.
      * intros m Hm. apply indices_of_cons in Hm.
        destruct Hm as (i & r & -> & Hi & Hr).
        assert (i = 0) by lia. subst i. simpl.
        rewrite (Hdot r Hr). reflexivity.
    + exists (s :: st). split; [| split].
      * simpl.
        replace (d =? 1) with false
          by (symmetry; apply Z.eqb_neq; assumption).
        rewrite Z.eqb_refl, Hst. reflexivity.
      * simpl. congruence.
      * intros m Hm. apply indices_of_cons in Hm.
        destruct Hm as (i & r & -> & Hi & Hr). simpl.
        rewrite (Hdot r Hr). reflexivity.
Qed.

Lemma reshape_strides_pad old n : forall ds st,
  Pygpu.reshape_strides old ds = Ok st ->
  Pygpu.reshape_strides old (repeat 1 n ++ ds) = Ok (repeat 0 n ++ st).
Proof.
  induction n as [| n IH]; intros ds st H; simpl; [assumption |].
  rewrite (IH ds st H). reflexivity.
Qed.

Lemma indices_of_unit ds : indices_of (1 :: ds) = map (cons 0) (indices_of ds).
Proof. simpl. apply app_nil_r. Qed.

Lemma indices_of_pad n ds :
  indices_of (repeat 1 n ++ ds) = map (app (repeat 0 n)) (indices_of ds).
Proof.
  induction n as [| n IH].
  - simpl. symmetry. apply map_id.
  - change (repeat 1 (S n) ++ ds) with (1 :: (repeat 1 n ++ ds)).
    rewrite indices_of_unit, IH, map_map. reflexivity.
Qed.

Lemma dot_pad n m st : dot (repeat 0 n ++ m) (repeat 0 n ++ st) = dot m st.
Proof. induction n as [| n IH]; simpl; [reflexivity | rewrite IH; lia]. Qed.

Section Source.
Context {E : ElemType}.

(** When the rows are not mapped one to one, the source the policy
    applies to every row is a view on the buffer of [y] with the shape
    the policy names and the elements of [y] in order. *)
Lemma broadcast_source_reads_y x y s :
  length (strides y) = length (shape y) ->
  (ndim y <= ndim x)%nat -> (1 <= ndim x)%nat ->
  ScatterSpec.one_to_one x y = false ->
  exists src,
    ScatterSpec.broadcast_source x y = Ok src /\
    data src = data y /\
    shape src = (if (ndim y =? ndim x)%nat then tl (shape y)
                 else repeat 1 (ndim x - 1 - ndim y)%nat ++ shape y) /\
    ndim src = (ndim x - 1)%nat /\
    contents s src = contents s y.
Proof.
  intros Hwf Hle Hx Hone.
  unfold ScatterSpec.broadcast_source, ScatterSpec.one_to_one in *.
  unfold Pygpu.reshape.
  destruct (Nat.eqb_spec (ndim y) (ndim x)) as [Heq | Hne].
  - (* same rank: the leading extent is 1 *)
    simpl in Hone. apply negb_false_iff in Hone. apply Z.eqb_eq in Hone.
    unfold ndim in *. destruct (shape y) as [| d ds] eqn:Es;
      [simpl in Heq; lia |].
    simpl in Hone. subst d. destruct (strides y) as [| s0 ss] eqn:Et;
      [discriminate |].
    injection Hwf as Hwf. simpl combine. simpl filter. simpl tl.
    destruct (reshape_strides_same ds ss Hwf) as (st & Hst & Hl & Hdot).
    fold nonunit. rewrite Hst. eexists. split; [reflexivity |].
    split; [reflexivity |]. split; [reflexivity |].
    split; [simpl; simpl in Heq; lia |].
    unfold contents. simpl shape. rewrite Es, indices_of_unit, map_map.
    apply map_ext_in. intros m Hm. unfold read, address. simpl.
    rewrite Et. simpl. rewrite (Hdot m Hm). reflexivity.
  - destruct (reshape_strides_same (shape y) (strides y) Hwf)
      as (st & Hst & Hl & Hdot).
    fold nonunit.
    rewrite (reshape_strides_pad _ (ndim x - 1 - ndim y) _ _ Hst).
    eexists. split; [reflexivity |].
    split; [reflexivity |]. split; [reflexivity |].
    split.
    + unfold ndim in *. simpl. rewrite length_app, repeat_length. lia.
    + unfold contents. simpl shape. rewrite indices_of_pad, map_map.
      apply map_ext_in. intros m Hm. unfold read, address. simpl.
      rewrite dot_pad, (Hdot m Hm). reflexivity.
Qed.

End Source.

(** C3, as the code has it.  On a non-empty index vector, for a
    destination of rank 1 or more, and unless an accumulation meets a
    float16 operand, the scatter update is the policy of section 4.4: a
    source of the rank of [x] whose leading extent is not 1 is mapped row
    by row, the [i]-th index to the [i]-th row, and a length mismatch
    fails the assertion; any other source is reshaped, its degenerate
    leading axis dropped or unit axes added on the left up to rank
    [ndim x - 1], and that one source is applied to every selected row.
    The reshaped source is a view on [y] with the elements of [y]. *)
Theorem scatter_follows_the_policy
  {E : ElemType} (self : IncOp) (x y : GpuArray) (idx : list Z) (s : store) :
  idx <> [] -> (1 <= ndim x)%nat ->
  (set_instead_of_inc self = true \/
   (dtype_of x <> float16 /\ dtype_of y <> float16)) ->
  GpuAdvancedIncSubtensor1.perform self x y idx s
  = ScatterSpec.scatter self x y idx s /\
  (length (strides y) = length (shape y) -> (ndim y <= ndim x)%nat ->
   ScatterSpec.one_to_one x y = false ->
   exists src,
     ScatterSpec.broadcast_source x y = Ok src /\
     data src = data y /\
     shape src = (if (ndim y =? ndim x)%nat then tl (shape y)
                  else repeat 1 (ndim x - 1 - ndim y)%nat ++ shape y) /\
     ndim src = (ndim x - 1)%nat /\
     contents s src = contents s y).
Proof.
  intros Hidx Hx Hd. split.
  - rewrite scatter_perform_eq, policy_eq. unfold bind.
    destruct (inplace self); simpl negb; cbv iota.
    + unfold ret. apply scatter_into_policy; assumption.
    + rewrite copy_eq. apply scatter_into_policy; assumption.
  - intros Hwf Hle Hone. apply broadcast_source_reads_y; assumption.
Qed.

Lemma scatter_follows_the_policy_witness :
  ([0; 0] <> @nil Z /\ (1 <= ndim (matrix 0 3 2))%nat /\
   (set_instead_of_inc (mkIncOp false false) = true \/
    (dtype_of (matrix 0 3 2) <> float16 /\
     dtype_of (matrix 1 2 2) <> float16))) /\
  GpuAdvancedIncSubtensor1.perform
    (mkIncOp false false) (matrix 0 3 2) (matrix 1 2 2) [0; 0]
    (store_of [[[0; 0]; [0; 0]; [0; 0]]; [[1; 1]; [1; 1]]])
  = ScatterSpec.scatter
      (mkIncOp false false) (matrix 0 3 2) (matrix 1 2 2) [0; 0]
      (store_of [[[0; 0]; [0; 0]; [0; 0]]; [[1; 1]; [1; 1]]]).
Proof.
  assert (H : [0; 0] <> @nil Z /\ (1 <= ndim (matrix 0 3 2))%nat /\
              (set_instead_of_inc (mkIncOp false false) = true \/
               (dtype_of (matrix 0 3 2) <> float16 /\
                dtype_of (matrix 1 2 2) <> float16))).
  { split; [discriminate |]. split; [unfold ndim, matrix; simpl; lia |].
    right. split; discriminate. }
  split; [exact H |].
  exact (proj1 (scatter_follows_the_policy
                  (mkIncOp false false) (matrix 0 3 2) (matrix 1 2 2) [0; 0]
                  (store_of [[[0; 0]; [0; 0]; [0; 0]]; [[1; 1]; [1; 1]]])
                  (proj1 H) (proj1 (proj2 H)) (proj2 (proj2 H)))).
Defined.

(** The claim as stated fails on an empty index vector: a source of two
    rows then passes although the lengths differ, where the policy asks
    for a failure. *)
Lemma empty_index_vector_skips_the_length_check :
  let s := store_of [[[0; 0]; [0; 0]; [0; 0]]; [[1; 1]; [1; 1]]] in
  let x := matrix 0 3 2 in
  let y := matrix 1 2 2 in
  ScatterSpec.one_to_one x y = true /\
  GpuAdvancedIncSubtensor1.len y <> Z.of_nat (length (@nil Z)) /\
  GpuAdvancedIncSubtensor1.perform (mkIncOp true false) x y [] s
  = (s, Ok x) /\
  ScatterSpec.scatter (mkIncOp true false) x y [] s
  = (s, Raise AssertionError).
Proof.
  cbv zeta. split; [reflexivity |]. split; [discriminate |].
  split; reflexivity.
Qed.

(** ** Falling back from the accelerated path *)




Example fallback_completes_a_set :
  let s := store_of [[[0; 0]; [0; 0]; [0; 0]]; [[5; 6]]] in
  let r := GpuAdvancedIncSubtensor1_dev20.make_thunk
             (mkIncOp true true) 3 (matrix 0 3 2) (matrix 1 1 2)
             one_zero_index s in
  snd r = Ok (matrix 0 3 2) /\
  tolist2 (fst r) (matrix 0 3 2) = [[5; 6]; [0; 0]; [0; 0]].
Proof. split; reflexivity. Qed.


(** ** Accumulation as a list of additions *)


Section Bumps.
Context {E : ElemType}.

Lemma apply_bumps_app h l1 l2 s :
  apply_bumps h (l1 ++ l2) s = apply_bumps h l2 (apply_bumps h l1 s).
Proof. apply fold_left_app. Qed.


Lemma apply_bumps_other h l s h' t :
  h' <> h -> bufs (apply_bumps h l s) h' t = bufs s h' t.
Proof.
  intros Hne. unfold apply_bumps. revert s.
  induction l as [| p l IH]; intros s; simpl.
  - reflexivity.
  - rewrite IH. apply write_other. assumption.
Qed.

(** The element at [t] ends up with everything that was added at [t]. *)
Lemma apply_bumps_at h l s t :
  bufs (apply_bumps h l s) h t
  = fold_left add (map snd (filter (fun p => fst p =? t) l)) (bufs s h t).
Proof.
  unfold apply_bumps. revert s.
  induction l as [| [t0 c0] l IH]; intros s; [reflexivity |].
  cbn [fold_left filter fst snd]. rewrite IH. unfold bump.
  destruct (Z.eqb_spec t0 t) as [-> | Hne].
  - cbn [map snd fold_left]. rewrite write_same. reflexivity.
  - rewrite write_other_addr by congruence. reflexivity.
Qed.

(** A run of writes [a[m] = a[m] + b[m]] whose right operand lives in
    another buffer is a list of additions of values read beforehand. *)
Lemma writes_as_bumps {T} h hb (f g : T -> Z) l s :
  hb <> h ->
  writes h f (fun st m => add (bufs st h (f m)) (bufs st hb (g m))) l s
  = apply_bumps h (map (fun m => (f m, bufs s hb (g m))) l) s.
Proof.
  intros Hne. unfold writes, apply_bumps. revert s.
  induction l as [| m l IH]; intros s; [reflexivity |].
  cbn [fold_left map fst snd]. rewrite IH. unfold bump.
  f_equal. apply map_ext. intros m'. rewrite write_other by assumption.
  reflexivity.
Qed.

Section Commutative.
Hypothesis add_assoc : forall a b c : elem, add (add a b) c = add a (add b c).
Hypothesis add_comm : forall a b : elem, add a b = add b a.



End Commutative.

End Bumps.

(** ** Rows of well-formed arrays *)

Lemma index_axes_whole ds : forall ss,
  length ss = length ds -> Forall (fun d => 0 <= d) ds ->
  Pygpu.index_axes ds ss (whole ds) = Ok (0, combine ds ss).
Proof.
  induction ds as [| d ds IH]; intros ss Hlen Hpos.
  - destruct ss; [reflexivity | discriminate].
  - destruct ss as [| s ss]; [discriminate |].
    injection Hlen as Hlen. inversion Hpos as [| ? ? Hd Hds]; subst.
    cbn [whole map Pygpu.index_axes]. fold (whole ds).
    rewrite (IH ss Hlen Hds).
    replace ((0 <? -1) || (0 >? d)) with false
      by (symmetry; apply orb_false_iff; split;
          [reflexivity | rewrite Z.gtb_ltb; apply Z.ltb_ge; lia]).
    change (1 =? 0) with false. cbv iota.
    unfold Pygpu.extent.
    rewrite Z.sub_0_r, Z.div_1_r, Z.opp_involutive, Z.mul_0_r, Z.mul_1_r.
    rewrite Z.max_r by lia. reflexivity.
Qed.

Lemma combine_fst {A B} (l : list A) : forall (l' : list B),
  length l' = length l -> map fst (combine l l') = l.
Proof.
  induction l as [| a l IH]; intros [| b l'] H; try discriminate;
    [reflexivity |].
  simpl. f_equal. apply IH. injection H as H. exact H.
Qed.

Lemma combine_snd {A B} (l : list A) : forall (l' : list B),
  length l' = length l -> map snd (combine l l') = l'.
Proof.
  induction l as [| a l IH]; intros [| b l'] H; try discriminate;
    [reflexivity |].
  simpl. f_equal. apply IH. injection H as H. exact H.
Qed.

Section RowFacts.
Context {E : ElemType}.

(** On a well-formed array, [a[i]] for [-d <= i < d] is the row at the
    wrapped position. *)
Lemma getitem_row a i :
  well_formed a -> - hd 0 (shape a) <= i < hd 0 (shape a) ->
  Pygpu.getitem a [IInt i] = Ok (row a (wrap (hd 0 (shape a)) i)).
Proof.
  intros (Hn & Hlen & Hpos) Hi. rewrite getitem_int_eq. unfold row, ndim in *.
  destruct (shape a) as [| d ds]; [simpl in Hn; lia |].
  destruct (strides a) as [| st sts]; [discriminate |].
  injection Hlen as Hlen. inversion Hpos as [| ? ? Hd Hds]; subst.
  simpl hd in *. simpl tl. cbv zeta. fold (wrap d i).
  assert (Hw : 0 <= wrap d i < d)
    by (unfold wrap; destruct (Z.ltb_spec i 0); lia).
  replace ((wrap d i <? 0) || (wrap d i >=? d)) with false
    by (symmetry; apply orb_false_iff; split;
        [apply Z.ltb_ge | rewrite Z.geb_leb; apply Z.leb_gt]; lia).
  rewrite (index_axes_whole ds sts Hlen Hds).
  rewrite combine_fst, combine_snd by assumption.
  f_equal. f_equal. lia.
Qed.

Lemma address_row a i m :
  (1 <= ndim a)%nat -> length (strides a) = length (shape a) ->
  address (row a i) m = address a (i :: m).
Proof.
  unfold address, row, ndim. intros Hn Hlen. simpl.
  destruct (shape a); [simpl in Hn; lia |].
  destruct (strides a); [discriminate |]. simpl. lia.
Qed.

Lemma stretch_same ds : forall ss,
  length ss = length ds -> Pygpu.stretch ds ds ss = Ok ss.
Proof.
  induction ds as [| d ds IH]; intros [| s ss] H; try discriminate;
    [reflexivity |].
  simpl. rewrite IH by (injection H as H; exact H).
  rewrite Z.eqb_refl. reflexivity.
Qed.

Lemma broadcast_to_same b dims :
  shape b = dims -> length (strides b) = length dims ->
  Pygpu.broadcast_to b dims = Ok b.
Proof.
  intros Hs Hl. unfold Pygpu.broadcast_to, ndim. rewrite Hs.
  rewrite Nat.sub_diag. simpl. rewrite stretch_same by assumption.
  destruct b; simpl in *. subst. reflexivity.
Qed.

(** The kernel call on operands of one shape in different buffers. *)
Lemma iadd_as_bumps a b s :
  shape b = shape a -> length (strides b) = length (shape a) ->
  data b <> data a ->
  Pygpu.iadd a b true s
  = (apply_bumps (data a)
       (map (fun m => (address a m, read s b m)) (indices_of (shape a))) s,
     Ok tt).
Proof.
  intros Hs Hl Hd. unfold Pygpu.iadd, bind, lift.
  rewrite broadcast_to_same by assumption.
  rewrite (for_each_writes (data a) (address a)
             (fun st m => add (read st a m) (read st b m))).
  f_equal.
  apply (writes_as_bumps (data a) (data b) (address a) (address b)).
  assumption.
Qed.

End RowFacts.

(** ** Each multi-index occurs once *)

Lemma NoDup_flat_map_disjoint {A B} (g : A -> list B) (l : list A) :
  NoDup l -> (forall a, In a l -> NoDup (g a)) ->
  (forall a a' b, In a l -> In a' l -> a <> a' ->
                  In b (g a) -> ~ In b (g a')) ->
  NoDup (flat_map g l).
Proof.
  induction l as [| a l IH]; intros Hl Hg Hdis; simpl; [constructor |].
  inversion Hl as [| ? ? Hnin Hl']; subst.
  apply NoDup_app.
  - apply Hg. left. reflexivity.
  - apply IH; [assumption | |].
    + intros a' Ha'. apply Hg. right. assumption.
    + intros a1 a2 b H1 H2. apply Hdis; right; assumption.
  - intros b Hb Hb'. apply in_flat_map in Hb'.
    destruct Hb' as (a' & Ha' & Hb').
    assert (Hne : a <> a') by (intros ->; contradiction).
    exact (Hdis a a' b (or_introl eq_refl) (or_intror Ha') Hne Hb Hb').
Qed.

Lemma NoDup_indices_of dims : NoDup (indices_of dims).
Proof.
  induction dims as [| d ds IH]; simpl.
  - constructor; [intros [] | constructor].
  - apply NoDup_flat_map_disjoint.
    + apply NoDup_map_NoDup_ForallPairs; [| apply seq_NoDup].
      intros a b _ _ H. lia.
    + intros i _. apply NoDup_map_NoDup_ForallPairs; [| exact IH].
      intros a b _ _ H. injection H as H. exact H.
    + intros i i' m _ _ Hne Hm Hm'.
      apply in_map_iff in Hm. destruct Hm as (r & <- & _).
      apply in_map_iff in Hm'. destruct Hm' as (r' & Heq & _).
      injection Heq as Heq _. congruence.
Qed.

Section Unique.
Context {E : ElemType}.

(** Filtering keyed values by a key that no item carries, or that exactly
    one carries. *)
Lemma filter_key_absent {T} (key : T -> Z) (val : T -> elem) (L : list T)
      (A : Z) :
  (forall m', In m' L -> key m' <> A) ->
  map snd (filter (fun p => fst p =? A)
                  (map (fun m' => (key m', val m')) L)) = [].
Proof.
  induction L as [| m0 L IH]; intros Hno; [reflexivity |].
  cbn [map filter fst].
  destruct (Z.eqb_spec (key m0) A) as [H0 | H0].
  - exfalso. apply (Hno m0); [left; reflexivity | assumption].
  - apply IH. intros m' Hm'. apply Hno. right. assumption.
Qed.

Lemma filter_key_unique {T} (key : T -> Z) (val : T -> elem) (L : list T)
      (m : T) (A : Z) :
  NoDup L -> In m L ->
  (forall m', In m' L -> key m' = A -> m' = m) -> key m = A ->
  map snd (filter (fun p => fst p =? A)
                  (map (fun m' => (key m', val m')) L)) = [val m].
Proof.
  intros Hnd. revert m. induction Hnd as [| m0 L Hnin Hnd IH];
    intros m Hin Huniq Hkey; [destruct Hin |].
  cbn [map filter fst].
  destruct (Z.eqb_spec (key m0) A) as [H0 | H0].
  - assert (m0 = m) by (apply Huniq; [left; reflexivity | assumption]).
    subst m0. cbn [map snd]. f_equal.
    apply filter_key_absent. intros m' Hm' Hk.
    assert (m' = m) by (apply Huniq; [right |]; assumption).
    subst m'. contradiction.
  - destruct Hin as [-> | Hin]; [contradiction |].
    apply IH; [assumption | | assumption].
    intros m' Hm'. apply Huniq. right. assumption.
Qed.

End Unique.

(** ** The accumulating loop *)

Section AccLoop.
Context {E : ElemType}.
Local Open Scope m_scope.

Lemma acc_loop_bumps X tasks s0 :
  well_formed X -> Forall (valid_task X) tasks ->
  forall s,
    (forall t a, In t tasks ->
                 bufs s (data (snd t)) a = bufs s0 (data (snd t)) a) ->
    for_each tasks
      (fun t => xi <- lift (Pygpu.getitem X [IInt (fst t)]) ;;
                Pygpu.iadd xi (snd t) true) s
    = (apply_bumps (data X) (flat_map (task_bumps X s0) tasks) s, Ok tt).
Proof.
  intros HX Hv. induction Hv as [| [i b] tasks Ht Hv IH]; intros s Hs.
  - reflexivity.
  - destruct Ht as (Hi & Hsh & Hlen & Hd). simpl fst in *. simpl snd in *.
    cbn [for_each flat_map]. unfold bind at 1. unfold bind at 1, lift at 1.
    cbn [fst snd]. rewrite (getitem_row X i HX Hi).
    rewrite (iadd_as_bumps (row X (wrap (hd 0 (shape X)) i)) b s);
      [| exact Hsh | rewrite Hlen, Hsh; reflexivity | exact Hd].
    rewrite IH.
    + rewrite apply_bumps_app. f_equal. f_equal.
      unfold task_bumps. simpl fst. simpl snd. simpl shape. simpl data.
      f_equal. apply map_ext. intros m. f_equal.
      * destruct HX as (Hn & Hl & _). apply address_row; assumption.
      * unfold read. apply (Hs (i, b)). left. reflexivity.
    + intros t a Hin. simpl data.
      destruct (proj1 (Forall_forall _ _) Hv t Hin) as (_ & _ & _ & Hdt).
      rewrite apply_bumps_other by exact Hdt.
      apply Hs. right. assumption.
Qed.

Lemma for_each_map {A B} (f : A -> B) (l : list A) (body : B -> M unit) s :
  for_each (map f l) body s = for_each l (fun a => body (f a)) s.
Proof.
  revert s. induction l as [| a l IH]; intros s; simpl; [reflexivity |].
  unfold bind. destruct (body (f a) s) as [s1 [[] | e]]; [apply IH |].
  reflexivity.
Qed.

Lemma joint_body_task X y j i s :
  well_formed y -> 0 <= j < hd 0 (shape y) ->
  (row <- lift (Pygpu.getitem X [IInt i]) ;;
   src <- lift (Pygpu.getitem y [IInt j]) ;;
   ScatterSpec.row_update false row src) s
  = (xi <- lift (Pygpu.getitem X [IInt (fst (joint_task y (j, i)))]) ;;
     Pygpu.iadd xi (snd (joint_task y (j, i))) true) s.
Proof.
  intros Hy Hj. unfold bind, lift, joint_task. simpl fst. simpl snd.
  rewrite (getitem_row y j Hy) by lia.
  replace (wrap (hd 0 (shape y)) j) with j
    by (unfold wrap; destruct (Z.ltb_spec j 0); [lia | reflexivity]).
  reflexivity.
Qed.

End AccLoop.

(** ** What each element receives *)


Lemma enumerate_in idx j i :
  In (j, i) (enumerate idx) ->
  0 <= j < Z.of_nat (length idx) /\ In i idx.
Proof.
  unfold enumerate. intros H. split.
  - apply in_combine_l in H. apply in_map_iff in H.
    destruct H as (k & <- & Hk). apply in_seq in Hk. lia.
  - apply in_combine_r in H. exact H.
Qed.

Section Elements.
Context {E : ElemType}.
Local Open Scope m_scope.

Lemma bumps_at_element X s0 tasks r m :
  injective_addresses X -> well_formed X ->
  0 <= r < hd 0 (shape X) -> In m (indices_of (tl (shape X))) ->
  Forall (fun t => - hd 0 (shape X) <= fst t < hd 0 (shape X)) tasks ->
  map snd (filter (fun p => fst p =? address X (r :: m))
                  (flat_map (task_bumps X s0) tasks))
  = flat_map (fun t => if wrap (hd 0 (shape X)) (fst t) =? r
                       then [read s0 (snd t) m] else []) tasks.
Proof.
  intros Hinj (Hn & Hlen & Hpos) Hr Hm Ht.
  unfold ndim in Hn. destruct (shape X) as [| d ds] eqn:Es;
    [simpl in Hn; lia |].
  simpl hd in *. simpl tl in *.
  assert (Hin : forall w m', 0 <= w < d -> In m' (indices_of ds) ->
                             In (w :: m') (indices_of (shape X))).
  { intros w m' Hw Hm'. rewrite Es. apply indices_of_cons. eauto. }
  induction Ht as [| [i b] tasks Hi Ht IH]; [reflexivity |].
  cbn [flat_map]. rewrite filter_app, map_app, IH. f_equal.
  simpl fst in *. simpl snd.
  assert (Hw : 0 <= wrap d i < d)
    by (unfold wrap; destruct (Z.ltb_spec i 0); lia).
  unfold task_bumps. rewrite Es. simpl hd. simpl tl. simpl fst. simpl snd.
  destruct (Z.eqb_spec (wrap d i) r) as [Heq | Hne].
  - rewrite Heq.
    apply (filter_key_unique (fun m' => address X (r :: m'))
                             (fun m' => read s0 b m')).
    + apply NoDup_indices_of.
    + exact Hm.
    + intros m' Hm' Ha.
      assert (r :: m' = r :: m) by (apply Hinj; auto).
      congruence.
    + reflexivity.
  - apply (filter_key_absent (fun m' => address X (wrap d i :: m'))
                             (fun m' => read s0 b m')).
    intros m' Hm' Ha.
    assert (wrap d i :: m' = r :: m) by (apply Hinj; auto).
    congruence.
Qed.

End Elements.

(** ** Summing the contributions of duplicate indices *)

Section Sum.
Context {E : ElemType}.
Local Open Scope m_scope.


Lemma scatter_tasks_shape X x y idx :
  shape X = shape x -> scatter_tasks X y idx = scatter_tasks x y idx.
Proof.
  unfold scatter_tasks, ScatterSpec.one_to_one, ScatterSpec.broadcast_source,
    ndim. intros ->. reflexivity.
Qed.

Lemma one_to_one_shape X x y :
  shape X = shape x -> ScatterSpec.one_to_one X y = ScatterSpec.one_to_one x y.
Proof. unfold ScatterSpec.one_to_one, ndim. intros ->. reflexivity. Qed.

Lemma scatter_into_tasks self y idx X s1 tasks :
  set_instead_of_inc self = false ->
  well_formed X ->
  (ScatterSpec.one_to_one X y = true ->
   well_formed y /\ hd 0 (shape y) = Z.of_nat (length idx)) ->
  scatter_tasks X y idx = Ok tasks ->
  dtype_of X <> float16 -> dtype_of y <> float16 ->
  scatter_into self y idx X s1 = (task_loop X tasks ;;; ret X) s1.
Proof.
  intros Hset HX Hjoint Htasks HdX Hdy. unfold scatter_tasks in Htasks.
  destruct idx as [| i0 rest].
  - assert (tasks = []) as ->.
    { destruct (ScatterSpec.one_to_one X y); simpl in Htasks;
        [congruence |].
      destruct (ScatterSpec.broadcast_source X y); simpl in Htasks;
        congruence. }
    reflexivity.
  - rewrite scatter_into_policy;
      [| discriminate | destruct HX; assumption | right; split; assumption].
    unfold policy_into. rewrite Hset.
    destruct (ScatterSpec.one_to_one X y).
    + destruct (Hjoint eq_refl) as [Hy Hlen].
      rewrite Hlen, Z.eqb_refl. simpl negb. cbv iota.
      assert (tasks = map (joint_task y) (enumerate (i0 :: rest))) as ->
        by congruence.
      apply bind_cong. unfold task_loop.
      rewrite for_each_map. apply for_each_ext. intros [j i] s' Hin.
      apply joint_body_task; [exact Hy |].
      apply enumerate_in in Hin. rewrite Hlen. apply Hin.
    + destruct (ScatterSpec.broadcast_source X y) as [src | e];
        [| discriminate].
      assert (tasks = map (fun i => (i, src)) (i0 :: rest)) as ->
        by congruence.
      apply bind_cong. unfold task_loop. rewrite for_each_map.
      reflexivity.
Qed.

End Sum.

Section SumTheorem.
Context {E : ElemType}.
Local Open Scope m_scope.

Lemma c_strides_length isz dims : length (c_strides isz dims) = length dims.
Proof. induction dims; simpl; congruence. Qed.

Lemma destination_facts self s x :
  well_formed x ->
  (inplace self = true -> injective_addresses x) ->
  let X := destination self s x in
  let s1 := start_store self s x in
  well_formed X /\ shape X = shape x /\ dtype_of X = dtype_of x /\
  injective_addresses X /\
  (forall m, In m (indices_of (shape x)) -> read s1 X m = read s x m) /\
  (forall h, h <> data x -> (h < next s)%nat ->
             h <> data X /\ forall t, bufs s1 h t = bufs s h t) /\
  (if negb (inplace self) then Pygpu.copy x else ret x) s = (s1, Ok X).
Proof.
  intros Hx Hinj X s1. subst X s1.
  unfold destination, start_store.
  destruct (inplace self); simpl negb; cbv iota.
  - simpl. repeat split; auto; apply Hx.
  - destruct (copy_spec x s) as (s' & Hc & _ & Hcont & Hframe).
    rewrite Hc. simpl fst. destruct Hx as (Hn & Hl & Hp).
    split; [| split; [| split; [| split; [| split; [| split]]]]].
    + unfold well_formed, ndim. simpl. rewrite c_strides_length. auto.
    + reflexivity.
    + reflexivity.
    + intros m1 m2. exact (copy_of_inj s x m1 m2).
    + intros m Hm. unfold contents in Hcont. simpl shape in Hcont.
      apply (proj1 map_ext_in_iff Hcont). exact Hm.
    + intros h Hne Hlt. split; [simpl; lia |].
      intros t. apply Hframe. lia.
    + exact Hc.
Qed.

End SumTheorem.

(** The accumulating update in full: the store [perform] leaves, and, for
    the per-index additions taken in any order, the store they leave and
    the value of each element in it.  Nothing is asked of the addition. *)
Lemma accumulate_result
  {E : ElemType}
  (self : IncOp) (x y : GpuArray) (idx : list Z) (s : store)
  (tasks : list (Z * GpuArray)) :
  set_instead_of_inc self = false ->
  well_formed x ->
  (ScatterSpec.one_to_one x y = true ->
   well_formed y /\ hd 0 (shape y) = Z.of_nat (length idx)) ->
  scatter_tasks x y idx = Ok tasks ->
  Forall (fun t => valid_task x t /\ (data (snd t) < next s)%nat) tasks ->
  dtype_of x <> float16 -> dtype_of y <> float16 ->
  (inplace self = true -> injective_addresses x) ->
  let out := destination self s x in
  let s1 := start_store self s x in
  let after := fun l =>
    apply_bumps (data out) (flat_map (task_bumps out s) l) s1 in
  GpuAdvancedIncSubtensor1.perform self x y idx s = (after tasks, Ok out) /\
  forall tasks',
    Permutation tasks tasks' ->
    task_loop out tasks' s1 = (after tasks', Ok tt) /\
    forall r m,
      0 <= r < hd 0 (shape x) -> In m (indices_of (tl (shape x))) ->
      read (after tasks') out (r :: m)
      = fold_left add (contributions s tasks' (hd 0 (shape x)) r m)
                  (read s x (r :: m)).
Proof.
  intros Hset Hx Hjoint Htasks Hvalid Hdx Hdy Hinj out s1 after.
  destruct (destination_facts self s x Hx Hinj)
    as (HX & Hsh & Hdt & HinjX & Hread & Hother & Hstart).
  fold out in HX, Hsh, Hdt, HinjX, Hread, Hother, Hstart.
  fold s1 in Hread, Hother, Hstart.
  assert (HvX : Forall (valid_task out) tasks).
  { eapply Forall_impl; [| exact Hvalid].
    intros t [(Hi & Hs & Hl & Hd) Hlt]. unfold valid_task.
    rewrite Hsh. repeat split; try assumption; try apply Hi.
    apply (Hother _ Hd Hlt). }
  assert (Hsrc : forall t a, In t tasks ->
                   bufs s1 (data (snd t)) a = bufs s (data (snd t)) a).
  { intros t a Hin.
    destruct (proj1 (Forall_forall _ _) Hvalid t Hin)
      as [(_ & _ & _ & Hd) Hlt].
    apply (Hother _ Hd Hlt). }
  assert (Hloop : forall tasks', Permutation tasks tasks' ->
            task_loop out tasks' s1 = (after tasks', Ok tt)).
  { intros tasks' Hperm. apply acc_loop_bumps.
    - exact HX.
    - eapply Permutation_Forall; eassumption.
    - intros t a Hin. apply Hsrc.
      eapply Permutation_in; [apply Permutation_sym |]; eassumption. }
  split.
  - rewrite scatter_perform_eq. unfold bind at 1. rewrite Hstart.
    rewrite (scatter_into_tasks self y idx out s1 tasks);
      try assumption; try congruence.
    + unfold bind. rewrite (Hloop _ (Permutation_refl _)). reflexivity.
    + rewrite (one_to_one_shape out x y Hsh). exact Hjoint.
    + rewrite (scatter_tasks_shape out x y idx Hsh). exact Htasks.
  - intros tasks' Hperm. split; [apply Hloop; exact Hperm |].
    intros r m Hr Hm. subst after. cbv beta.
    unfold read at 1. rewrite apply_bumps_at.
    fold (read s1 out (r :: m)).
    rewrite Hread
      by (destruct Hx as (Hn & _); unfold ndim in Hn;
          destruct (shape x) as [| d ds]; [simpl in Hn; lia |];
          apply indices_of_cons; eauto).
    f_equal. rewrite bumps_at_element; try assumption.
    + unfold contributions. rewrite Hsh. reflexivity.
    + rewrite Hsh. exact Hr.
    + rewrite Hsh. exact Hm.
    + eapply Forall_impl;
        [| eapply Permutation_Forall; [exact Hperm | exact HvX]].
      intros t Ht. apply Ht.
Qed.





Example accumulate_duplicates_example :
  let r := GpuAdvancedIncSubtensor1.perform
             (mkIncOp false false) (matrix 0 3 2) (matrix 1 2 2) [0; 0]
             zeros_and_ones in
  snd r = Ok (matrix 2 3 2) /\
  tolist2 (fst r) (matrix 2 3 2) = [[2; 2]; [0; 0]; [0; 0]] /\
  tolist2 (fst (task_loop (matrix 2 3 2) (rev two_rows_to_row_0)
                          (start_store (mkIncOp false false) zeros_and_ones
                                       (matrix 0 3 2))))
          (matrix 2 3 2)
  = [[2; 2]; [0; 0]; [0; 0]].
Proof. repeat split; reflexivity. Qed.

(** A broadcast source added to a row named twice counts twice. *)
Example accumulate_broadcast_example :
  let s := store_of [[[0; 0]; [0; 0]; [0; 0]]; [[5; 7]]] in
  let r := GpuAdvancedIncSubtensor1.perform
             (mkIncOp true false) (matrix 0 3 2) (matrix 1 1 2) [2; -1; 0] s in
  snd r = Ok (matrix 0 3 2) /\
  tolist2 (fst r) (matrix 0 3 2) = [[5; 7]; [0; 0]; [10; 14]].
Proof. split; reflexivity. Qed.

(** ** The half-float [atomicAdd] *)

Module AtomicHalfFacts.
Import AtomicHalf.

Lemma byte_div w k : 0 <= k -> byte w k = (w / 2 ^ (8 * k)) mod 256.
Proof.
  intros Hk. unfold byte. change 255 with (Z.ones 8).
  rewrite Z.land_ones by lia. rewrite Z.shiftr_div_pow2 by lia. reflexivity.
Qed.

Lemma lo16_mod w : lo16 w = w mod 65536.
Proof.
  unfold lo16. change 65535 with (Z.ones 16).
  rewrite Z.land_ones by lia. reflexivity.
Qed.

Lemma hi16_mod w : hi16 w = (w / 65536) mod 65536.
Proof.
  unfold hi16. change 65535 with (Z.ones 16).
  rewrite Z.land_ones by lia. rewrite Z.shiftr_div_pow2 by lia. reflexivity.
Qed.

Ltac eval_selectors :=
  unfold byte_perm, selected;
  repeat match goal with
  | |- context [Z.land (Z.shiftr ?s ?k) 7] =>
      let v := eval vm_compute in (Z.land (Z.shiftr s k) 7) in
      change (Z.land (Z.shiftr s k) 7) with v
  end;
  repeat match goal with
  | |- context [?a <? 4] =>
      let v := eval vm_compute in (a <? 4) in change (a <? 4) with v
  end;
  cbv iota;
  repeat match goal with
  | |- context [?a - 4] =>
      let v := eval vm_compute in (a - 4) in change (a - 4) with v
  end.

Ltac to_div_mod :=
  rewrite ?lo16_mod, ?hi16_mod, ?byte_div by lia;
  repeat match goal with
  | |- context [2 ^ ?k] =>
      let v := eval vm_compute in (2 ^ k) in change (2 ^ k) with v
  end;
  Z.div_mod_to_equations; lia.

(** [0x5410] keeps the lower half of [x] and puts the lower half of [y]
    above it; [0x3254] keeps the upper half of [x] and puts the lower
    half of [y] below it. *)
Lemma perm_5410 x y :
  lo16 (byte_perm x y 0x5410) = lo16 x /\
  hi16 (byte_perm x y 0x5410) = lo16 y.
Proof. split; eval_selectors; to_div_mod. Qed.

Lemma perm_3254 x y :
  lo16 (byte_perm x y 0x3254) = lo16 y /\
  hi16 (byte_perm x y 0x3254) = hi16 x.
Proof. split; eval_selectors; to_div_mod. Qed.

(** [0x4432] extracts the upper half of [x], [0x4410] the lower half. *)
Lemma perm_4432 x : lo16 (byte_perm x 0 0x4432) = hi16 x.
Proof. eval_selectors. to_div_mod. Qed.

Lemma perm_4410 x : lo16 (byte_perm x 0 0x4410) = lo16 x.
Proof. eval_selectors. to_div_mod. Qed.

End AtomicHalfFacts.

Section CasLoop.
Import AtomicHalf AtomicHalfFacts.
Variable half_add : Z -> Z -> Z.
Variable addr : Z.
Variable val : Z.


Lemma lo16_idem w : lo16 (lo16 w) = lo16 w.
Proof. rewrite !lo16_mod. apply Z.mod_mod. lia. Qed.

Lemma extract_target w : extract addr w = target_half addr w.
Proof.
  unfold AtomicHalf.extract, AtomicHalf.target_half.
  destruct (upper addr); [apply perm_4432 | apply perm_4410].
Qed.

(** A successful exchange adds [val] to the targeted half and leaves the
    other half as it was. *)
Lemma new_word_halves w :
  target_half addr (new_word half_add addr val w)
  = lo16 (half_add val (target_half addr w)) /\
  other_half addr (new_word half_add addr val w) = other_half addr w.
Proof.
  unfold AtomicHalf.new_word. rewrite extract_target.
  unfold AtomicHalf.target_half, AtomicHalf.other_half.
  destruct (upper addr).
  - destruct (perm_5410 w (lo16 (half_add val (hi16 w)))) as [Hl Hh].
    rewrite Hl, Hh, lo16_idem. auto.
  - destruct (perm_3254 w (lo16 (half_add val (lo16 w)))) as [Hl Hh].
    rewrite Hl, Hh, lo16_idem. auto.
Qed.

Lemma done_count_app l1 l2 :
  done_count (l1 ++ l2) = (done_count l1 + done_count l2)%nat.
Proof. unfold done_count. rewrite filter_app, length_app. reflexivity. Qed.

Lemma pending_app l1 l2 : pending (l1 ++ l2) = (pending l1 + pending l2)%nat.
Proof. unfold pending. rewrite filter_app, length_app. reflexivity. Qed.

Lemma step_inv w0 s s' :
  step half_add addr val s s' ->
  cas_inv half_add addr val w0 s -> cas_inv half_add addr val w0 s'.
Proof.
  intros Hstep [Ht Ho]. destruct Hstep as [w l1 t l2 w' t' Hts].
  unfold cas_inv in *. simpl word in *. simpl threads in *.
  rewrite done_count_app in *. simpl in Ht |- *.
  destruct t as [| old | r]; simpl in Hts; [| | discriminate].
  - injection Hts as <- <-. unfold done_count in *. simpl in *. auto.
  - injection Hts as <- <-.
    rewrite (Z.eqb_sym old w).
    destruct (Z.eqb_spec w old) as [-> | Hne].
    + destruct (new_word_halves old) as [Hnt Hno].
      rewrite Hnt, Hno, Ht. split; [| exact Ho].
      unfold done_count. simpl. rewrite Nat.add_succ_r. reflexivity.
    + unfold done_count in *. simpl in *. auto.
Qed.

Lemma steps_inv w0 n s s' :
  steps half_add addr val n s s' ->
  cas_inv half_add addr val w0 s -> cas_inv half_add addr val w0 s'.
Proof.
  induction 1 as [| n s1 s2 s3 Hstep _ IH]; intros Hinv; [assumption |].
  apply IH. eapply step_inv; eassumption.
Qed.

Lemma step_length s s' :
  step half_add addr val s s' -> length (threads s') = length (threads s).
Proof.
  intros [w l1 t l2 w' t' _]. simpl. rewrite !length_app. reflexivity.
Qed.

Lemma steps_length n s s' :
  steps half_add addr val n s s' -> length (threads s') = length (threads s).
Proof.
  induction 1 as [| n s1 s2 s3 Hstep _ IH]; [reflexivity |].
  rewrite IH. apply step_length. assumption.
Qed.

Lemma all_done_count s :
  all_done s -> done_count (threads s) = length (threads s).
Proof.
  unfold all_done, done_count. intros H.
  induction (threads s) as [| t l IH]; [reflexivity |].
  simpl in H. apply andb_true_iff in H. destruct H as [Ht Hl].
  simpl. rewrite Ht. simpl. f_equal. apply IH. assumption.
Qed.

End CasLoop.

Section CasProgress.
Import AtomicHalf AtomicHalfFacts.
Variable half_add : Z -> Z -> Z.
Variable addr : Z.
Variable val : Z.

Lemma rank_sum_app w l1 l2 :
  rank_sum w (l1 ++ l2) = (rank_sum w l1 + rank_sum w l2)%nat.
Proof. unfold rank_sum. rewrite map_app, list_sum_app. reflexivity. Qed.

(** Changing the word costs each pending thread at most one step. *)
Lemma rank_sum_change w w' l :
  (rank_sum w' l <= rank_sum w l + pending l)%nat.
Proof.
  unfold rank_sum, pending. induction l as [| t l IH]; simpl; [lia |].
  destruct t as [| old | r]; simpl.
  - lia.
  - destruct (old =? w'), (old =? w); lia.
  - lia.
Qed.

Lemma rank_sum_single w t : rank_sum w [t] = rank w t.
Proof. unfold rank_sum. simpl. lia. Qed.

Lemma pending_single t : pending [t] = if is_done t then 0%nat else 1%nat.
Proof. unfold pending. simpl. destruct (is_done t); reflexivity. Qed.

Lemma step_potential s s' :
  step half_add addr val s s' -> (potential s' < potential s)%nat.
Proof.
  intros [w l1 t l2 w' t' Hts]. unfold potential. simpl word. simpl threads.
  change (t :: l2) with ([t] ++ l2). change (t' :: l2) with ([t'] ++ l2).
  rewrite !rank_sum_app, !pending_app, !rank_sum_single, !pending_single.
  destruct t as [| old | r]; simpl in Hts; [| | discriminate].
  - injection Hts as <- <-. simpl. rewrite Z.eqb_refl.
    apply (proj1 (Nat.add_lt_mono_r _ _ _)). lia.
  - injection Hts as <- <-. rewrite (Z.eqb_sym old w).
    destruct (Z.eqb_spec w old) as [-> | Hne]; simpl.
    + pose proof (rank_sum_change old (new_word half_add addr val old) l1).
      pose proof (rank_sum_change old (new_word half_add addr val old) l2).
      rewrite Z.eqb_refl. nia.
    + rewrite Z.eqb_refl.
      replace (old =? w) with false
        by (symmetry; apply Z.eqb_neq; congruence).
      apply (proj1 (Nat.add_lt_mono_r _ _ _)). lia.
Qed.

Lemma steps_potential n s s' :
  steps half_add addr val n s s' -> (n + potential s' <= potential s)%nat.
Proof.
  induction 1 as [| n s1 s2 s3 Hstep _ IH]; [lia |].
  apply step_potential in Hstep. lia.
Qed.

Lemma rank_sum_start w N : rank_sum w (repeat Start N) = (2 * N)%nat.
Proof.
  unfold rank_sum. induction N as [| N IH]; simpl; [reflexivity |].
  simpl in IH. rewrite IH. lia.
Qed.

Lemma pending_start N : pending (repeat Start N) = N.
Proof.
  unfold pending. induction N as [| N IH]; simpl; [reflexivity |].
  rewrite IH. reflexivity.
Qed.

Lemma init_potential N w0 : potential (init N w0) = (2 * N + N * N)%nat.
Proof.
  unfold potential, init. simpl word. simpl threads.
  rewrite rank_sum_start, pending_start. reflexivity.
Qed.

(** While a thread has not returned, some thread can take a step. *)
Lemma progress s :
  ~ all_done s -> exists s', step half_add addr val s s'.
Proof.
  destruct s as [w l]. unfold all_done. simpl threads. intros Hnd.
  assert (Hex : exists l1 t l2, l = l1 ++ t :: l2 /\ is_done t = false).
  { induction l as [| t l IH]; [exfalso; apply Hnd; reflexivity |].
    destruct (is_done t) eqn:Et.
    - destruct IH as (l1 & t' & l2 & -> & Ht').
      + intros Hl. apply Hnd. simpl. rewrite Et, Hl. reflexivity.
      + exists (t :: l1), t', l2. split; [reflexivity | assumption].
    - exists [], t, l. split; [reflexivity | assumption]. }
  destruct Hex as (l1 & t & l2 & -> & Ht).
  destruct (thread_step half_add addr val w t) as [[w' t'] |] eqn:Ets.
  - eexists. constructor. exact Ets.
  - destruct t; simpl in *; discriminate.
Qed.

End CasProgress.

(** C9.  [N] threads add [val] to the same half-float through the
    compare-and-swap loop, their steps interleaved in any way.  Along
    every execution: the half of the word that is not targeted keeps its
    initial value; the targeted half holds one rounded addition of [val]
    for each thread that has returned, so that once all have returned it
    holds all [N] of them and no update is lost; an execution has at most
    [N * N + 2 * N] steps; and until every thread has returned some
    thread can step.  The half-float arithmetic is the parameter
    [half_add]. *)
Theorem atomic_add_no_lost_update
  (half_add : Z -> Z -> Z) (addr val : Z) (N : nat) (w0 : Z)
  (n : nat) (s : AtomicHalf.sys) :
  AtomicHalf.steps half_add addr val n (AtomicHalf.init N w0) s ->
  (n <= N * N + 2 * N)%nat /\
  AtomicHalf.other_half addr (AtomicHalf.word s)
  = AtomicHalf.other_half addr w0 /\
  AtomicHalf.target_half addr (AtomicHalf.word s)
  = AtomicHalf.sum_of half_add val (done_count (AtomicHalf.threads s))
                      (AtomicHalf.target_half addr w0) /\
  (AtomicHalf.all_done s ->
   AtomicHalf.target_half addr (AtomicHalf.word s)
   = AtomicHalf.sum_of half_add val N (AtomicHalf.target_half addr w0)) /\
  (~ AtomicHalf.all_done s ->
   exists s', AtomicHalf.step half_add addr val s s').
Proof.
  intros Hsteps.
  assert (Hinv : cas_inv half_add addr val w0 s).
  { eapply steps_inv; [exact Hsteps |]. unfold cas_inv. simpl.
    unfold done_count. clear Hsteps.
    assert (H0 : filter AtomicHalf.is_done (repeat AtomicHalf.Start N) = []).
    { induction N as [| k IH]; simpl; [reflexivity | exact IH]. }
    rewrite H0. auto. }
  destruct Hinv as [Ht Ho].
  split.
  - pose proof (steps_potential half_add addr val n _ _ Hsteps) as Hp.
    rewrite init_potential in Hp. lia.
  - split; [exact Ho |]. split; [exact Ht |]. split.
    + intros Hd. rewrite Ht. f_equal.
      rewrite (all_done_count s Hd).
      rewrite (steps_length half_add addr val n _ _ Hsteps).
      apply repeat_length.
    + apply progress.
Qed.

Lemma atomic_add_no_lost_update_witness :
  AtomicHalf.steps int_add 2 1 5 (AtomicHalf.init 2 0x00050003) contended_run /\
  (5 <= 2 * 2 + 2 * 2)%nat /\
  AtomicHalf.other_half 2 (AtomicHalf.word contended_run)
  = AtomicHalf.other_half 2 0x00050003 /\
  AtomicHalf.target_half 2 (AtomicHalf.word contended_run)
  = AtomicHalf.sum_of int_add 1
      (done_count (AtomicHalf.threads contended_run))
      (AtomicHalf.target_half 2 0x00050003) /\
  (AtomicHalf.all_done contended_run ->
   AtomicHalf.target_half 2 (AtomicHalf.word contended_run)
   = AtomicHalf.sum_of int_add 1 2 (AtomicHalf.target_half 2 0x00050003)) /\
  (~ AtomicHalf.all_done contended_run ->
   exists s', AtomicHalf.step int_add 2 1 contended_run s').
Proof.
  assert (H : AtomicHalf.steps int_add 2 1 5 (AtomicHalf.init 2 0x00050003)
                               contended_run).
  { eapply AtomicHalf.steps_S;
      [apply (AtomicHalf.step_thread int_add 2 1 _ [] AtomicHalf.Start
                [AtomicHalf.Start]); reflexivity |].
    eapply AtomicHalf.steps_S;
      [apply (AtomicHalf.step_thread int_add 2 1 _ [AtomicHalf.Loop 0x00050003]
                AtomicHalf.Start []); reflexivity |].
    eapply AtomicHalf.steps_S;
      [apply (AtomicHalf.step_thread int_add 2 1 _ []
                (AtomicHalf.Loop 0x00050003) [AtomicHalf.Loop 0x00050003]);
       reflexivity |].
    eapply AtomicHalf.steps_S;
      [apply (AtomicHalf.step_thread int_add 2 1 _ [AtomicHalf.Done 5]
                (AtomicHalf.Loop 0x00050003) []); reflexivity |].
    eapply AtomicHalf.steps_S;
      [apply (AtomicHalf.step_thread int_add 2 1 _ [AtomicHalf.Done 5]
                (AtomicHalf.Loop 0x00060003) []); reflexivity |].
    apply AtomicHalf.steps_O. }
  split; [exact H |].
  exact (atomic_add_no_lost_update int_add 2 1 2 0x00050003 5 contended_run H).
Defined.

Example contended_run_result :
  AtomicHalf.word contended_run = 0x00070003 /\
  AtomicHalf.hi16 0x00070003 = 7 /\ AtomicHalf.lo16 0x00070003 = 3 /\
  AtomicHalf.threads contended_run
  = [AtomicHalf.Done 5; AtomicHalf.Done 6].
Proof. repeat split; reflexivity. Qed.

(** * Further properties of the code *)

(** ** The normalizer *)

Lemma c_adjust_bounds v step len :
  in_ssize v -> 0 <= len <= SSIZE_MAX -> step <> 0 ->
  (0 < step -> 0 <= c_adjust v step len <= len) /\
  (step < 0 -> -1 <= c_adjust v step len <= len - 1).
Proof.
  intros Hv Hl Hs. rewrite c_adjust_py by assumption.
  pose proof (py_start_bounds len step (Some v) ltac:(lia) Hs) as H.
  exact H.
Qed.

Lemma fix_indices_bounds
  (start stop step : Z) (start_n stop_n step_n : bool) (len a b c : Z) :
  0 <= len <= SSIZE_MAX ->
  in_ssize start -> in_ssize stop -> in_ssize step ->
  fix_indices start stop step start_n stop_n step_n len = Ok (a, b, c) ->
  c = (if step_n then 1 else step) /\ c <> 0 /\
  (0 < c -> 0 <= a <= b /\ b <= len) /\
  (c < 0 -> -1 <= a <= len - 1 /\ -1 <= b <= len - 1).
Proof.
  intros Hl Ha Hb Hc H. rewrite fix_indices_unfold in H. cbv zeta in H.
  set (c' := if step_n then 1 else step) in *.
  destruct (Z.eqb_spec c' 0) as [| Hc0]; [discriminate |].
  injection H as <- <- <-.
  split; [reflexivity |]. split; [assumption |].
  assert (Hs : (0 < c' -> 0 <= (if start_n
                    then to_ssize (if c' <? 0 then to_size (len - 1) else 0)
                    else c_adjust start c' len) <= len) /\
               (c' < 0 -> -1 <= (if start_n
                    then to_ssize (if c' <? 0 then to_size (len - 1) else 0)
                    else c_adjust start c' len) <= len - 1)).
  { destruct start_n.
    - rewrite omitted_start by assumption.
      apply py_start_bounds; lia.
    - apply c_adjust_bounds; assumption. }
  assert (Ht : (0 < c' -> 0 <= (if stop_n
                    then to_ssize (if c' <? 0 then to_size (-1) else len)
                    else c_adjust stop c' len) <= len) /\
               (c' < 0 -> -1 <= (if stop_n
                    then to_ssize (if c' <? 0 then to_size (-1) else len)
                    else c_adjust stop c' len) <= len - 1)).
  { destruct stop_n.
    - rewrite omitted_stop by assumption.
      apply py_stop_bounds; lia.
    - apply c_adjust_bounds; assumption. }
  destruct Hs as [Hsp Hsn], Ht as [Htp Htn].
  split; intros Hsign.
  - specialize (Hsp Hsign). specialize (Htp Hsign).
    split_ifs; bool_to_prop; lia.
  - specialize (Hsn Hsign). specialize (Htn Hsign).
    split_ifs; bool_to_prop; lia.
Qed.

(** X1.  On an axis of length [len] (at most [SSIZE_MAX]) and for
    [ssize_t] arguments, the triple [fix_indices] returns has the step it
    was given (1 when the step was omitted), which is never 0.  For a
    positive step [0 <= start <= stop <= len]: the range is never
    inverted.  For a negative step start and stop lie in
    [[-1, len - 1]]. *)
Theorem fix_indices_keeps_the_axis_bounds
  (start stop step : Z) (start_n stop_n step_n : bool) (len a b c : Z) :
  0 <= len <= SSIZE_MAX ->
  in_ssize start -> in_ssize stop -> in_ssize step ->
  fix_indices start stop step start_n stop_n step_n len = Ok (a, b, c) ->
  c = (if step_n then 1 else step) /\ c <> 0 /\
  (0 < c -> 0 <= a <= b /\ b <= len) /\
  (c < 0 -> -1 <= a <= len - 1 /\ -1 <= b <= len - 1).
Proof. apply fix_indices_bounds. Qed.

Lemma c_adjust_forward_fixed v step len :
  0 <= len <= SSIZE_MAX -> 0 < step -> 0 <= v <= len ->
  c_adjust v step len = v.
Proof.
  intros Hl Hs Hv. rewrite c_adjust_py
    by (unfold in_ssize, SSIZE_MIN, SSIZE_MAX in *; lia).
  unfold PyRef.adjust. split_ifs; bool_to_prop; lia.
Qed.

Lemma c_adjust_backward_wraps v step len :
  0 <= len <= SSIZE_MAX -> step < 0 -> -1 <= v <= len - 1 ->
  c_adjust v step len = wrap len v.
Proof.
  intros Hl Hs Hv. rewrite c_adjust_py
    by (unfold in_ssize, SSIZE_MIN, SSIZE_MAX in *; lia).
  unfold PyRef.adjust, wrap. cbv zeta. split_ifs; bool_to_prop; lia.
Qed.

(** X2.  Normalizing twice.  A triple [fix_indices] returned with a
    positive step comes back unchanged when it is passed to [fix_indices]
    again as three present fields.  With a negative step the second pass
    reads a start or stop of [-1], the mark of the beginning of the axis,
    as [len - 1]: a triple that ran down to the first element then
    selects nothing. *)
Theorem fix_indices_twice
  (start stop step : Z) (start_n stop_n step_n : bool) (len a b c : Z) :
  0 <= len <= SSIZE_MAX ->
  in_ssize start -> in_ssize stop -> in_ssize step ->
  fix_indices start stop step start_n stop_n step_n len = Ok (a, b, c) ->
  (0 < c -> fix_indices a b c false false false len = Ok (a, b, c)) /\
  (c < 0 ->
   fix_indices a b c false false false len
   = Ok (wrap len a, wrap len b, c) /\
   (b = -1 -> 0 <= a ->
    triple_selects (a, b, c) <> [] /\
    triple_selects (wrap len a, wrap len b, c) = [])).
Proof.
  intros Hl Ha Hb Hc H.
  destruct (fix_indices_bounds _ _ _ _ _ _ _ _ _ _
              Hl Ha Hb Hc H) as (_ & Hc0 & Hpos & Hneg).
  split; intros Hsign.
  - destruct (Hpos Hsign) as [Hab Hbl].
    rewrite fix_indices_unfold. cbv zeta. cbv iota.
    destruct (Z.eqb_spec c 0); [contradiction |].
    rewrite !c_adjust_forward_fixed by lia.
    replace (b <? a) with false by (symmetry; apply Z.ltb_ge; lia).
    reflexivity.
  - destruct (Hneg Hsign) as [Hab Hbl]. split.
    + rewrite fix_indices_unfold. cbv zeta. cbv iota.
      destruct (Z.eqb_spec c 0); [contradiction |].
      rewrite !c_adjust_backward_wraps by lia.
      replace (c >? 0) with false
        by (symmetry; rewrite Z.gtb_ltb; apply Z.ltb_ge; lia).
      rewrite andb_false_r. reflexivity.
    + intros -> Ha0. unfold triple_selects, PyRef.range, PyRef.range_len, wrap.
      replace (0 <? c) with false by (symmetry; apply Z.ltb_ge; lia).
      replace (c <? 0) with true by (symmetry; apply Z.ltb_lt; lia).
      replace (-1 <? a) with true by (symmetry; apply Z.ltb_lt; lia).
      replace (a <? 0) with false by (symmetry; apply Z.ltb_ge; lia).
      change (-1 <? 0) with true. cbv iota.
      replace (-1 + len <? a) with false by (symmetry; apply Z.ltb_ge; lia).
      split; [| reflexivity].
      assert (0 <= (a - -1 - 1) / - c) by (apply Z.div_pos; lia).
      destruct (Z.to_nat ((a - -1 - 1) / - c + 1)) eqn:E; [lia |].
      simpl. discriminate.
Qed.

Lemma fix_indices_keeps_the_axis_bounds_witness :
  exists a b c,
    fix_indices 0 0 (-2) true true false 5 = Ok (a, b, c) /\
    c = -2 /\ c <> 0 /\
    (0 < c -> 0 <= a <= b /\ b <= 5) /\
    (c < 0 -> -1 <= a <= 5 - 1 /\ -1 <= b <= 5 - 1).
Proof.
  exists 4, (-1), (-2). split; [reflexivity |].
  apply (fix_indices_keeps_the_axis_bounds 0 0 (-2) true true false 5 4 (-1) (-2));
    unfold in_ssize, SSIZE_MIN, SSIZE_MAX; try lia. reflexivity.
Defined.

Lemma fix_indices_twice_witness :
  (0 < -1 -> fix_indices 4 (-1) (-1) false false false 5 = Ok (4, -1, -1)) /\
  (-1 < 0 ->
   fix_indices 4 (-1) (-1) false false false 5
   = Ok (wrap 5 4, wrap 5 (-1), -1) /\
   (-1 = -1 -> 0 <= 4 ->
    triple_selects (4, -1, -1) <> [] /\
    triple_selects (wrap 5 4, wrap 5 (-1), -1) = [])).
Proof.
  apply (fix_indices_twice 0 0 (-1) true true false 5 4 (-1) (-1));
    unfold in_ssize, SSIZE_MIN, SSIZE_MAX; try lia. reflexivity.
Defined.

(** A forward triple is kept; the triple of the reversed axis is not. *)
Example normalize_twice :
  fix_indices 2 8 2 false false false 10 = Ok (2, 8, 2) /\
  fix_indices 4 (-1) (-1) false false false 5 = Ok (4, 4, -1) /\
  triple_selects (4, 4, -1) = [].
Proof. repeat split; reflexivity. Qed.

(** ** The code generator and the key of [perform] *)

Lemma fix_idx_none f indices :
  GpuSubtensor.fix_idx f indices = None <->
  (length indices < field_inputs f)%nat.
Proof.
  destruct f; simpl; try (split; [discriminate | lia]).
  destruct indices; simpl; split; try discriminate; try lia; reflexivity.
Qed.

Lemma fix_idx_some f indices e n rest :
  GpuSubtensor.fix_idx f indices = Some (e, n, rest) ->
  rest = skipn (field_inputs f) indices /\
  (field_inputs f <= length indices)%nat.
Proof.
  destruct f; simpl.
  - intros [= <- <- <-]. split; [reflexivity | lia].
  - intros [= <- <- <-]. split; [reflexivity | lia].
  - destruct indices; [discriminate |]. intros [= <- <- <-].
    split; [reflexivity | simpl; lia].
Qed.

Lemma axes_code_none idx_list : forall indices,
  GpuSubtensor.axes_code idx_list indices = None <->
  (length indices < inputs_needed idx_list)%nat.
Proof.
  induction idx_list as [| en rest IH]; intros indices.
  - simpl. split; [discriminate | lia].
  - destruct en as [v | | a b c]; cbn [GpuSubtensor.axes_code inputs_needed entry_inputs].
    + destruct (GpuSubtensor.axes_code rest indices) eqn:E.
      * split; [discriminate |]. intros H.
        assert (Hn : GpuSubtensor.axes_code rest indices = None)
          by (apply IH; lia). congruence.
      * split; [| reflexivity]. intros _.
        apply IH in E. lia.
    + destruct indices as [| name indices].
      * simpl. split; [lia | reflexivity].
      * destruct (GpuSubtensor.axes_code rest indices) eqn:E.
        -- split; [discriminate |]. intros H. simpl in H.
           assert (Hn : GpuSubtensor.axes_code rest indices = None)
             by (apply IH; lia). congruence.
        -- split; [| reflexivity]. intros _. apply IH in E. simpl. lia.
    + destruct (GpuSubtensor.fix_idx a indices) as [[[ea na] i1] |] eqn:Ea.
      2:{ apply fix_idx_none in Ea. split; [lia | reflexivity]. }
      apply fix_idx_some in Ea. destruct Ea as [-> La].
      destruct (GpuSubtensor.fix_idx b _) as [[[eb nb] i2] |] eqn:Eb.
      2:{ apply fix_idx_none in Eb. rewrite length_skipn in Eb.
          split; [lia | reflexivity]. }
      apply fix_idx_some in Eb. destruct Eb as [-> Lb].
      rewrite length_skipn in Lb.
      destruct (GpuSubtensor.fix_idx c _) as [[[ec nc] i3] |] eqn:Ec.
      2:{ apply fix_idx_none in Ec. rewrite !length_skipn in Ec.
          split; [lia | reflexivity]. }
      apply fix_idx_some in Ec. destruct Ec as [-> Lc].
      rewrite !length_skipn in Lc.
      destruct (GpuSubtensor.axes_code rest _) eqn:E.
      * split; [discriminate |]. intros H.
        assert (Hn : GpuSubtensor.axes_code rest
                       (skipn (field_inputs c)
                          (skipn (field_inputs b)
                             (skipn (field_inputs a) indices))) = None).
        { apply IH. rewrite !length_skipn. lia. }
        congruence.
      * split; [| reflexivity]. intros _. apply IH in E.
        rewrite !length_skipn in E. lia.
Qed.

Lemma pop_rev_cons v l :
  GpuIncSubtensor.pop (rev (v :: l)) = Ok (v, rev l).
Proof.
  unfold GpuIncSubtensor.pop. rewrite rev_involutive. reflexivity.
Qed.

Lemma pop_rev_nil : GpuIncSubtensor.pop (rev []) = Raise IndexError.
Proof. reflexivity. Qed.

(** The generator and [convert] read the runtime inputs in the same
    order: the key [convert_all] builds from the values of the inputs is
    the key the generated axes stand for. *)
Lemma fix_idx_convert env f names e n rest :
  GpuSubtensor.fix_idx f names = Some (e, n, rest) ->
  GpuIncSubtensor.convert_field f (rev (map env names))
  = Ok (field_value env e n, rev (map env rest)) /\
  (n = true -> e = GpuSubtensor.CLit 0).
Proof.
  destruct f; cbn [GpuSubtensor.fix_idx GpuIncSubtensor.convert_field].
  - intros [= <- <- <-]. split; reflexivity.
  - intros [= <- <- <-]. split; [reflexivity | discriminate].
  - destruct names as [| name names]; [discriminate |].
    intros [= <- <- <-]. split; [| discriminate].
    change (map env (name :: names)) with (env name :: map env names).
    rewrite pop_rev_cons. reflexivity.
Qed.

Lemma axes_code_convert env idx_list : forall names axes,
  GpuSubtensor.axes_code idx_list names = Some axes ->
  GpuIncSubtensor.convert_all idx_list (rev (map env names))
  = Ok (map (axis_index env) axes) /\
  Forall omitted_is_zero axes.
Proof.
  induction idx_list as [| en rest IH]; intros names axes H.
  - injection H as <-. split; [reflexivity | constructor].
  - destruct en as [v | | a b c];
      cbn [GpuSubtensor.axes_code GpuIncSubtensor.convert_all
           GpuIncSubtensor.convert] in *.
    + destruct (GpuSubtensor.axes_code rest names) as [axes' |] eqn:E;
        [| discriminate].
      injection H as <-. destruct (IH _ _ E) as [-> Hz].
      split; [reflexivity | constructor; [exact I | exact Hz]].
    + destruct names as [| name names]; [discriminate |].
      destruct (GpuSubtensor.axes_code rest names) as [axes' |] eqn:E;
        [| discriminate].
      injection H as <-. destruct (IH _ _ E) as [Hc Hz].
      change (map env (name :: names)) with (env name :: map env names).
      rewrite pop_rev_cons, Hc.
      split; [reflexivity | constructor; [exact I | exact Hz]].
    + destruct (GpuSubtensor.fix_idx a names) as [[[ea na] n1] |] eqn:Ea;
        [| discriminate].
      destruct (GpuSubtensor.fix_idx b n1) as [[[eb nb] n2] |] eqn:Eb;
        [| discriminate].
      destruct (GpuSubtensor.fix_idx c n2) as [[[ec nc] n3] |] eqn:Ec;
        [| discriminate].
      destruct (GpuSubtensor.axes_code rest n3) as [axes' |] eqn:E;
        [| discriminate].
      injection H as <-.
      destruct (fix_idx_convert env _ _ _ _ _ Ea) as [-> Za].
      destruct (fix_idx_convert env _ _ _ _ _ Eb) as [-> Zb].
      destruct (fix_idx_convert env _ _ _ _ _ Ec) as [-> Zc].
      destruct (IH _ _ E) as [-> Hz].
      split; [reflexivity |].
      constructor; [simpl; auto | exact Hz].
Qed.

Lemma axes_code_app l1 : forall l2 names,
  GpuSubtensor.axes_code (l1 ++ l2) names =
  match GpuSubtensor.axes_code l1 names with
  | None => None
  | Some axes1 =>
      match GpuSubtensor.axes_code l2 (skipn (inputs_needed l1) names) with
      | None => None
      | Some axes2 => Some (axes1 ++ axes2)
      end
  end.
Proof.
  induction l1 as [| en rest IH]; intros l2 names.
  - simpl. destruct (GpuSubtensor.axes_code l2 names); reflexivity.
  - destruct en as [v | | a b c];
      cbn [app GpuSubtensor.axes_code inputs_needed entry_inputs].
    + rewrite IH. simpl.
      destruct (GpuSubtensor.axes_code rest names); [| reflexivity].
      destruct (GpuSubtensor.axes_code l2 _); reflexivity.
    + destruct names as [| name names].
      * reflexivity.
      * rewrite IH. simpl.
        destruct (GpuSubtensor.axes_code rest names); [| reflexivity].
        destruct (GpuSubtensor.axes_code l2 _); reflexivity.
    + destruct (GpuSubtensor.fix_idx a names) as [[[ea na] n1] |] eqn:Ea;
        [| reflexivity].
      destruct (GpuSubtensor.fix_idx b n1) as [[[eb nb] n2] |] eqn:Eb;
        [| reflexivity].
      destruct (GpuSubtensor.fix_idx c n2) as [[[ec nc] n3] |] eqn:Ec;
        [| reflexivity].
      apply fix_idx_some in Ea, Eb, Ec.
      destruct Ea as [-> _], Eb as [-> _], Ec as [-> _].
      rewrite IH. rewrite !skipn_skipn.
      replace (inputs_needed rest
               + (field_inputs c + field_inputs b + field_inputs a))%nat
        with (field_inputs a + field_inputs b + field_inputs c
              + inputs_needed rest)%nat by lia.
      destruct (GpuSubtensor.axes_code rest _); [| reflexivity].
      destruct (GpuSubtensor.axes_code l2 _); reflexivity.
Qed.

Lemma axes_code_full n names :
  GpuSubtensor.axes_code (repeat full_slice n) names
  = Some (repeat full_axis n).
Proof.
  induction n as [| n IH]; [reflexivity |].
  cbn [repeat]. unfold full_slice at 1.
  cbn [GpuSubtensor.axes_code GpuSubtensor.fix_idx].
  rewrite IH. reflexivity.
Qed.

Lemma exec_axis_full env d :
  0 <= d <= SSIZE_MAX ->
  GpuSubtensor.exec_axis env d full_axis = Ok (0, d, 1).
Proof.
  intros Hd. unfold full_axis. cbn [GpuSubtensor.exec_axis GpuSubtensor.eval].
  rewrite fix_indices_unfold. cbv zeta. cbv iota.
  change (1 =? 0) with false. cbv iota.
  rewrite omitted_start, omitted_stop by assumption.
  unfold py_start, py_stop. change (1 <? 0) with false. cbv iota.
  replace (d <? 0) with false by (symmetry; apply Z.ltb_ge; lia).
  reflexivity.
Qed.

Lemma exec_axes_full env dims :
  Forall (fun d => 0 <= d <= SSIZE_MAX) dims ->
  GpuSubtensor.exec_axes env dims (repeat full_axis (length dims))
  = Ok (whole dims).
Proof.
  induction 1 as [| d ds Hd Hds IH]; [reflexivity |].
  cbn [length repeat GpuSubtensor.exec_axes].
  rewrite exec_axis_full by assumption. rewrite IH. reflexivity.
Qed.

Lemma slice_indices_eq len start stop step :
  step <> Some 0 ->
  PyRef.slice_indices start stop step len
  = Ok (py_start len (py_step step) start, py_stop len (py_step step) stop,
        py_step step).
Proof.
  intros Hz. unfold PyRef.slice_indices. fold (py_step step).
  replace (py_step step =? 0) with false; [reflexivity |].
  symmetry. apply Z.eqb_neq.
  destruct step as [c |]; simpl; [congruence | lia].
Qed.

Lemma normalize_zero_step len start stop :
  normalize_slice len start stop (Some 0) = Raise ValueError.
Proof. destruct start, stop; reflexivity. Qed.

Lemma field_value_to_ssize env e n :
  (n = true -> e = GpuSubtensor.CLit 0) ->
  opt_in_ssize (field_value env e n) ->
  (to_ssize (GpuSubtensor.eval env e), n)
  = fix_idx_value (field_value env e n).
Proof.
  unfold field_value. destruct n; simpl.
  - intros H _. rewrite (H eq_refl). reflexivity.
  - intros _ H. rewrite to_ssize_id by assumption. reflexivity.
Qed.

Lemma exec_axis_slice env d a b c an bn cn :
  omitted_is_zero (GpuSubtensor.AxisSlice a b c an bn cn) ->
  valid_index d (axis_index env (GpuSubtensor.AxisSlice a b c an bn cn)) ->
  GpuSubtensor.exec_axis env d (GpuSubtensor.AxisSlice a b c an bn cn)
  = normalize_slice d (field_value env a an) (field_value env b bn)
                    (field_value env c cn).
Proof.
  intros (Za & Zb & Zc) (Va & Vb & Vc).
  unfold normalize_slice.
  rewrite <- (field_value_to_ssize env a an Za Va).
  rewrite <- (field_value_to_ssize env b bn Zb Vb).
  rewrite <- (field_value_to_ssize env c cn Zc Vc).
  reflexivity.
Qed.

Lemma extent_closed a b c :
  0 < c -> b < a -> Pygpu.extent a a c = Pygpu.extent a b c.
Proof.
  intros Hc Hb. unfold Pygpu.extent.
  replace (- (a - a)) with 0 by lia. rewrite Z.div_0_l by lia.
  assert (0 <= (- (b - a)) / c) by (apply Z.div_pos; lia).
  lia.
Qed.

Lemma exec_axes_key_triples env axes : forall dims st n,
  Forall omitted_is_zero axes ->
  (length axes + n = length dims)%nat ->
  Forall (fun d => 0 <= d <= SSIZE_MAX) dims ->
  valid_key dims (map (axis_index env) axes) ->
  match GpuSubtensor.exec_axes env dims (axes ++ repeat full_axis n),
        Pygpu.key_triples dims (map (axis_index env) axes) with
  | Ok ts, Ok ts' => Pygpu.index_axes dims st ts = Pygpu.index_axes dims st ts'
  | Raise e, Raise e' => e = e'
  | _, _ => False
  end.
Proof.
  induction axes as [| ax axes IH]; intros dims st n Hz Hlen Hd Hv.
  - simpl in Hlen. subst n. cbn [app map].
    rewrite exec_axes_full by assumption. rewrite key_triples_nil.
    reflexivity.
  - destruct dims as [| d ds]; [discriminate |].
    inversion Hz as [| ? ? Hz1 Hz2]; subst.
    inversion Hd as [| ? ? Hd1 Hd2]; subst.
    cbn [map valid_key] in Hv. destruct Hv as [Hv1 Hv2].
    assert (Hlen' : (length axes + n = length ds)%nat) by (simpl in Hlen; lia).
    cbn [app map GpuSubtensor.exec_axes Pygpu.key_triples].
    destruct ax as [a b c an bn cn | e].
    + rewrite exec_axis_slice by assumption.
      cbn [axis_index].
      set (oa := field_value env a an) in *.
      set (ob := field_value env b bn) in *.
      set (oc := field_value env c cn) in *.
      cbn [axis_index valid_index] in Hv1. fold oa ob oc in Hv1.
      destruct Hv1 as (Va & Vb & Vc).
      assert (Hoc : oc = Some 0 \/ oc <> Some 0).
      { destruct oc as [z |]; [| right; discriminate].
        destruct (Z.eq_dec z 0); [left; congruence | right; congruence]. }
      destruct Hoc as [Hoc | Hoc].
      * rewrite Hoc. rewrite normalize_zero_step.
        unfold PyRef.slice_indices. reflexivity.
      * pose proof (normalize_slice_eq d oa ob oc Hd1 Va Vb Vc Hoc) as Hn.
        cbv zeta in Hn. rewrite Hn. rewrite slice_indices_eq by assumption.
        specialize (IH ds (tl st) n Hz2 Hlen' Hd2 Hv2).
        destruct (GpuSubtensor.exec_axes env ds (axes ++ repeat full_axis n))
          as [ts | e1];
          destruct (Pygpu.key_triples ds (map (axis_index env) axes))
            as [ts' | e2]; try contradiction; [| exact IH].
        destruct st as [| s ss]; [reflexivity |].
        cbn [Pygpu.index_axes]. cbn [tl] in IH. rewrite IH.
        destruct (_ || _); [reflexivity |].
        destruct (Pygpu.index_axes ds ss ts') as [[off kept] |];
          [| reflexivity].
        destruct ((py_stop d (py_step oc) ob <? py_start d (py_step oc) oa)
                  && (py_step oc >? 0)) eqn:Eb; [| reflexivity].
        bool_to_prop. rewrite (extent_closed _ (py_stop d (py_step oc) ob))
          by lia. reflexivity.
    + cbn [axis_index valid_index] in Hv1.
      cbn [axis_index GpuSubtensor.exec_axis].
      set (i := GpuSubtensor.eval env e) in *.
      assert (Hi : to_ssize i = i).
      { apply to_ssize_id. unfold in_ssize, SSIZE_MIN, SSIZE_MAX in *. lia. }
      rewrite Hi.
      assert (Hw : (if i <? 0 then to_ssize (to_size i + d) else i)
                   = (if i <? 0 then i + d else i)).
      { destruct (Z.ltb_spec i 0); [| reflexivity].
        rewrite to_size_neg
          by (unfold SSIZE_MIN, SSIZE_MAX in *; lia).
        replace (i + 2 ^ 64 + d) with (i + d + 2 ^ 64) by lia.
        apply to_ssize_shift.
        unfold in_ssize, SSIZE_MIN, SSIZE_MAX in *. lia. }
      rewrite Hw. cbv zeta.
      set (i' := if i <? 0 then i + d else i).
      assert (Hi' : 0 <= i' < d) by (subst i'; destruct (Z.ltb_spec i 0); lia).
      replace ((i' <? 0) || (i' >=? d)) with false
        by (symmetry; apply orb_false_iff; split;
            [apply Z.ltb_ge | rewrite Z.geb_leb; apply Z.leb_gt]; lia).
      specialize (IH ds (tl st) n Hz2 Hlen' Hd2 Hv2).
      destruct (GpuSubtensor.exec_axes env ds (axes ++ repeat full_axis n))
        as [ts | e1];
        destruct (Pygpu.key_triples ds (map (axis_index env) axes))
          as [ts' | e2]; try contradiction; [| exact IH].
      destruct st as [| s ss]; [reflexivity |].
      cbn [Pygpu.index_axes]. cbn [tl] in IH. rewrite IH. reflexivity.
Qed.

Lemma convert_field_rev f inputs :
  match GpuIncSubtensor.convert_field f (rev inputs) with
  | Ok (_, rest) =>
      (field_inputs f <= length inputs)%nat /\
      rest = rev (skipn (field_inputs f) inputs)
  | Raise e => e = IndexError /\ (length inputs < field_inputs f)%nat
  end.
Proof.
  destruct f; cbn [GpuIncSubtensor.convert_field field_inputs skipn].
  - split; [lia | reflexivity].
  - split; [lia | reflexivity].
  - destruct inputs as [| v inputs].
    + rewrite pop_rev_nil. split; [reflexivity | simpl; lia].
    + rewrite pop_rev_cons. split; [simpl; lia | reflexivity].
Qed.

Lemma convert_rev en inputs :
  match GpuIncSubtensor.convert en (rev inputs) with
  | Ok (_, rest) =>
      (entry_inputs en <= length inputs)%nat /\
      rest = rev (skipn (entry_inputs en) inputs)
  | Raise e => e = IndexError /\ (length inputs < entry_inputs en)%nat
  end.
Proof.
  destruct en as [v | | a b c];
    cbn [GpuIncSubtensor.convert entry_inputs skipn].
  - split; [lia | reflexivity].
  - destruct inputs as [| v inputs].
    + rewrite pop_rev_nil. split; [reflexivity | simpl; lia].
    + rewrite pop_rev_cons. split; [simpl; lia | reflexivity].
  - pose proof (convert_field_rev a inputs) as Ha.
    destruct (GpuIncSubtensor.convert_field a (rev inputs))
      as [[oa r1] | e]; [| destruct Ha; split; [assumption | lia]].
    destruct Ha as [La ->].
    pose proof (convert_field_rev b (skipn (field_inputs a) inputs)) as Hb.
    rewrite length_skipn in Hb.
    destruct (GpuIncSubtensor.convert_field b _)
      as [[ob r2] | e]; [| destruct Hb; split; [assumption | lia]].
    destruct Hb as [Lb ->].
    pose proof (convert_field_rev c
                  (skipn (field_inputs b) (skipn (field_inputs a) inputs)))
      as Hc.
    rewrite !length_skipn in Hc.
    destruct (GpuIncSubtensor.convert_field c _)
      as [[oc r3] | e]; [| destruct Hc; split; [assumption | lia]].
    destruct Hc as [Lc ->].
    split; [lia |]. rewrite !skipn_skipn. do 2 f_equal. lia.
Qed.

Lemma convert_all_rev idx_list : forall inputs,
  match GpuIncSubtensor.convert_all idx_list (rev inputs) with
  | Ok key =>
      (inputs_needed idx_list <= length inputs)%nat /\
      length key = length idx_list
  | Raise e => e = IndexError /\ (length inputs < inputs_needed idx_list)%nat
  end.
Proof.
  induction idx_list as [| en rest IH]; intros inputs.
  - simpl. split; [lia | reflexivity].
  - cbn [GpuIncSubtensor.convert_all inputs_needed].
    pose proof (convert_rev en inputs) as He.
    destruct (GpuIncSubtensor.convert en (rev inputs)) as [[k r] | e];
      [| destruct He; split; [assumption | lia]].
    destruct He as [Le ->].
    specialize (IH (skipn (entry_inputs en) inputs)).
    rewrite length_skipn in IH.
    destruct (GpuIncSubtensor.convert_all rest _) as [ks | e].
    + destruct IH as [L1 L2]. split; [lia | simpl; lia].
    + destruct IH as [-> L]. split; [reflexivity | lia].
Qed.

Lemma inputs_needed_padded idx_list n :
  inputs_needed (idx_list ++ repeat full_slice n) = inputs_needed idx_list.
Proof.
  induction idx_list as [| en rest IH].
  - induction n as [| n IH]; [reflexivity | exact IH].
  - cbn [app inputs_needed]. rewrite IH. reflexivity.
Qed.

Lemma c_code_none idx_list inp_ndim names :
  GpuSubtensor.c_code idx_list inp_ndim names = None <->
  (length names < inputs_needed idx_list)%nat.
Proof.
  unfold GpuSubtensor.c_code. fold full_slice.
  set (padded := idx_list ++ repeat full_slice (inp_ndim - length idx_list)).
  assert (Hn : inputs_needed padded = inputs_needed idx_list)
    by apply inputs_needed_padded.
  destruct (Nat.eqb_spec (length padded) 0) as [H0 | H0].
  - split; [discriminate |]. intros H.
    destruct padded; [simpl in Hn; lia | discriminate].
  - rewrite <- Hn. rewrite <- axes_code_none.
    destruct (GpuSubtensor.axes_code padded names);
      split; congruence.
Qed.

Section MissingInputs.
Context {E : ElemType}.

(** X3.  The symbolic entries of an index list stand for the runtime
    inputs, one each.  With fewer inputs than symbolic entries
    [GpuSubtensor.c_code] generates no code (its [indices.pop(0)] has
    nothing to pop) and [GpuIncSubtensor.perform] raises [IndexError]
    before it copies or writes anything.  With enough inputs the code is
    generated and [convert] gives a key with one item for each entry;
    inputs beyond those needed are ignored. *)
Theorem missing_inputs_fail_alike
  (idx_list : list entry) (inp_ndim : nat) (names : list nat)
  (inputs : list Z) (self : IncOp) (x y : GpuArray) (s : store) :
  length names = length inputs ->
  ((length inputs < inputs_needed idx_list)%nat ->
   GpuSubtensor.c_code idx_list inp_ndim names = None /\
   GpuIncSubtensor.perform self idx_list x y inputs s
   = (s, Raise IndexError)) /\
  ((inputs_needed idx_list <= length inputs)%nat ->
   (exists code, GpuSubtensor.c_code idx_list inp_ndim names = Some code) /\
   (exists key,
      GpuIncSubtensor.convert_all idx_list (rev inputs) = Ok key /\
      length key = length idx_list)).
Proof.
  intros Hlen.
  pose proof (c_code_none idx_list inp_ndim names) as Hc.
  pose proof (convert_all_rev idx_list inputs) as Hk.
  rewrite Hlen in Hc. split.
  - intros Hlt. split; [apply Hc; exact Hlt |].
    unfold GpuIncSubtensor.perform, bind at 1, lift at 1.
    destruct (GpuIncSubtensor.convert_all idx_list (rev inputs)) as [key | e].
    + destruct Hk. lia.
    + destruct Hk as [-> _]. reflexivity.
  - intros Hle. split.
    + destruct (GpuSubtensor.c_code idx_list inp_ndim names) as [code |] eqn:Ec.
      * exists code. reflexivity.
      * assert (length inputs < inputs_needed idx_list)%nat
          by (apply Hc; reflexivity).
        lia.
    + destruct (GpuIncSubtensor.convert_all idx_list (rev inputs)) as [key | e].
      * exists key. destruct Hk. auto.
      * destruct Hk. lia.
Qed.

End MissingInputs.

Section ViewAgreement.
Context {E : ElemType}.

Lemma c_code_padded idx_list inp_ndim names code :
  GpuSubtensor.c_code idx_list inp_ndim names = Some code ->
  (0 < Nat.max inp_ndim (length idx_list))%nat ->
  exists axes,
    GpuSubtensor.axes_code idx_list names = Some axes /\
    code = GpuSubtensor.IndexCode
             (Nat.max inp_ndim (length idx_list))
             (axes ++ repeat full_axis (inp_ndim - length idx_list)).
Proof.
  unfold GpuSubtensor.c_code. fold full_slice.
  intros H Hpos.
  assert (Hl : length (idx_list ++ repeat full_slice (inp_ndim - length idx_list))
               = Nat.max inp_ndim (length idx_list)).
  { rewrite length_app, repeat_length. lia. }
  rewrite Hl in H.
  destruct (Nat.eqb_spec (Nat.max inp_ndim (length idx_list)) 0); [lia |].
  rewrite axes_code_app in H.
  destruct (GpuSubtensor.axes_code idx_list names) as [axes |];
    [| discriminate].
  rewrite axes_code_full in H. injection H as <-.
  exists axes. auto.
Qed.

(** X4.  An index list with more entries than the input has axes is not
    padded: the generated code declares one axis for each entry, its rank
    check fails on the input, and running it raises [IndexError]
    ("invalid index") with the store unchanged. *)
Theorem too_many_index_entries
  (idx_list : list entry) (names : list nat) (inp : GpuArray)
  (env : nat -> Z) (s : store) (code : GpuSubtensor.ccode) :
  GpuSubtensor.c_code idx_list (ndim inp) names = Some code ->
  (ndim inp < length idx_list)%nat ->
  GpuSubtensor.exec code inp env s = (s, Raise IndexError).
Proof.
  intros Hc Hlt.
  destruct (c_code_padded _ _ _ _ Hc ltac:(lia)) as (axes & _ & ->).
  cbn [GpuSubtensor.exec].
  destruct (Nat.eqb_spec (ndim inp) (Nat.max (ndim inp) (length idx_list)));
    [lia |].
  reflexivity.
Qed.

Lemma generated_code_is_getitem
  (idx_list : list entry) (names : list nat) (inp : GpuArray)
  (env : nat -> Z) (s : store) (code : GpuSubtensor.ccode) :
  GpuSubtensor.c_code idx_list (ndim inp) names = Some code ->
  (1 <= ndim inp)%nat -> (length idx_list <= ndim inp)%nat ->
  Forall (fun d => 0 <= d <= SSIZE_MAX) (shape inp) ->
  exists cdata,
    GpuIncSubtensor.convert_all idx_list (rev (map env names)) = Ok cdata /\
    (valid_key (shape inp) cdata ->
     GpuSubtensor.exec code inp env s = (s, Pygpu.getitem inp cdata)).
Proof.
  intros Hc Hrank Hlen Hd.
  destruct (c_code_padded _ _ _ _ Hc ltac:(lia)) as (axes & Hax & ->).
  destruct (axes_code_convert env _ _ _ Hax) as [Hconv Hz].
  exists (map (axis_index env) axes). split; [exact Hconv |].
  intros Hv. cbn [GpuSubtensor.exec].
  replace (Nat.max (ndim inp) (length idx_list)) with (ndim inp) by lia.
  rewrite Nat.eqb_refl. cbn [negb]. unfold bind, lift, Pygpu.getitem.
  assert (Hn : (length axes + (ndim inp - length idx_list) = length (shape inp))%nat).
  { pose proof (axes_code_length _ _ _ Hax). unfold ndim in *. lia. }
  pose proof (exec_axes_key_triples env axes (shape inp) (strides inp)
                _ Hz Hn Hd Hv) as H.
  destruct (GpuSubtensor.exec_axes env (shape inp) _) as [ts | e1];
    destruct (Pygpu.key_triples (shape inp) _) as [ts' | e2];
    try contradiction.
  - unfold Pygpu.pygpu_index. rewrite H. reflexivity.
  - subst. reflexivity.
Qed.

(** X5.  The generated C code and Python indexing select the same view.
    For an input of rank at least 1 with extents up to [SSIZE_MAX] and an
    index list no longer than the rank, the key that [convert] builds
    from the values of the runtime inputs exists; when its integers name
    positions of their axes ([-d <= i < d]) and its slice fields are
    [ssize_t] values, running the code of [GpuSubtensor.c_code] leaves the
    store unchanged and gives exactly the result of
    [inp.__getitem__(key)], the [ValueError] of a zero step included.
    That result is the view [GpuIncSubtensor.perform] updates. *)
Theorem generated_code_selects_the_view_of_getitem
  (idx_list : list entry) (names : list nat) (inp : GpuArray)
  (env : nat -> Z) (s : store) (code : GpuSubtensor.ccode) :
  GpuSubtensor.c_code idx_list (ndim inp) names = Some code ->
  (1 <= ndim inp)%nat -> (length idx_list <= ndim inp)%nat ->
  Forall (fun d => 0 <= d <= SSIZE_MAX) (shape inp) ->
  exists cdata,
    GpuIncSubtensor.convert_all idx_list (rev (map env names)) = Ok cdata /\
    (valid_key (shape inp) cdata ->
     GpuSubtensor.exec code inp env s = (s, Pygpu.getitem inp cdata)).
Proof. apply generated_code_is_getitem. Qed.

End ViewAgreement.

Lemma missing_inputs_fail_alike_witness :
  let idx_list := [ESlice FType (FInt 4) FNone; EType] in
  let s := store_of [[[1; 2]; [3; 4]]; [[10; 20]]] in
  ((1 < 2)%nat ->
   GpuSubtensor.c_code idx_list 2 [7%nat] = None /\
   GpuIncSubtensor.perform (mkIncOp false false) idx_list (matrix 0 2 2)
                           (matrix 1 1 2) [1] s
   = (s, Raise IndexError)) /\
  ((2 <= 1)%nat ->
   (exists code, GpuSubtensor.c_code idx_list 2 [7%nat] = Some code) /\
   (exists key,
      GpuIncSubtensor.convert_all idx_list (rev [1]) = Ok key /\
      length key = 2%nat)).
Proof.
  intros idx_list s.
  apply (missing_inputs_fail_alike
           (E := Z_elem) idx_list 2 [7%nat] [1] (mkIncOp false false)
           (matrix 0 2 2) (matrix 1 1 2) s).
  reflexivity.
Defined.

Lemma too_many_index_entries_witness :
  let s := store_of [[[1; 2]; [3; 4]]] in
  GpuSubtensor.exec
    (GpuSubtensor.IndexCode 3
       [GpuSubtensor.AxisScalar (GpuSubtensor.CLit 0);
        GpuSubtensor.AxisScalar (GpuSubtensor.CLit 0);
        GpuSubtensor.AxisScalar (GpuSubtensor.CLit 0)])
    (matrix 0 2 2) (fun _ => 0) s
  = (s, Raise IndexError).
Proof.
  intros s.
  apply (too_many_index_entries
           (E := Z_elem) [EInt 0; EInt 0; EInt 0] [] (matrix 0 2 2)
           (fun _ => 0) s).
  - reflexivity.
  - unfold ndim, matrix. simpl. lia.
Defined.

Lemma generated_code_selects_the_view_of_getitem_witness :
  let s := store_of [[[1; 2]; [3; 4]; [5; 6]; [7; 8]]] in
  let inp := matrix 0 4 2 in
  let idx_list := [ESlice (FInt 1) FType (FInt 2); EInt (-1)] in
  let env := fun _ : nat => 4 in
  exists code,
    GpuSubtensor.c_code idx_list 2 [0%nat] = Some code /\
    GpuSubtensor.exec code inp env s
    = (s, Pygpu.getitem inp [ISlice (Some 1) (Some 4) (Some 2); IInt (-1)]).
Proof.
  intros s inp idx_list env.
  eexists. split; [reflexivity |].
  destruct (generated_code_selects_the_view_of_getitem
              (E := Z_elem) idx_list [0%nat] inp env s _ eq_refl)
    as (cdata & Hc & Hv).
  - unfold ndim, inp, matrix. simpl. lia.
  - unfold ndim, inp, matrix. simpl. lia.
  - unfold inp, matrix, SSIZE_MAX. simpl.
    repeat (apply Forall_cons; [lia |]). apply Forall_nil.
  - vm_compute in Hc. injection Hc as <-. apply Hv.
    unfold valid_key, valid_index, opt_in_ssize, in_ssize, SSIZE_MIN,
      SSIZE_MAX.
    simpl. lia.
Defined.

(** The view the example selects: column 1 of the rows 1 and 3. *)
Example view_example :
  let s := store_of [[[1; 2]; [3; 4]; [5; 6]; [7; 8]]] in
  let inp := matrix 0 4 2 in
  match GpuSubtensor.run [ESlice (FInt 1) FType (FInt 2); EInt (-1)]
                         [0%nat] inp (fun _ => 4) with
  | Some c =>
      match snd (c s) with
      | Ok out => contents s out = [4; 8] /\ data out = 0%nat
      | Raise _ => False
      end
  | None => False
  end.
Proof. split; reflexivity. Qed.

(** ** The update of a view *)

Section ViewUpdate.
Context {E : ElemType}.
Local Open Scope m_scope.

Lemma optional_copy_eq self x s :
  (if negb (inplace self) then Pygpu.copy x else ret x) s
  = (start_store self s x, Ok (destination self s x)).
Proof.
  unfold start_store, destination.
  destruct (inplace self); reflexivity.
Qed.

Lemma start_store_facts self x s :
  (data x < next s)%nat ->
  (data (destination self s x) < next (start_store self s x))%nat /\
  (next s <= next (start_store self s x))%nat /\
  (forall h t, (h < next s)%nat -> h <> data (destination self s x) ->
               bufs (start_store self s x) h t = bufs s h t).
Proof.
  intros Hx. unfold start_store, destination.
  destruct (inplace self); simpl negb; cbv iota.
  - simpl. auto.
  - rewrite copy_eq. cbn [fst]. rewrite writes_next. simpl.
    split; [lia |]. split; [lia |].
    intros h t Hlt _. rewrite writes_other by lia. reflexivity.
Qed.

Lemma shape_eqb_refl d : Pygpu.shape_eqb d d = true.
Proof.
  unfold Pygpu.shape_eqb. rewrite Nat.eqb_refl. simpl.
  induction d as [| a d IH]; [reflexivity |].
  simpl. rewrite Z.eqb_refl. exact IH.
Qed.

Lemma shape_eqb_eq d1 : forall d2,
  Pygpu.shape_eqb d1 d2 = true -> d1 = d2.
Proof.
  unfold Pygpu.shape_eqb.
  induction d1 as [| a d1 IH]; intros [| b d2] H; try discriminate;
    [reflexivity |].
  simpl in H. apply andb_true_iff in H. destruct H as [Hl H].
  apply andb_true_iff in H. destruct H as [Hab H].
  apply Z.eqb_eq in Hab. subst b. f_equal. apply IH.
  apply andb_true_iff. split; [exact Hl | exact H].
Qed.

Lemma broadcast_to_shares src dims r :
  Pygpu.broadcast_to src dims = Ok r -> data r = data src /\ shape r = dims.
Proof.
  unfold Pygpu.broadcast_to. destruct (Pygpu.stretch _ _ _); [| discriminate].
  intros [= <-]. auto.
Qed.

(** Writes whose values are read from another buffer take them from the
    store the run starts in. *)
Lemma writes_from_other_buffer {T} h hb (f g : T -> Z) l s :
  hb <> h ->
  writes h f (fun st m => bufs st hb (g m)) l s
  = writes h f (fun _ m => bufs s hb (g m)) l s.
Proof.
  intros Hne. unfold writes.
  assert (H : forall s0 st,
             (forall a, bufs st hb a = bufs s0 hb a) ->
             fold_left (fun st m => write h (f m) (bufs st hb (g m)) st) l st
             = fold_left (fun st m => write h (f m) (bufs s0 hb (g m)) st) l st).
  { intros s0. induction l as [| m l IH]; intros st Hst; [reflexivity |].
    simpl. rewrite Hst. apply IH. intros a.
    rewrite write_other by assumption. apply Hst. }
  apply H. reflexivity.
Qed.

Lemma setarray_writes dst src src' s :
  Pygpu.broadcast_to src (shape dst) = Ok src' ->
  data src <> data dst ->
  Pygpu.setarray dst src s
  = (writes (data dst) (address dst) (fun _ m => read s src' m)
            (indices_of (shape dst)) s, Ok tt).
Proof.
  intros Hb Hd. unfold Pygpu.setarray, bind, lift. rewrite Hb.
  rewrite (for_each_writes (data dst) (address dst)
             (fun st m => read st src' m)).
  f_equal. unfold read.
  apply (writes_from_other_buffer (data dst) (data src') (address dst)
           (address src')).
  destruct (broadcast_to_shares _ _ _ Hb) as [-> _]. exact Hd.
Qed.

Lemma iadd_exact_as_bumps a b s :
  shape b = shape a -> data b <> data a ->
  Pygpu.iadd a b false s
  = (apply_bumps (data a)
       (map (fun m => (address a m, read s b m)) (indices_of (shape a))) s,
     Ok tt).
Proof.
  intros Hs Hd. unfold Pygpu.iadd, bind, lift.
  rewrite <- Hs, shape_eqb_refl, Hs.
  rewrite (for_each_writes (data a) (address a)
             (fun st m => add (read st a m) (read st b m))).
  f_equal.
  apply (writes_as_bumps (data a) (data b) (address a) (address b)).
  assumption.
Qed.

Lemma bumps_on_view a (v : list Z -> elem) s :
  distinct_elements a ->
  (forall m, In m (indices_of (shape a)) ->
     bufs (apply_bumps (data a)
             (map (fun m => (address a m, v m)) (indices_of (shape a))) s)
          (data a) (address a m)
     = add (read s a m) (v m)) /\
  (forall t, outside a t ->
     bufs (apply_bumps (data a)
             (map (fun m => (address a m, v m)) (indices_of (shape a))) s)
          (data a) t
     = bufs s (data a) t).
Proof.
  intros Hinj. split.
  - intros m Hm. rewrite apply_bumps_at.
    rewrite (filter_key_unique (address a) v (indices_of (shape a)) m);
      [reflexivity | apply NoDup_indices_of | exact Hm | | reflexivity].
    intros m' Hm' Ha. apply Hinj; assumption.
  - intros t Hout. rewrite apply_bumps_at.
    rewrite (filter_key_absent (address a) v); [reflexivity |].
    intros m' Hm'. apply Hout. exact Hm'.
Qed.

Lemma writes_on_view a (v : list Z -> elem) s :
  distinct_elements a ->
  (forall m, In m (indices_of (shape a)) ->
     bufs (writes (data a) (address a) (fun _ => v) (indices_of (shape a)) s)
          (data a) (address a m) = v m) /\
  (forall t, outside a t ->
     bufs (writes (data a) (address a) (fun _ => v) (indices_of (shape a)) s)
          (data a) t = bufs s (data a) t).
Proof.
  intros Hinj. split.
  - intros m Hm. apply (writes_read (data a) (address a) v); assumption.
  - intros t Hout. apply writes_untouched. intros Hin.
    apply in_map_iff in Hin. destruct Hin as (m & Ha & Hm).
    exact (Hout m Hm Ha).
Qed.

End ViewUpdate.

Section IncSubtensor.
Context {E : ElemType}.
Local Open Scope m_scope.

Lemma combine_into_set self cdata y X sub y' s1 :
  set_instead_of_inc self = true ->
  Pygpu.getitem X cdata = Ok sub ->
  Pygpu.broadcast_to y (shape sub) = Ok y' ->
  data y <> data X ->
  combine_into self cdata y X s1
  = (writes (data sub) (address sub) (fun _ m => read s1 y' m)
            (indices_of (shape sub)) s1, Ok X).
Proof.
  intros Hset Hget Hb Hd. unfold combine_into, bind at 1, lift at 1.
  rewrite Hget, Hset. simpl negb.
  assert (Hs : Pygpu.setitem X cdata y s1
               = (writes (data sub) (address sub) (fun _ m => read s1 y' m)
                         (indices_of (shape sub)) s1, Ok tt)).
  { unfold Pygpu.setitem, bind, lift. rewrite Hget.
    apply setarray_writes; [exact Hb |].
    rewrite (getitem_shares _ _ _ Hget). exact Hd. }
  unfold bind, ret. destruct (shape sub); rewrite Hs; reflexivity.
Qed.

Lemma combine_into_add self cdata y X sub s1 :
  set_instead_of_inc self = false ->
  Pygpu.getitem X cdata = Ok sub ->
  shape y = shape sub ->
  data y <> data X -> (data X < next s1)%nat ->
  exists s',
    combine_into self cdata y X s1 = (s', Ok X) /\
    (forall t,
       bufs s' (data X) t
       = bufs (apply_bumps (data sub)
                 (map (fun m => (address sub m, read s1 y m))
                      (indices_of (shape sub))) s1) (data X) t).
Proof.
  intros Hset Hget Hsh Hd Hx. unfold combine_into, bind at 1, lift at 1.
  rewrite Hget, Hset. simpl negb.
  pose proof (getitem_shares _ _ _ Hget) as Hdata.
  destruct (shape sub) as [| d ds] eqn:Es.
  - (* the scalar case *)
    unfold bind at 1. unfold bind at 1.
    unfold Pygpu.elemwise2_add, bind at 1, lift at 1.
    rewrite Es, Hsh. change (Pygpu.shape_eqb [] []) with true. cbv iota.
    cbv zeta. cbn [indices_of fold_left c_strides].
    set (tmp := mkGpuArray (next s1) 0 [] [] (dtype_of sub)).
    set (s2 := write (next s1) (address tmp [])
                     (add (read s1 sub []) (read s1 y []))
                     (mkStore (bufs s1) (S (next s1)))).
    assert (Hs : Pygpu.setitem X cdata tmp s2
                 = (writes (data sub) (address sub)
                           (fun _ m => read s2 tmp m)
                           (indices_of (shape sub)) s2, Ok tt)).
    { unfold Pygpu.setitem, bind, lift. rewrite Hget.
      apply setarray_writes.
      - apply broadcast_to_same; rewrite Es; reflexivity.
      - simpl. rewrite Hdata. lia. }
    rewrite Hs. unfold ret. eexists. split; [reflexivity |].
    intros t. rewrite Es. cbn [indices_of map]. unfold writes, apply_bumps.
    cbn [fold_left fst snd]. unfold bump. rewrite <- Hdata.
    destruct (Z.eq_dec t (address sub [])) as [-> | Hne].
    + rewrite !write_same. unfold read at 1. subst s2.
      simpl data. rewrite write_same. reflexivity.
    + rewrite !write_other_addr by assumption. subst s2.
      rewrite write_other by (rewrite Hdata; lia). reflexivity.
  - unfold Pygpu.ielemwise2_add, bind.
    rewrite (iadd_exact_as_bumps sub y s1);
      [| rewrite Es; exact Hsh | rewrite Hdata; exact Hd].
    unfold ret. rewrite Es. eexists. split; reflexivity.
Qed.

Lemma perform_on_view
  (self : IncOp) (idx_list : list entry) (x y : GpuArray)
  (inputs : list Z) (s : store) (cdata : list index) (sub y' : GpuArray) :
  let X := destination self s x in
  let s1 := start_store self s x in
  GpuIncSubtensor.convert_all idx_list (rev inputs) = Ok cdata ->
  Pygpu.getitem X cdata = Ok sub ->
  distinct_elements sub ->
  (data x < next s)%nat -> (data y < next s)%nat -> data y <> data x ->
  (if set_instead_of_inc self then Pygpu.broadcast_to y (shape sub)
   else if Pygpu.shape_eqb (shape sub) (shape y) then Ok y
        else Raise ValueError) = Ok y' ->
  exists s',
    GpuIncSubtensor.perform self idx_list x y inputs s = (s', Ok X) /\
    (forall m, In m (indices_of (shape sub)) ->
       read s' sub m
       = if set_instead_of_inc self then read s y' m
         else add (read s1 sub m) (read s y' m)) /\
    (forall t, outside sub t -> bufs s' (data X) t = bufs s1 (data X) t).
Proof.
  intros X s1 Hconv Hget Hinj Hx Hy Hxy Hy'.
  destruct (start_store_facts self x s Hx) as (HX & Hnext & Hold).
  fold X s1 in HX, Hnext, Hold.
  assert (HyX : data y <> data X).
  { subst X. unfold destination. destruct (inplace self); [exact Hxy |].
    simpl. lia. }
  assert (Hry : forall a m, data a = data y -> read s1 a m = read s a m).
  { intros a m Ha. unfold read. rewrite Ha. apply Hold; assumption. }
  pose proof (getitem_shares _ _ _ Hget) as Hdata.
  rewrite inc_perform_eq. unfold bind at 1, lift at 1. rewrite Hconv.
  unfold bind at 1. rewrite optional_copy_eq. fold X s1.
  destruct (set_instead_of_inc self) eqn:Eset.
  - rewrite (combine_into_set self cdata y X sub y' s1 Eset Hget Hy' HyX).
    eexists. split; [reflexivity |].
    destruct (broadcast_to_shares _ _ _ Hy') as [Hdy' _].
    destruct (writes_on_view sub (fun m => read s1 y' m) s1 Hinj)
      as [Hin Hout].
    split.
    + intros m Hm. unfold read at 1. rewrite (Hin m Hm).
      apply Hry. exact Hdy'.
    + intros t Ht. rewrite <- Hdata. apply Hout. exact Ht.
  - destruct (Pygpu.shape_eqb (shape sub) (shape y)) eqn:Hsh;
      [| discriminate].
    apply shape_eqb_eq in Hsh. symmetry in Hsh. injection Hy' as <-.
    destruct (combine_into_add self cdata y X sub s1 Eset Hget Hsh HyX HX)
      as (s' & Hrun & Hbufs).
    exists s'. split; [exact Hrun |].
    destruct (bumps_on_view sub (fun m => read s1 y m) s1 Hinj)
      as [Hin Hout].
    split.
    + intros m Hm. unfold read at 1. rewrite Hdata, Hbufs, <- Hdata.
      rewrite (Hin m Hm). f_equal. apply Hry. reflexivity.
    + intros t Ht. rewrite Hbufs, <- Hdata. apply Hout. exact Ht.
Qed.

(** X6.  [GpuIncSubtensor.perform] on a view whose elements occupy
    distinct addresses, with [y] in a buffer of its own.  The operation
    succeeds and returns the destination, [x] itself or its copy.  In set
    mode each element of the view becomes the matching element of [y]
    broadcast to the shape of the view; in accumulate mode, where [y] has
    the shape of the view, it becomes its old value plus the matching
    element of [y].  Every address of the destination's buffer that is
    not an element of the view keeps its content. *)
Theorem inc_subtensor_updates_the_view
  (self : IncOp) (idx_list : list entry) (x y : GpuArray)
  (inputs : list Z) (s : store) (cdata : list index) (sub y' : GpuArray) :
  let X := destination self s x in
  let s1 := start_store self s x in
  GpuIncSubtensor.convert_all idx_list (rev inputs) = Ok cdata ->
  Pygpu.getitem X cdata = Ok sub ->
  distinct_elements sub ->
  (data x < next s)%nat -> (data y < next s)%nat -> data y <> data x ->
  (if set_instead_of_inc self then Pygpu.broadcast_to y (shape sub)
   else if Pygpu.shape_eqb (shape sub) (shape y) then Ok y
        else Raise ValueError) = Ok y' ->
  exists s',
    GpuIncSubtensor.perform self idx_list x y inputs s = (s', Ok X) /\
    (forall m, In m (indices_of (shape sub)) ->
       read s' sub m
       = if set_instead_of_inc self then read s y' m
         else add (read s1 sub m) (read s y' m)) /\
    (forall t, outside sub t -> bufs s' (data X) t = bufs s1 (data X) t).
Proof. apply perform_on_view. Qed.

End IncSubtensor.

Lemma inc_subtensor_updates_the_view_witness :
  let self := mkIncOp true false in
  let s := store_of [[[1; 2]; [3; 4]]; [[10; 20]]] in
  let x := matrix 0 2 2 in
  let y := mkGpuArray 1 0 [2] [8] float64 in
  let sub := mkGpuArray 0 16 [2] [8] float64 in
  exists s',
    GpuIncSubtensor.perform self [EInt 1] x y [] s = (s', Ok x) /\
    (forall m, In m (indices_of [2]) ->
       read s' sub m = add (read s sub m) (read s y m)) /\
    (forall t, outside sub t -> bufs s' 0%nat t = bufs s 0%nat t).
Proof.
  intros self s x y sub.
  apply (inc_subtensor_updates_the_view self [EInt 1] x y [] s
           [IInt 1] sub y).
  - reflexivity.
  - reflexivity.
  - intros m1 m2 H1 H2.
    simpl in H1, H2.
    destruct H1 as [<- | [<- | []]]; destruct H2 as [<- | [<- | []]];
      vm_compute; congruence.
  - simpl. lia.
  - simpl. lia.
  - simpl. lia.
  - reflexivity.
Defined.

Section IncSubtensorShape.
Context {E : ElemType}.
Local Open Scope m_scope.

(** X7.  Accumulation does not broadcast ([broadcast=False]): when the
    shape of [y] is not the shape of the selected view,
    [GpuIncSubtensor.perform] in accumulate mode raises [ValueError]
    after the optional copy and before any write, so that in place the
    store is unchanged. *)
Theorem inc_subtensor_adds_without_broadcast
  (self : IncOp) (idx_list : list entry) (x y : GpuArray)
  (inputs : list Z) (s : store) (cdata : list index) (sub : GpuArray) :
  set_instead_of_inc self = false ->
  GpuIncSubtensor.convert_all idx_list (rev inputs) = Ok cdata ->
  Pygpu.getitem (destination self s x) cdata = Ok sub ->
  shape y <> shape sub ->
  GpuIncSubtensor.perform self idx_list x y inputs s
  = (start_store self s x, Raise ValueError) /\
  (inplace self = true -> start_store self s x = s).
Proof.
  intros Hset Hconv Hget Hne. split.
  - rewrite inc_perform_eq. unfold bind at 1, lift at 1. rewrite Hconv.
    unfold bind at 1. rewrite optional_copy_eq.
    unfold combine_into, bind at 1, lift at 1. rewrite Hget, Hset.
    simpl negb.
    assert (Hb : Pygpu.shape_eqb (shape sub) (shape y) = false).
    { destruct (Pygpu.shape_eqb (shape sub) (shape y)) eqn:Eb;
        [| reflexivity].
      apply shape_eqb_eq in Eb. congruence. }
    destruct (shape sub) as [| d ds] eqn:Es.
    + unfold bind at 1. unfold bind at 1.
      unfold Pygpu.elemwise2_add, bind at 1, lift at 1.
      rewrite Es, Hb. reflexivity.
    + unfold bind, Pygpu.ielemwise2_add, Pygpu.iadd, bind, lift.
      rewrite Es, Hb. reflexivity.
  - intros Hin. unfold start_store. rewrite Hin. reflexivity.
Qed.

End IncSubtensorShape.

Lemma inc_subtensor_adds_without_broadcast_witness :
  let self := mkIncOp true false in
  let s := store_of [[[1; 2]; [3; 4]]; [[10]]] in
  let x := matrix 0 2 2 in
  let y := mkGpuArray 1 0 [1] [8] float64 in
  GpuIncSubtensor.perform self [EInt 1] x y [] s = (s, Raise ValueError) /\
  (true = true -> s = s).
Proof.
  intros self s x y.
  apply (inc_subtensor_adds_without_broadcast self [EInt 1] x y [] s
           [IInt 1] (mkGpuArray 0 16 [2] [8] float64)).
  - reflexivity.
  - reflexivity.
  - reflexivity.
  - simpl. discriminate.
Defined.

(** In set mode the same source is broadcast over the row. *)
Example set_subtensor_broadcasts :
  let self := mkIncOp true true in
  let s := store_of [[[1; 2]; [3; 4]]; [[10]]] in
  let x := matrix 0 2 2 in
  let y := mkGpuArray 1 0 [1] [8] float64 in
  exists s',
    GpuIncSubtensor.perform self [EInt 1] x y [] s = (s', Ok x) /\
    tolist2 s' x = [[1; 2]; [10; 10]].
Proof. eexists. split; reflexivity. Qed.

(** ** Set mode and failing indices *)

Lemma last_cons {A} (a d : A) (l : list A) : last (a :: l) d = last l a.
Proof.
  revert a d. induction l as [| b l IH]; intros a d; [reflexivity |].
  change (last (a :: b :: l) d) with (last (b :: l) d).
  rewrite !IH. reflexivity.
Qed.

Section Sets.
Context {E : ElemType}.
Local Open Scope m_scope.

Lemma apply_sets_app h l1 l2 s :
  apply_sets h (l1 ++ l2) s = apply_sets h l2 (apply_sets h l1 s).
Proof. apply fold_left_app. Qed.

Lemma apply_sets_next h l s : next (apply_sets h l s) = next s.
Proof.
  unfold apply_sets. revert s. induction l as [| p l IH]; intros s; simpl.
  - reflexivity.
  - rewrite IH. reflexivity.
Qed.

Lemma apply_sets_other h l s h' t :
  h' <> h -> bufs (apply_sets h l s) h' t = bufs s h' t.
Proof.
  intros Hne. unfold apply_sets. revert s.
  induction l as [| p l IH]; intros s; simpl.
  - reflexivity.
  - rewrite IH. apply write_other. assumption.
Qed.

(** The element at [t] ends up with the last value stored at [t]. *)
Lemma apply_sets_at h l s t :
  bufs (apply_sets h l s) h t
  = last (map snd (filter (fun p => fst p =? t) l)) (bufs s h t).
Proof.
  unfold apply_sets. revert s.
  induction l as [| [t0 c0] l IH]; intros s; [reflexivity |].
  cbn [fold_left filter fst snd]. rewrite IH.
  destruct (Z.eqb_spec t0 t) as [-> | Hne].
  - cbn [map snd]. rewrite last_cons, write_same. reflexivity.
  - rewrite write_other_addr by congruence. reflexivity.
Qed.

Lemma writes_as_sets {T} h (f : T -> Z) (v : T -> elem) l s :
  writes h f (fun _ => v) l s = apply_sets h (map (fun m => (f m, v m)) l) s.
Proof.
  unfold writes, apply_sets. revert s.
  induction l as [| m l IH]; intros s; [reflexivity |].
  simpl. apply IH.
Qed.

Lemma setarray_as_sets a b s :
  shape b = shape a -> length (strides b) = length (shape a) ->
  data b <> data a ->
  Pygpu.setarray a b s
  = (apply_sets (data a)
       (map (fun m => (address a m, read s b m)) (indices_of (shape a))) s,
     Ok tt).
Proof.
  intros Hs Hl Hd.
  rewrite (setarray_writes a b b s);
    [| apply broadcast_to_same; assumption | exact Hd].
  rewrite writes_as_sets. reflexivity.
Qed.

Lemma set_loop_sets X tasks s0 :
  well_formed X -> Forall (valid_task X) tasks ->
  forall s,
    (forall t a, In t tasks ->
                 bufs s (data (snd t)) a = bufs s0 (data (snd t)) a) ->
    set_loop X tasks s
    = (apply_sets (data X) (flat_map (task_bumps X s0) tasks) s, Ok tt).
Proof.
  intros HX Hv. unfold set_loop.
  induction Hv as [| [i b] tasks Ht Hv IH]; intros s Hs.
  - reflexivity.
  - destruct Ht as (Hi & Hsh & Hlen & Hd). simpl fst in *. simpl snd in *.
    cbn [for_each flat_map]. unfold bind at 1. unfold bind at 1, lift at 1.
    cbn [fst snd]. rewrite (getitem_row X i HX Hi).
    rewrite (setarray_as_sets (row X (wrap (hd 0 (shape X)) i)) b s);
      [| exact Hsh | rewrite Hlen, Hsh; reflexivity | exact Hd].
    rewrite IH.
    + rewrite apply_sets_app. f_equal. f_equal.
      unfold task_bumps. simpl fst. simpl snd. simpl shape. simpl data.
      f_equal. apply map_ext. intros m. f_equal.
      * destruct HX as (Hn & Hl & _). apply address_row; assumption.
      * unfold read. apply (Hs (i, b)). left. reflexivity.
    + intros t a Hin. simpl data.
      destruct (proj1 (Forall_forall _ _) Hv t Hin) as (_ & _ & _ & Hdt).
      rewrite apply_sets_other by exact Hdt.
      apply Hs. right. assumption.
Qed.

Lemma joint_body_set X y j i s :
  well_formed y -> 0 <= j < hd 0 (shape y) ->
  (row <- lift (Pygpu.getitem X [IInt i]) ;;
   src <- lift (Pygpu.getitem y [IInt j]) ;;
   ScatterSpec.row_update true row src) s
  = (xi <- lift (Pygpu.getitem X [IInt (fst (joint_task y (j, i)))]) ;;
     Pygpu.setarray xi (snd (joint_task y (j, i)))) s.
Proof.
  intros Hy Hj. unfold bind, lift, joint_task. simpl fst. simpl snd.
  rewrite (getitem_row y j Hy) by lia.
  replace (wrap (hd 0 (shape y)) j) with j
    by (unfold wrap; destruct (Z.ltb_spec j 0); [lia | reflexivity]).
  reflexivity.
Qed.

Lemma scatter_into_set_tasks self y idx X s1 tasks :
  set_instead_of_inc self = true ->
  well_formed X ->
  (ScatterSpec.one_to_one X y = true ->
   well_formed y /\ hd 0 (shape y) = Z.of_nat (length idx)) ->
  scatter_tasks X y idx = Ok tasks ->
  scatter_into self y idx X s1 = (set_loop X tasks ;;; ret X) s1.
Proof.
  intros Hset HX Hjoint Htasks. unfold scatter_tasks in Htasks.
  destruct idx as [| i0 rest].
  - assert (tasks = []) as ->.
    { destruct (ScatterSpec.one_to_one X y); simpl in Htasks;
        [congruence |].
      destruct (ScatterSpec.broadcast_source X y); simpl in Htasks;
        congruence. }
    reflexivity.
  - rewrite scatter_into_policy;
      [| discriminate | destruct HX; assumption | left; assumption].
    unfold policy_into. rewrite Hset.
    destruct (ScatterSpec.one_to_one X y).
    + destruct (Hjoint eq_refl) as [Hy Hlen].
      rewrite Hlen, Z.eqb_refl. simpl negb. cbv iota.
      assert (tasks = map (joint_task y) (enumerate (i0 :: rest))) as ->
        by congruence.
      apply bind_cong. unfold set_loop.
      rewrite for_each_map. apply for_each_ext. intros [j i] s' Hin.
      apply joint_body_set; [exact Hy |].
      apply enumerate_in in Hin. rewrite Hlen. apply Hin.
    + destruct (ScatterSpec.broadcast_source X y) as [src | e];
        [| discriminate].
      assert (tasks = map (fun i => (i, src)) (i0 :: rest)) as ->
        by congruence.
      apply bind_cong. unfold set_loop. rewrite for_each_map.
      reflexivity.
Qed.

End Sets.

Lemma set_result
  {E : ElemType} (self : IncOp) (x y : GpuArray) (idx : list Z) (s : store)
  (tasks : list (Z * GpuArray)) :
  set_instead_of_inc self = true ->
  well_formed x ->
  (ScatterSpec.one_to_one x y = true ->
   well_formed y /\ hd 0 (shape y) = Z.of_nat (length idx)) ->
  scatter_tasks x y idx = Ok tasks ->
  Forall (fun t => valid_task x t /\ (data (snd t) < next s)%nat) tasks ->
  (inplace self = true -> injective_addresses x) ->
  let out := destination self s x in
  exists s',
    GpuAdvancedIncSubtensor1.perform self x y idx s = (s', Ok out) /\
    forall r m,
      0 <= r < hd 0 (shape x) -> In m (indices_of (tl (shape x))) ->
      read s' out (r :: m)
      = last (contributions s tasks (hd 0 (shape x)) r m)
             (read s x (r :: m)).
Proof.
  intros Hset Hx Hjoint Htasks Hvalid Hinj out.
  set (s1 := start_store self s x).
  destruct (destination_facts self s x Hx Hinj)
    as (HX & Hsh & Hdt & HinjX & Hread & Hother & Hstart).
  fold out in HX, Hsh, Hdt, HinjX, Hread, Hother, Hstart.
  fold s1 in Hread, Hother, Hstart.
  assert (HvX : Forall (valid_task out) tasks).
  { eapply Forall_impl; [| exact Hvalid].
    intros t [(Hi & Hs & Hl & Hd) Hlt]. unfold valid_task.
    rewrite Hsh. repeat split; try assumption; try apply Hi.
    apply (Hother _ Hd Hlt). }
  assert (Hsrc : forall t a, In t tasks ->
                   bufs s1 (data (snd t)) a = bufs s (data (snd t)) a).
  { intros t a Hin.
    destruct (proj1 (Forall_forall _ _) Hvalid t Hin)
      as [(_ & _ & _ & Hd) Hlt].
    apply (Hother _ Hd Hlt). }
  exists (apply_sets (data out) (flat_map (task_bumps out s) tasks) s1).
  split.
  - rewrite scatter_perform_eq. unfold bind at 1. rewrite Hstart.
    rewrite (scatter_into_set_tasks self y idx out s1 tasks);
      try assumption.
    + unfold bind. rewrite (set_loop_sets out tasks s HX HvX s1 Hsrc).
      reflexivity.
    + rewrite (one_to_one_shape out x y Hsh). exact Hjoint.
    + rewrite (scatter_tasks_shape out x y idx Hsh). exact Htasks.
  - intros r m Hr Hm. unfold read at 1. rewrite apply_sets_at.
    fold (read s1 out (r :: m)).
    rewrite Hread
      by (destruct Hx as (Hn & _); unfold ndim in Hn;
          destruct (shape x) as [| d ds]; [simpl in Hn; lia |];
          apply indices_of_cons; eauto).
    f_equal. rewrite bumps_at_element; try assumption.
    + unfold contributions. rewrite Hsh. reflexivity.
    + rewrite Hsh. exact Hr.
    + rewrite Hsh. exact Hm.
    + eapply Forall_impl; [| exact HvX]. intros t Ht. apply Ht.
Qed.

(** X8.  Set mode with duplicate indices: the last source stays.  On
    well-formed operands whose sources have the shape of a row and live
    in buffers other than the destination's, the update succeeds, and
    each element of each row of the result holds the matching element of
    the source of the last task whose index names that row, or its old
    value when no index names the row. *)
Theorem scatter_set_keeps_the_last_source
  {E : ElemType} (self : IncOp) (x y : GpuArray) (idx : list Z) (s : store)
  (tasks : list (Z * GpuArray)) :
  set_instead_of_inc self = true ->
  well_formed x ->
  (ScatterSpec.one_to_one x y = true ->
   well_formed y /\ hd 0 (shape y) = Z.of_nat (length idx)) ->
  scatter_tasks x y idx = Ok tasks ->
  Forall (fun t => valid_task x t /\ (data (snd t) < next s)%nat) tasks ->
  (inplace self = true -> injective_addresses x) ->
  let out := destination self s x in
  exists s',
    GpuAdvancedIncSubtensor1.perform self x y idx s = (s', Ok out) /\
    forall r m,
      0 <= r < hd 0 (shape x) -> In m (indices_of (tl (shape x))) ->
      read s' out (r :: m)
      = last (contributions s tasks (hd 0 (shape x)) r m)
             (read s x (r :: m)).
Proof. apply set_result. Qed.

Lemma scatter_set_keeps_the_last_source_witness :
  let s := store_of [[[0; 0]; [0; 0]; [0; 0]]; [[1; 2]; [3; 4]]] in
  let tasks := map (joint_task (matrix 1 2 2)) (enumerate [0; -3]) in
  exists s',
    GpuAdvancedIncSubtensor1.perform
      (mkIncOp true true) (matrix 0 3 2) (matrix 1 2 2) [0; -3] s
    = (s', Ok (matrix 0 3 2)) /\
    forall r m,
      0 <= r < 3 -> In m (indices_of [2]) ->
      read s' (matrix 0 3 2) (r :: m)
      = last (contributions s tasks 3 r m) (read s (matrix 0 3 2) (r :: m)).
Proof.
  intros s tasks.
  refine (scatter_set_keeps_the_last_source
            (E := Z_elem) (mkIncOp true true) (matrix 0 3 2) (matrix 1 2 2)
            [0; -3] s tasks _ _ _ _ _ _).
  - reflexivity.
  - unfold well_formed, ndim. simpl. repeat split; try lia.
    repeat constructor; lia.
  - intros _. unfold well_formed, ndim. simpl. repeat split; try lia.
    repeat constructor; lia.
  - reflexivity.
  - unfold tasks, valid_task. simpl.
    repeat constructor; simpl; try lia; try discriminate.
  - intros _ m1 m2 H1 H2. unfold address. simpl.
    apply (dot_c_strides_inj 8 [3; 2]); [lia | exact H1 | exact H2].
Defined.

(** Two sources for the same row: the later one stays. *)
Example set_duplicates_example :
  let s := store_of [[[0; 0]; [0; 0]; [0; 0]]; [[1; 2]; [3; 4]]] in
  let r := GpuAdvancedIncSubtensor1.perform
             (mkIncOp true true) (matrix 0 3 2) (matrix 1 2 2) [0; -3] s in
  snd r = Ok (matrix 0 3 2) /\
  tolist2 (fst r) (matrix 0 3 2) = [[3; 4]; [0; 0]; [0; 0]].
Proof. split; reflexivity. Qed.

Section Partial.
Context {E : ElemType}.
Local Open Scope m_scope.

Lemma for_each_app {A} (l1 l2 : list A) (body : A -> M unit) s :
  for_each (l1 ++ l2) body s
  = (for_each l1 body ;;; for_each l2 body) s.
Proof.
  revert s. induction l1 as [| a l1 IH]; intros s.
  - simpl. unfold bind, ret. reflexivity.
  - cbn [app for_each]. unfold bind.
    destruct (body a s) as [s1 [[] | e]]; [| reflexivity].
    rewrite IH. reflexivity.
Qed.

(** On a well-formed array an index outside [[-d, d)] is an
    [IndexError]. *)
Lemma getitem_out_of_range a i :
  ~ (- hd 0 (shape a) <= i < hd 0 (shape a)) ->
  Pygpu.getitem a [IInt i] = Raise IndexError.
Proof.
  intros Hi. rewrite getitem_int_eq.
  destruct (shape a) as [| d ds]; [reflexivity |].
  destruct (strides a) as [| st sts]; [reflexivity |].
  simpl hd in Hi. cbv zeta.
  replace (_ || _) with true; [reflexivity |].
  symmetry. apply orb_true_iff.
  destruct (Z.ltb_spec i 0).
  - destruct (Z.ltb_spec (i + d) 0); [auto | right].
    rewrite Z.geb_leb. apply Z.leb_le. lia.
  - right. rewrite Z.geb_leb. apply Z.leb_le. lia.
Qed.

Lemma loop_stops_at_bad_row X (pre post : list (Z * GpuArray))
      (bad : Z * GpuArray) (c : GpuArray -> GpuArray -> M unit) s s1 :
  ~ (- hd 0 (shape X) <= fst bad < hd 0 (shape X)) ->
  for_each pre
    (fun t => xi <- lift (Pygpu.getitem X [IInt (fst t)]) ;; c xi (snd t)) s
  = (s1, Ok tt) ->
  for_each (pre ++ bad :: post)
    (fun t => xi <- lift (Pygpu.getitem X [IInt (fst t)]) ;; c xi (snd t)) s
  = (s1, Raise IndexError).
Proof.
  intros Hbad Hpre. rewrite for_each_app. unfold bind at 1. rewrite Hpre.
  cbn [for_each]. unfold bind at 1. unfold bind at 1, lift.
  rewrite (getitem_out_of_range X (fst bad) Hbad). reflexivity.
Qed.

End Partial.

(** X9.  An index outside [[-d, d)] stops the loop of
    [GpuAdvancedIncSubtensor1.perform] with [IndexError], in either mode,
    and nothing is rolled back: the rows named before the offending index
    hold their updates (the last source in set mode, the sum of the
    sources otherwise), and the others their old values. *)
Theorem scatter_stops_at_an_index_out_of_range
  {E : ElemType} (self : IncOp) (x y : GpuArray) (idx : list Z) (s : store)
  (pre post : list (Z * GpuArray)) (bad : Z * GpuArray) :
  well_formed x ->
  (ScatterSpec.one_to_one x y = true ->
   well_formed y /\ hd 0 (shape y) = Z.of_nat (length idx)) ->
  scatter_tasks x y idx = Ok (pre ++ bad :: post) ->
  Forall (fun t => valid_task x t /\ (data (snd t) < next s)%nat) pre ->
  ~ (- hd 0 (shape x) <= fst bad < hd 0 (shape x)) ->
  (set_instead_of_inc self = false ->
   dtype_of x <> float16 /\ dtype_of y <> float16) ->
  (inplace self = true -> injective_addresses x) ->
  let out := destination self s x in
  exists s',
    GpuAdvancedIncSubtensor1.perform self x y idx s
    = (s', Raise IndexError) /\
    forall r m,
      0 <= r < hd 0 (shape x) -> In m (indices_of (tl (shape x))) ->
      read s' out (r :: m)
      = settle (set_instead_of_inc self)
               (contributions s pre (hd 0 (shape x)) r m)
               (read s x (r :: m)).
Proof.
  intros Hx Hjoint Htasks Hvalid Hbad Hdt Hinj out.
  set (s1 := start_store self s x).
  destruct (destination_facts self s x Hx Hinj)
    as (HX & Hsh & HdtX & HinjX & Hread & Hother & Hstart).
  fold out in HX, Hsh, HdtX, HinjX, Hread, Hother, Hstart.
  fold s1 in Hread, Hother, Hstart.
  assert (HvX : Forall (valid_task out) pre).
  { eapply Forall_impl; [| exact Hvalid].
    intros t [(Hi & Hs & Hl & Hd) Hlt]. unfold valid_task.
    rewrite Hsh. repeat split; try assumption; try apply Hi.
    apply (Hother _ Hd Hlt). }
  assert (Hsrc : forall t a, In t pre ->
                   bufs s1 (data (snd t)) a = bufs s (data (snd t)) a).
  { intros t a Hin.
    destruct (proj1 (Forall_forall _ _) Hvalid t Hin)
      as [(_ & _ & _ & Hd) Hlt].
    apply (Hother _ Hd Hlt). }
  assert (HbadX : ~ (- hd 0 (shape out) <= fst bad < hd 0 (shape out)))
    by (rewrite Hsh; exact Hbad).
  assert (Hjoint' : ScatterSpec.one_to_one out y = true ->
                    well_formed y /\ hd 0 (shape y) = Z.of_nat (length idx))
    by (rewrite (one_to_one_shape out x y Hsh); exact Hjoint).
  assert (Htasks' : scatter_tasks out y idx = Ok (pre ++ bad :: post))
    by (rewrite (scatter_tasks_shape out x y idx Hsh); exact Htasks).
  assert (Hin : forall r, 0 <= r < hd 0 (shape x) ->
                forall m, In m (indices_of (tl (shape x))) ->
                In (r :: m) (indices_of (shape x))).
  { intros r Hr m Hm. destruct Hx as (Hn & _). unfold ndim in Hn.
    destruct (shape x) as [| d ds]; [simpl in Hn; lia |].
    apply indices_of_cons. eauto. }
  assert (Hcontr : forall r m,
            0 <= r < hd 0 (shape x) -> In m (indices_of (tl (shape x))) ->
            map snd (filter (fun p => fst p =? address out (r :: m))
                            (flat_map (task_bumps out s) pre))
            = contributions s pre (hd 0 (shape x)) r m).
  { intros r m Hr Hm. rewrite bumps_at_element; try assumption.
    - unfold contributions. rewrite Hsh. reflexivity.
    - rewrite Hsh. exact Hr.
    - rewrite Hsh. exact Hm.
    - eapply Forall_impl; [| exact HvX]. intros t Ht. apply Ht. }
  rewrite scatter_perform_eq. unfold bind at 1. rewrite Hstart.
  destruct (set_instead_of_inc self) eqn:Eset.
  - exists (apply_sets (data out) (flat_map (task_bumps out s) pre) s1).
    split.
    + rewrite (scatter_into_set_tasks self y idx out s1 _ Eset HX Hjoint'
                 Htasks').
      unfold bind, set_loop.
      rewrite (loop_stops_at_bad_row out pre post bad Pygpu.setarray s1 _
                 HbadX (set_loop_sets out pre s HX HvX s1 Hsrc)).
      reflexivity.
    + intros r m Hr Hm. unfold read at 1. rewrite apply_sets_at.
      fold (read s1 out (r :: m)). rewrite Hread by auto.
      rewrite Hcontr by assumption. reflexivity.
  - destruct (Hdt eq_refl) as [Hdx Hdy].
    exists (apply_bumps (data out) (flat_map (task_bumps out s) pre) s1).
    split.
    + rewrite (scatter_into_tasks self y idx out s1 _ Eset HX Hjoint'
                 Htasks') by congruence.
      unfold bind, task_loop.
      rewrite (loop_stops_at_bad_row out pre post bad
                 (fun xi b => Pygpu.iadd xi b true) s1 _
                 HbadX (acc_loop_bumps out pre s HX HvX s1 Hsrc)).
      reflexivity.
    + intros r m Hr Hm. unfold read at 1. rewrite apply_bumps_at.
      fold (read s1 out (r :: m)). rewrite Hread by auto.
      rewrite Hcontr by assumption. reflexivity.
Qed.

Lemma scatter_stops_at_an_index_out_of_range_witness :
  let s := store_of [[[0; 0]; [0; 0]; [0; 0]]; [[1; 2]; [3; 4]]] in
  let y := matrix 1 2 2 in
  exists s',
    GpuAdvancedIncSubtensor1.perform
      (mkIncOp true false) (matrix 0 3 2) y [1; 3] s
    = (s', Raise IndexError) /\
    forall r m,
      0 <= r < 3 -> In m (indices_of [2]) ->
      read s' (matrix 0 3 2) (r :: m)
      = settle false (contributions s [joint_task y (0, 1)] 3 r m)
               (read s (matrix 0 3 2) (r :: m)).
Proof.
  intros s y.
  refine (scatter_stops_at_an_index_out_of_range
            (E := Z_elem) (mkIncOp true false) (matrix 0 3 2) y
            [1; 3] s [joint_task y (0, 1)] [] (joint_task y (1, 3))
            _ _ _ _ _ _ _).
  - unfold well_formed, ndim. simpl. repeat split; try lia.
    repeat constructor; lia.
  - intros _. unfold well_formed, ndim. simpl. repeat split; try lia.
    repeat constructor; lia.
  - reflexivity.
  - unfold valid_task. simpl.
    repeat constructor; simpl; try lia; try discriminate.
  - simpl. lia.
  - intros _. split; discriminate.
  - intros _ m1 m2 H1 H2. unfold address. simpl.
    apply (dot_c_strides_inj 8 [3; 2]); [lia | exact H1 | exact H2].
Defined.

(** The row named before the offending index keeps its update. *)
Example partial_update_example :
  let s := store_of [[[0; 0]; [0; 0]; [0; 0]]; [[1; 2]; [3; 4]]] in
  let r := GpuAdvancedIncSubtensor1.perform
             (mkIncOp true false) (matrix 0 3 2) (matrix 1 2 2) [1; 3] s in
  snd r = Raise IndexError /\
  tolist2 (fst r) (matrix 0 3 2) = [[0; 0]; [1; 2]; [0; 0]].
Proof. split; reflexivity. Qed.

(** ** Accumulation on float16 *)

Section Float16.
Context {E : ElemType}.
Local Open Scope m_scope.

Lemma destination_well_formed self s x :
  well_formed x ->
  well_formed (destination self s x) /\
  shape (destination self s x) = shape x /\
  dtype_of (destination self s x) = dtype_of x.
Proof.
  intros (Hn & Hl & Hp). unfold destination.
  destruct (inplace self); [unfold well_formed; auto |].
  unfold well_formed, ndim. simpl. rewrite c_strides_length. auto.
Qed.



End Float16.


(** In set mode the same operands are accepted. *)
Example set_accepts_float16 :
  let s := store_of [[[0; 0]; [0; 0]; [0; 0]]; [[1; 2]; [3; 4]]] in
  let x := mkGpuArray 0 0 [3; 2] [16; 8] float16 in
  let y := mkGpuArray 1 0 [2; 2] [16; 8] float16 in
  let r := GpuAdvancedIncSubtensor1.perform (mkIncOp true true) x y [2; 0] s in
  snd r = Ok x /\ tolist2 (fst r) x = [[3; 4]; [0; 0]; [1; 2]].
Proof. split; reflexivity. Qed.

(** ** What a view reads *)

(** The extent of a view along a sliced axis is the length of the range
    the slice stands for. *)
Lemma extent_range_len a b c :
  c <> 0 -> Pygpu.extent a b c = PyRef.range_len a b c.
Proof.
  intros Hc. unfold Pygpu.extent, PyRef.range_len.
  destruct (Z.ltb_spec 0 c) as [Hp | Hp].
  - destruct (Z.ltb_spec a b) as [Hab | Hab].
    + pose proof (Z.div_mod (- (b - a)) c Hc) as H1.
      pose proof (Z.mod_pos_bound (- (b - a)) c Hp) as H2.
      pose proof (Z.div_mod (b - a - 1) c Hc) as H3.
      pose proof (Z.mod_pos_bound (b - a - 1) c Hp) as H4.
      assert (- (- (b - a) / c) = (b - a - 1) / c + 1) by nia.
      lia.
    + pose proof (Z.div_mod (- (b - a)) c Hc) as H1.
      pose proof (Z.mod_pos_bound (- (b - a)) c Hp) as H2.
      assert (0 <= - (b - a) / c) by nia.
      lia.
  - assert (Hn : c < 0) by lia.
    destruct (Z.ltb_spec c 0) as [_ | ?]; [| lia].
    destruct (Z.ltb_spec b a) as [Hab | Hab].
    + pose proof (Z.div_mod (- (b - a)) c Hc) as H1.
      pose proof (Z.mod_neg_bound (- (b - a)) c Hn) as H2.
      assert (Hc' : - c <> 0) by lia.
      pose proof (Z.div_mod (a - b - 1) (- c) Hc') as H3.
      assert (Hp' : 0 < - c) by lia.
      pose proof (Z.mod_pos_bound (a - b - 1) (- c) Hp') as H4.
      assert (- (- (b - a) / c) = (a - b - 1) / - c + 1) by nia.
      lia.
    + pose proof (Z.div_mod (- (b - a)) c Hc) as H1.
      pose proof (Z.mod_neg_bound (- (b - a)) c Hn) as H2.
      assert (0 <= - (b - a) / c) by nia.
      lia.
Qed.

Lemma range_len_nonneg a b c : 0 <= PyRef.range_len a b c.
Proof.
  unfold PyRef.range_len.
  destruct (Z.ltb_spec 0 c) as [Hp | Hp].
  - destruct (Z.ltb_spec a b); [| lia].
    assert (0 <= (b - a - 1) / c) by (apply Z.div_pos; lia). lia.
  - destruct (Z.ltb_spec c 0); [| lia].
    destruct (Z.ltb_spec b a); [| lia].
    assert (0 <= (a - b - 1) / - c) by (apply Z.div_pos; lia). lia.
Qed.

Lemma range_length a b c :
  Z.of_nat (length (PyRef.range a b c)) = PyRef.range_len a b c.
Proof.
  unfold PyRef.range. rewrite length_map, length_seq.
  apply Z2Nat.id, range_len_nonneg.
Qed.

Lemma range_nth a b c k :
  (k < length (PyRef.range a b c))%nat ->
  nth k (PyRef.range a b c) 0 = a + Z.of_nat k * c.
Proof.
  unfold PyRef.range. rewrite length_map, length_seq. intros Hk.
  rewrite (nth_indep _ 0 (a + Z.of_nat 0 * c))
    by (rewrite length_map, length_seq; exact Hk).
  rewrite (map_nth (fun k => a + Z.of_nat k * c)).
  rewrite seq_nth by exact Hk. reflexivity.
Qed.

Section LeadingAxis.
Context {E : ElemType}.

(** [a[start:stop:step]] on a well-formed array. *)
Lemma getitem_slice a oa ob oc :
  well_formed a -> oc <> Some 0 ->
  let d := hd 0 (shape a) in
  let st := hd 0 (strides a) in
  let c := py_step oc in
  let lo := py_start d c oa in
  let hi := py_stop d c ob in
  Pygpu.getitem a [ISlice oa ob oc]
  = Ok (mkGpuArray (data a) (offset a + st * lo)
                   (PyRef.range_len lo hi c :: tl (shape a))
                   (st * c :: tl (strides a)) (dtype_of a)).
Proof.
  intros (Hn & Hlen & Hpos) Hz. unfold ndim in Hn.
  unfold Pygpu.getitem, Pygpu.pygpu_index.
  destruct (shape a) as [| d ds]; [simpl in Hn; lia |].
  destruct (strides a) as [| st sts]; [discriminate |].
  injection Hlen as Hlen. inversion Hpos as [| ? ? Hd Hds]; subst.
  cbn [hd tl]. cbv zeta.
  cbn [Pygpu.key_triples]. rewrite slice_indices_eq by exact Hz.
  rewrite key_triples_nil.
  cbn [Pygpu.index_axes].
  assert (Hc : py_step oc <> 0)
    by (destruct oc as [c |]; simpl; [congruence | lia]).
  destruct (py_start_bounds d (py_step oc) oa Hd Hc) as [Hp Hm].
  replace ((py_start d (py_step oc) oa <? -1)
           || (py_start d (py_step oc) oa >? d)) with false.
  2:{ symmetry. apply orb_false_iff. rewrite Z.gtb_ltb.
      split; [apply Z.ltb_ge | apply Z.ltb_ge];
        destruct (Z_lt_le_dec 0 (py_step oc));
        [ specialize (Hp ltac:(lia)) | specialize (Hm ltac:(lia))
        | specialize (Hp ltac:(lia)) | specialize (Hm ltac:(lia)) ]; lia. }
  rewrite (index_axes_whole ds sts Hlen Hds).
  replace (py_step oc =? 0) with false by (symmetry; apply Z.eqb_neq; exact Hc).
  cbn [map fst snd]. rewrite combine_fst, combine_snd by assumption.
  rewrite extent_range_len by exact Hc.
  f_equal. f_equal. lia.
Qed.

(** X20.  What a slice of the leading axis reads.  For a well-formed
    input with extents up to [SSIZE_MAX] and the one-entry index list
    [[start:stop:step]] whose fields, constants or runtime inputs, have
    [ssize_t] values and a step other than 0, running the code of
    [GpuSubtensor.c_code] leaves the store unchanged and returns a view
    on the buffer of the input.  Its leading axis has one position for
    each index that Python's [range] lists for the triple of
    [slice.indices(len)], the other axes are those of the input, and
    position [k] of the view reads the input at the [k]-th index of that
    list. *)
Theorem leading_slice_reads_what_python_selects
  (fa fb fc : field) (names : list nat) (inp : GpuArray)
  (env : nat -> Z) (s : store) (code : GpuSubtensor.ccode)
  (oa ob oc : option Z) :
  GpuSubtensor.c_code [ESlice fa fb fc] (ndim inp) names = Some code ->
  GpuIncSubtensor.convert_all [ESlice fa fb fc] (rev (map env names))
  = Ok [ISlice oa ob oc] ->
  well_formed inp ->
  Forall (fun d => d <= SSIZE_MAX) (shape inp) ->
  opt_in_ssize oa -> opt_in_ssize ob -> opt_in_ssize oc ->
  oc <> Some 0 ->
  exists sel out,
    PyRef.selected (hd 0 (shape inp)) oa ob oc = Ok sel /\
    GpuSubtensor.exec code inp env s = (s, Ok out) /\
    data out = data inp /\
    shape out = Z.of_nat (length sel) :: tl (shape inp) /\
    (forall k m, (k < length sel)%nat ->
       read s out (Z.of_nat k :: m) = read s inp (nth k sel 0 :: m)).
Proof.
  intros Hcode Hconv Hwf Hmax Ha Hb Hc Hz.
  pose proof Hwf as (Hn & Hlen & Hpos).
  assert (Hrange : Forall (fun d => 0 <= d <= SSIZE_MAX) (shape inp)).
  { rewrite Forall_forall in *. intros d Hd.
    specialize (Hpos d Hd). specialize (Hmax d Hd). cbv beta in *. lia. }
  destruct (generated_code_is_getitem [ESlice fa fb fc] names inp env s code
              Hcode Hn ltac:(simpl; lia) Hrange) as (cdata & Hcd & Hv).
  rewrite Hconv in Hcd. injection Hcd as <-.
  assert (Hvalid : valid_key (shape inp) [ISlice oa ob oc]).
  { unfold ndim in Hn. destruct (shape inp); [simpl in Hn; lia |].
    simpl. repeat split; try assumption; destruct l; exact I. }
  specialize (Hv Hvalid).
  rewrite (getitem_slice inp oa ob oc Hwf Hz) in Hv. cbv zeta in Hv.
  unfold PyRef.selected. rewrite slice_indices_eq by exact Hz.
  eexists. eexists. split; [reflexivity |].
  split; [exact Hv |].
  split; [reflexivity |].
  split.
  - cbn [shape]. rewrite range_length. reflexivity.
  - intros k m Hk. rewrite range_nth by exact Hk.
    unfold read, address. cbn [data offset strides].
    unfold ndim in Hn.
    destruct (shape inp) as [| d ds]; [simpl in Hn; lia |].
    destruct (strides inp) as [| st sts]; [discriminate |].
    cbn [hd tl dot]. f_equal. ring.
Qed.

(** X21.  What an integer index of the leading axis reads.  For a
    well-formed input and the one-entry index list of an integer [i],
    constant or runtime input, with [-d <= i < d], the code of
    [GpuSubtensor.c_code] returns a view on the buffer of the input with
    the leading axis dropped, which reads row [i] of the input, counted
    from the end when [i] is negative. *)
Theorem leading_integer_selects_the_row
  (e : entry) (names : list nat) (inp : GpuArray)
  (env : nat -> Z) (s : store) (code : GpuSubtensor.ccode) (i : Z) :
  GpuSubtensor.c_code [e] (ndim inp) names = Some code ->
  GpuIncSubtensor.convert_all [e] (rev (map env names)) = Ok [IInt i] ->
  well_formed inp ->
  Forall (fun d => d <= SSIZE_MAX) (shape inp) ->
  - hd 0 (shape inp) <= i < hd 0 (shape inp) ->
  let r := if i <? 0 then i + hd 0 (shape inp) else i in
  exists out,
    GpuSubtensor.exec code inp env s = (s, Ok out) /\
    data out = data inp /\
    shape out = tl (shape inp) /\
    (forall m, read s out m = read s inp (r :: m)).
Proof.
  intros Hcode Hconv Hwf Hmax Hi r.
  pose proof Hwf as (Hn & Hlen & Hpos).
  assert (Hrange : Forall (fun d => 0 <= d <= SSIZE_MAX) (shape inp)).
  { rewrite Forall_forall in *. intros d Hd.
    specialize (Hpos d Hd). specialize (Hmax d Hd). cbv beta in *. lia. }
  destruct (generated_code_is_getitem [e] names inp env s code
              Hcode Hn ltac:(simpl; lia) Hrange) as (cdata & Hcd & Hv).
  rewrite Hconv in Hcd. injection Hcd as <-.
  assert (Hvalid : valid_key (shape inp) [IInt i]).
  { unfold ndim in Hn. destruct (shape inp); [simpl in Hn; lia |].
    simpl in *. split; [exact Hi | destruct l; exact I]. }
  specialize (Hv Hvalid).
  rewrite (getitem_row inp i Hwf Hi) in Hv.
  exists (row inp (wrap (hd 0 (shape inp)) i)).
  split; [exact Hv |].
  split; [reflexivity |].
  split; [reflexivity |].
  intros m. unfold read. rewrite address_row by assumption. reflexivity.
Qed.

(** X22.  Reading back what was written.  Under the conditions of the
    update of a view (X6) and of the agreement of the generated code
    with Python indexing (X5), running the code [GpuSubtensor.c_code]
    generates for the same index list on the result of
    [GpuIncSubtensor.perform] returns the view that was updated: in set
    mode it reads [y] broadcast to the view, in accumulate mode the old
    values plus [y]. *)
Theorem subtensor_reads_what_inc_subtensor_wrote
  (self : IncOp) (idx_list : list entry) (names : list nat)
  (env : nat -> Z) (code : GpuSubtensor.ccode) (x y : GpuArray)
  (s : store) (cdata : list index) (sub y' : GpuArray) :
  let X := destination self s x in
  let s1 := start_store self s x in
  GpuSubtensor.c_code idx_list (ndim x) names = Some code ->
  GpuIncSubtensor.convert_all idx_list (rev (map env names)) = Ok cdata ->
  well_formed x ->
  Forall (fun d => d <= SSIZE_MAX) (shape x) ->
  (length idx_list <= ndim x)%nat ->
  valid_key (shape x) cdata ->
  Pygpu.getitem X cdata = Ok sub ->
  distinct_elements sub ->
  (data x < next s)%nat -> (data y < next s)%nat -> data y <> data x ->
  (if set_instead_of_inc self then Pygpu.broadcast_to y (shape sub)
   else if Pygpu.shape_eqb (shape sub) (shape y) then Ok y
        else Raise ValueError) = Ok y' ->
  exists s',
    GpuIncSubtensor.perform self idx_list x y (map env names) s
    = (s', Ok X) /\
    GpuSubtensor.exec code X env s' = (s', Ok sub) /\
    (forall m, In m (indices_of (shape sub)) ->
       read s' sub m
       = if set_instead_of_inc self then read s y' m
         else add (read s1 sub m) (read s y' m)).
Proof.
  intros X s1 Hcode Hconv Hwf Hmax Hlen Hvalid Hget Hdist Hx Hy Hxy Hb.
  destruct (perform_on_view self idx_list x y (map env names) s cdata sub y'
              Hconv Hget Hdist Hx Hy Hxy Hb) as (s' & Hp & Hr & _).
  exists s'. split; [exact Hp |]. split; [| exact Hr].
  destruct (destination_well_formed self s x Hwf) as (HwX & HsX & _).
  fold X in HwX, HsX.
  pose proof HwX as (HnX & _ & HposX).
  assert (Hrange : Forall (fun d => 0 <= d <= SSIZE_MAX) (shape X)).
  { rewrite HsX. destruct Hwf as (_ & _ & Hpos).
    rewrite Forall_forall in *. intros d Hd.
    specialize (Hpos d Hd). specialize (Hmax d Hd). cbv beta in *. lia. }
  assert (HndX : ndim X = ndim x) by (unfold ndim; rewrite HsX; reflexivity).
  rewrite <- HndX in Hcode, Hlen.
  destruct (generated_code_is_getitem idx_list names X env s' code
              Hcode HnX Hlen Hrange) as (cdata' & Hcd & Hv).
  rewrite Hconv in Hcd. injection Hcd as <-.
  rewrite HsX in Hv. rewrite (Hv Hvalid), Hget. reflexivity.
Qed.

End LeadingAxis.

Lemma leading_slice_reads_what_python_selects_witness :
  let s := store_of [[[1; 2]; [3; 4]; [5; 6]; [7; 8]; [9; 10]]] in
  let inp := matrix 0 5 2 in
  let env := fun _ : nat => -1 in
  exists code out,
    GpuSubtensor.c_code [ESlice FType FNone (FInt (-2))] 2 [0%nat]
    = Some code /\
    GpuSubtensor.exec code inp env s = (s, Ok out) /\
    shape out = [3; 2] /\
    (forall k m, (k < 3)%nat ->
       read s out (Z.of_nat k :: m) = read s inp (nth k [4; 2; 0] 0 :: m)).
Proof.
  intros s inp env.
  destruct (leading_slice_reads_what_python_selects
              (E := Z_elem) FType FNone (FInt (-2)) [0%nat] inp env s _
              (Some (-1)) None (Some (-2)) eq_refl eq_refl)
    as (sel & out & Hsel & Hex & _ & Hsh & Hrd).
  - unfold well_formed, ndim, inp, matrix. simpl.
    repeat split; try lia.
    repeat (apply Forall_cons; [lia |]). apply Forall_nil.
  - unfold inp, matrix, SSIZE_MAX. simpl.
    repeat (apply Forall_cons; [lia |]). apply Forall_nil.
  - unfold opt_in_ssize, in_ssize, SSIZE_MIN, SSIZE_MAX. lia.
  - exact I.
  - unfold opt_in_ssize, in_ssize, SSIZE_MIN, SSIZE_MAX. lia.
  - discriminate.
  - vm_compute in Hsel. injection Hsel as <-.
    eexists. exists out. split; [reflexivity |].
    split; [exact Hex |]. split; [exact Hsh | exact Hrd].
Defined.

Lemma leading_integer_selects_the_row_witness :
  let s := store_of [[[1; 2]; [3; 4]; [5; 6]]] in
  let inp := matrix 0 3 2 in
  let env := fun _ : nat => -1 in
  exists code out,
    GpuSubtensor.c_code [EType] 2 [0%nat] = Some code /\
    GpuSubtensor.exec code inp env s = (s, Ok out) /\
    data out = 0%nat /\
    shape out = [2] /\
    (forall m, read s out m = read s inp (2 :: m)).
Proof.
  intros s inp env.
  destruct (leading_integer_selects_the_row
              (E := Z_elem) EType [0%nat] inp env s _ (-1) eq_refl eq_refl)
    as (out & Hex & Hd & Hsh & Hrd).
  - unfold well_formed, ndim, inp, matrix. simpl.
    repeat split; try lia.
    repeat (apply Forall_cons; [lia |]). apply Forall_nil.
  - unfold inp, matrix, SSIZE_MAX. simpl.
    repeat (apply Forall_cons; [lia |]). apply Forall_nil.
  - unfold inp, matrix. simpl. lia.
  - eexists. exists out. split; [reflexivity |].
    split; [exact Hex |]. split; [exact Hd |]. split; [exact Hsh | exact Hrd].
Defined.

Lemma subtensor_reads_what_inc_subtensor_wrote_witness :
  let self := mkIncOp true true in
  let s := store_of [[[1; 2]; [3; 4]; [5; 6]]; [[10; 20]]] in
  let x := matrix 0 3 2 in
  let y := mkGpuArray 1 0 [2] [8] float64 in
  let sub := mkGpuArray 0 32 [2] [8] float64 in
  let env := fun _ : nat => -1 in
  exists code s',
    GpuSubtensor.c_code [EType] 2 [0%nat] = Some code /\
    GpuIncSubtensor.perform self [EType] x y [-1] s = (s', Ok x) /\
    GpuSubtensor.exec code x env s' = (s', Ok sub) /\
    (forall m, In m (indices_of [2]) -> read s' sub m = read s y m).
Proof.
  intros self s x y sub env.
  destruct (subtensor_reads_what_inc_subtensor_wrote
              (E := Z_elem) self [EType] [0%nat] env _ x y s [IInt (-1)]
              sub y eq_refl eq_refl)
    as (s' & Hp & Hex & Hrd).
  - unfold well_formed, ndim, x, matrix. simpl.
    repeat split; try lia.
    repeat (apply Forall_cons; [lia |]). apply Forall_nil.
  - unfold x, matrix, SSIZE_MAX. simpl.
    repeat (apply Forall_cons; [lia |]). apply Forall_nil.
  - unfold ndim, x, matrix. simpl. lia.
  - unfold x, matrix. simpl. lia.
  - reflexivity.
  - intros m1 m2 H1 H2.
    simpl in H1, H2.
    destruct H1 as [<- | [<- | []]]; destruct H2 as [<- | [<- | []]];
      vm_compute; congruence.
  - simpl. lia.
  - simpl. lia.
  - simpl. lia.
  - reflexivity.
  - eexists. exists s'. split; [reflexivity |].
    split; [exact Hp |]. split; [exact Hex | exact Hrd].
Defined.

(** ** The launch of the kernel *)

Section Dev20Facts.
Import GpuAdvancedIncSubtensor1_dev20.

Lemma c_for_in b n g i :
  0 < g ->
  In i (c_for b n g) <-> b <= i < n /\ (i - b) mod g = 0.
Proof.
  intros Hg. unfold c_for. rewrite in_range_iff. unfold PyRef.range_len.
  replace (0 <? g) with true by (symmetry; apply Z.ltb_lt; lia).
  split.
  - intros (k & Hk & ->).
    destruct (Z.ltb_spec b n) as [Hbn | Hbn]; [| lia].
    assert (g * ((n - b - 1) / g) <= n - b - 1)
      by (apply Z.mul_div_le; lia).
    split; [nia |].
    replace (b + k * g - b) with (k * g) by lia. apply Z.mod_mul. lia.
  - intros [Hi Hm].
    exists ((i - b) / g).
    assert (Heq : i - b = g * ((i - b) / g)).
    { rewrite (Z.div_mod (i - b) g) at 1 by lia. lia. }
    assert (0 <= (i - b) / g) by (apply Z.div_pos; lia).
    destruct (Z.ltb_spec b n) as [Hbn | Hbn]; [| lia].
    split; [| lia].
    split; [assumption |].
    assert ((i - b) / g <= (n - b - 1) / g)
      by (apply Z.div_le_mono; lia).
    lia.
Qed.

Lemma c_for_unit n i : In i (c_for 0 n 1) <-> 0 <= i < n.
Proof.
  rewrite c_for_in by lia. rewrite Z.mod_1_r. intuition lia.
Qed.

Lemma c_for_NoDup b n g : 0 < g -> NoDup (c_for b n g).
Proof.
  intros Hg. unfold c_for, PyRef.range.
  apply NoDup_map_NoDup_ForallPairs; [| apply seq_NoDup].
  intros k1 k2 _ _ H. nia.
Qed.

(** The grid-stride loops of the blocks share out the positions below
    [n]: each is visited by exactly one block. *)
Lemma grid_stride_partition n g :
  0 < g ->
  Permutation (flat_map (fun b => c_for b n g) (c_for 0 g 1)) (c_for 0 n 1).
Proof.
  intros Hg. apply NoDup_Permutation.
  - apply NoDup_flat_map_disjoint.
    + apply c_for_NoDup. lia.
    + intros b _. apply c_for_NoDup. exact Hg.
    + intros b b' i Hb Hb' Hne Hi Hi'.
      apply c_for_unit in Hb, Hb'.
      apply c_for_in in Hi, Hi'; try assumption.
      destruct Hi as [_ Hi], Hi' as [_ Hi'].
      apply Hne.
      apply Z.mod_divide in Hi, Hi'; try lia.
      destruct Hi as [q Hq], Hi' as [q' Hq'].
      assert (b - b' = (q' - q) * g) by lia.
      assert (q' - q = 0) by nia. lia.
  - apply c_for_NoDup. lia.
  - intros i. rewrite in_flat_map, c_for_unit. split.
    + intros (b & Hb & Hi). apply c_for_unit in Hb.
      apply c_for_in in Hi; lia.
    + intros Hi. exists (i mod g).
      pose proof (Z.mod_pos_bound i g Hg).
      split; [apply c_for_unit; lia |].
      apply c_for_in; [exact Hg |].
      assert (i mod g <= i) by (apply Z.mod_le; lia).
      split; [lia |].
      rewrite Zminus_mod_idemp_r. rewrite Z.sub_diag. apply Z.mod_0_l. lia.
Qed.

Lemma flat_map_pointwise_perm {A B} (f g : A -> list B) (l : list A) :
  (forall a, In a l -> Permutation (f a) (g a)) ->
  Permutation (flat_map f l) (flat_map g l).
Proof.
  induction l as [| a l IH]; intros H; simpl; [constructor |].
  apply Permutation_app.
  - apply H. left. reflexivity.
  - apply IH. intros a' Ha'. apply H. right. exact Ha'.
Qed.

Lemma flat_map_app_perm {A B} (g h : A -> list B) (l : list A) :
  Permutation (flat_map (fun a => g a ++ h a) l)
              (flat_map g l ++ flat_map h l).
Proof.
  induction l as [| a l IH]; simpl; [constructor |].
  rewrite IH. rewrite <- !app_assoc. apply Permutation_app_head.
  rewrite !app_assoc. apply Permutation_app_tail.
  apply Permutation_app_comm.
Qed.

Lemma flat_map_swap {A B C} (f : A -> B -> list C) la lb :
  Permutation (flat_map (fun a => flat_map (f a) lb) la)
              (flat_map (fun b => flat_map (fun a => f a b) la) lb).
Proof.
  induction la as [| a la IH]; simpl.
  - induction lb as [| b lb IHb]; simpl; [constructor | exact IHb].
  - rewrite IH. symmetry. apply flat_map_app_perm.
Qed.

Lemma flat_map_map_inner {A B C} (f : B -> C) (g : A -> list B) l :
  flat_map (fun a => map f (g a)) l = map f (flat_map g l).
Proof.
  induction l as [| a l IH]; simpl; [reflexivity |].
  rewrite IH, map_app. reflexivity.
Qed.

Lemma flat_map_assoc {A B C} (L : B -> list C) (I : A -> list B) l :
  flat_map (fun a => flat_map L (I a)) l = flat_map L (flat_map I l).
Proof.
  induction l as [| a l IH]; simpl; [reflexivity |].
  rewrite IH, flat_map_app. reflexivity.
Qed.

(** A launch visits every pair of an index position and a column, each
    once. *)
Lemma launch_pairs_cover n c tpb nb :
  0 < tpb -> 0 < nb ->
  Permutation (launch_pairs n c tpb nb) (all_pairs n c).
Proof.
  intros Ht Hb. unfold launch_pairs, thread_pairs, all_pairs.
  transitivity
    (flat_map (fun b => flat_map (fun i => map (pair i) (c_for 0 c 1))
                                 (c_for b n nb))
              (c_for 0 nb 1)).
  - apply flat_map_pointwise_perm. intros b _.
    rewrite flat_map_swap.
    apply flat_map_pointwise_perm. intros i _.
    rewrite flat_map_map_inner. apply Permutation_map.
    apply grid_stride_partition. exact Ht.
  - rewrite flat_map_assoc. apply Permutation_flat_map.
    apply grid_stride_partition. exact Hb.
Qed.

Lemma all_pairs_in n c i j :
  In (i, j) (all_pairs n c) <-> 0 <= i < n /\ 0 <= j < c.
Proof.
  unfold all_pairs. rewrite in_flat_map. split.
  - intros (i' & Hi & Hj). apply in_map_iff in Hj.
    destruct Hj as (j' & [= <- <-] & Hj).
    apply c_for_unit in Hi, Hj. auto.
  - intros [Hi Hj]. exists i. split; [apply c_for_unit; exact Hi |].
    apply in_map. apply c_for_unit. exact Hj.
Qed.

Section KernelRun.
Context {E : ElemType}.
Local Open Scope m_scope.

Lemma for_each_flat_map {A B} (g : A -> list B) (l : list A)
      (body : B -> M unit) s :
  for_each (flat_map g l) body s
  = for_each l (fun a => for_each (g a) body) s.
Proof.
  revert s. induction l as [| a l IH]; intros s; [reflexivity |].
  cbn [flat_map for_each]. rewrite for_each_app. unfold bind.
  destruct (for_each (g a) body s) as [s1 [[] | e]]; [apply IH |].
  reflexivity.
Qed.

(** The launch as one loop over the pairs it visits. *)
Lemma GpuKernel_call_pairs p tpb nb s :
  GpuKernel_call p tpb nb s
  = for_each (launch_pairs (numIndices p) (numColsX p) tpb nb)
      (fun ij s => atomicAdd (X p) (target p (fst ij) (snd ij))
                             (bufs s (Y p) (source p (fst ij) (snd ij))) s)
      s.
Proof.
  unfold GpuKernel_call, launch_pairs, thread_pairs, k_vector_add_fast.
  rewrite for_each_flat_map. apply for_each_ext. intros b s1 _.
  rewrite for_each_flat_map. apply for_each_ext. intros t s2 _.
  rewrite for_each_flat_map. apply for_each_ext. intros i s3 _.
  rewrite for_each_map. reflexivity.
Qed.


End KernelRun.

Lemma c_for_seq n : c_for 0 n 1 = map Z.of_nat (seq 0 (Z.to_nat n)).
Proof.
  unfold c_for, PyRef.range, PyRef.range_len. change (0 <? 1) with true.
  cbv iota.
  replace (Z.to_nat (if 0 <? n then (n - 0 - 1) / 1 + 1 else 0))
    with (Z.to_nat n)
    by (destruct (Z.ltb_spec 0 n); [rewrite Z.div_1_r |]; lia).
  apply map_ext. intros k. lia.
Qed.




Lemma asarray_c_for ind :
  asarray ind
  = map (fun i => ind_mem ind (ind_offset ind + i * ind_stride ind))
        (c_for 0 (ind_size ind) 1).
Proof. unfold asarray. rewrite c_for_seq, map_map. reflexivity. Qed.


Lemma quot_divide a b : (b | a) -> b * (a ÷ b) = a.
Proof.
  intros [z ->]. destruct (Z.eq_dec b 0) as [-> | Hb].
  - rewrite Z.mul_0_r. reflexivity.
  - rewrite Z.quot_mul by assumption. lia.
Qed.

Section FastPath.
Context {E : ElemType}.
Local Open Scope m_scope.

Lemma vector_add_fast_eq X y ind r c s0 s1 ry cy t0 t1 :
  shape X = [r; c] -> strides X = [s0; s1] ->
  shape y = [ry; cy] -> strides y = [t0; t1] ->
  GpuArray_vector_add_fast X y ind
  = if (Z.min c 256 >? 0) && (Z.min (ind_size ind) 4096 >? 0)
    then GpuKernel_call (fast_params X y ind r c s0 s1 ry cy t0 t1)
                        (Z.min c 256) (Z.min (ind_size ind) 4096)
    else ret tt.
Proof.
  intros H1 H2 H3 H4. unfold GpuArray_vector_add_fast.
  rewrite H1, H2, H3, H4. reflexivity.
Qed.

Lemma index_at_value X y ind r c s0 s1 ry cy t0 t1 i :
  (ind_itemsize ind | ind_stride ind) ->
  index_at (fast_params X y ind r c s0 s1 ry cy t0 t1) i
  = index_value ind i.
Proof.
  intros Hd. unfold index_at, index_value, fast_params. cbn.
  f_equal. f_equal.
  rewrite Z.mul_comm, <- Z.mul_assoc, (Z.mul_comm _ (ind_itemsize ind)).
  rewrite quot_divide by assumption. reflexivity.
Qed.

Lemma target_address X y ind r c s0 s1 ry cy t0 t1 i j :
  shape X = [r; c] -> strides X = [s0; s1] ->
  (itemsize (dtype_of X) | s0) -> (itemsize (dtype_of X) | s1) ->
  (ind_itemsize ind | ind_stride ind) ->
  0 <= r <= INT_MAX -> - r <= index_value ind i < r ->
  target (fast_params X y ind r c s0 s1 ry cy t0 t1) i j
  = address X [wrap r (index_value ind i); j].
Proof.
  intros Hsh Hst H0 H1 Hi Hr Hv. unfold target.
  rewrite index_at_value by assumption.
  change (numRowsX (fast_params X y ind r c s0 s1 ry cy t0 t1)) with r.
  rewrite x_row_eq by (unfold INT_MIN, INT_MAX in *; lia).
  fold (wrap r (index_value ind i)).
  unfold fast_params, address. cbn. rewrite Hst. cbn.
  rewrite Z.mul_add_distr_l.
  rewrite (Z.mul_comm (wrap r (index_value ind i))), Z.mul_assoc.
  rewrite (Z.mul_comm j), Z.mul_assoc.
  rewrite !quot_divide by assumption. lia.
Qed.

Lemma source_address X y ind r c s0 s1 ry t0 t1 i j :
  (ry <> 1 -> (itemsize (dtype_of y) | t0)) ->
  (c <> 1 -> (itemsize (dtype_of y) | t1)) ->
  0 <= i <= INT_MAX -> 0 <= j < c ->
  source (fast_params X y ind r c s0 s1 ry c t0 t1) i j
  = offset y + ((if ry =? 1 then 0 else i * t0) + j * t1).
Proof.
  intros H0 H1 Hi Hj. unfold source, fast_params. cbn.
  rewrite to_int_id by (unfold INT_MIN, INT_MAX in *; lia).
  f_equal. rewrite Z.mul_add_distr_l. f_equal.
  - destruct (Z.eqb_spec ry 1) as [| Hne]; [ring |].
    rewrite (Z.mul_comm i), Z.mul_assoc, quot_divide by auto. ring.
  - destruct (Z.eqb_spec c 1) as [-> | Hne].
    + assert (j = 0) by lia. subst j. ring.
    + rewrite (Z.mul_comm j), Z.mul_assoc, quot_divide by auto. ring.
Qed.

End FastPath.

Section SlowPath.
Context {E : ElemType}.
Local Open Scope m_scope.




End SlowPath.

Section Agreement.
Context {E : ElemType}.
Local Open Scope m_scope.

Lemma index_values_in_range ind r i :
  Forall (fun v => - r <= v < r) (asarray ind) ->
  0 <= i < ind_size ind ->
  - r <= index_value ind i < r.
Proof.
  intros H Hi. rewrite asarray_c_for in H.
  apply (proj1 (Forall_forall _ _) H).
  apply in_map_iff. exists i. split; [reflexivity |].
  apply c_for_unit. exact Hi.
Qed.


Lemma all_pairs_nil n c :
  (Z.min c 256 >? 0) && (Z.min n 4096 >? 0) = false ->
  all_pairs n c = [].
Proof.
  intros H. destruct (all_pairs n c) as [| [i j] l] eqn:El; [reflexivity |].
  assert (Hin : In (i, j) (all_pairs n c)) by (rewrite El; left; reflexivity).
  apply all_pairs_in in Hin.
  apply andb_false_iff in H. rewrite !Z.gtb_ltb in H.
  destruct H as [H | H]; apply Z.ltb_ge in H; lia.
Qed.


End Agreement.

Lemma flat_map_nil {A B} (l : list A) :
  flat_map (fun _ : A => @nil B) l = [].
Proof. induction l as [| a l IH]; [reflexivity | exact IH]. Qed.

Lemma c_for_unit_empty n : n <= 0 -> c_for 0 n 1 = [].
Proof.
  intros H. rewrite c_for_seq.
  replace (Z.to_nat n) with 0%nat by lia. reflexivity.
Qed.

(** With the launch configuration of [GpuArray_vector_add_fast], a launch
    that is skipped has nothing to visit. *)
Lemma launch_pairs_cover_min n c :
  Permutation (launch_pairs n c (Z.min c 256) (Z.min n 4096))
              (all_pairs n c).
Proof.
  destruct ((Z.min c 256 >? 0) && (Z.min n 4096 >? 0)) eqn:El.
  - apply andb_true_iff in El. rewrite !Z.gtb_ltb in El.
    destruct El as [E1 E2]. apply Z.ltb_lt in E1, E2.
    apply launch_pairs_cover; assumption.
  - rewrite (all_pairs_nil n c El).
    apply andb_false_iff in El. rewrite !Z.gtb_ltb in El.
    unfold launch_pairs.
    destruct El as [El | El]; apply Z.ltb_ge in El.
    + rewrite (c_for_unit_empty (Z.min c 256)) by exact El.
      cbn [flat_map]. rewrite flat_map_nil. constructor.
    + rewrite (c_for_unit_empty (Z.min n 4096)) by exact El.
      constructor.
Qed.


Lemma all_pairs_NoDup n c : NoDup (all_pairs n c).
Proof.
  unfold all_pairs. apply NoDup_flat_map_disjoint.
  - apply c_for_NoDup. lia.
  - intros i _. apply NoDup_map_NoDup_ForallPairs.
    + intros a b _ _ H. injection H as H. exact H.
    + apply c_for_NoDup. lia.
  - intros i i' ij _ _ Hne H H'.
    apply in_map_iff in H, H'.
    destruct H as (j & <- & _), H' as (j' & Heq & _).
    injection Heq as Heq _. congruence.
Qed.

(** X11.  A launch of [k_vector_add_fast] with [n_blocks] blocks of
    [threads_per_block] threads is one atomic addition for each pair it
    visits, and its grid-stride loops visit every pair of an index
    position [i < numIndices] and a column [j < numColsX] exactly once,
    and no other pair.  (The loop counters are C [int]s; within the
    bounds stated they do not wrap.) *)
Theorem kernel_launch_visits_every_pair_once
  {E : ElemType} (p : kparams) (threads_per_block n_blocks : Z) (s : store) :
  0 < threads_per_block -> 0 < n_blocks ->
  numIndices p + n_blocks <= INT_MAX ->
  numColsX p + threads_per_block <= INT_MAX ->
  let visited :=
    launch_pairs (numIndices p) (numColsX p) threads_per_block n_blocks in
  GpuKernel_call p threads_per_block n_blocks s
  = for_each visited
      (fun ij s => atomicAdd (X p) (target p (fst ij) (snd ij))
                             (bufs s (Y p) (source p (fst ij) (snd ij))) s)
      s /\
  NoDup visited /\
  (forall i j, In (i, j) visited <->
               0 <= i < numIndices p /\ 0 <= j < numColsX p) /\
  Permutation visited (all_pairs (numIndices p) (numColsX p)).
Proof.
  intros Ht Hb _ _ visited.
  pose proof (launch_pairs_cover (numIndices p) (numColsX p) _ _ Ht Hb)
    as Hperm.
  fold visited in Hperm.
  split; [apply GpuKernel_call_pairs |]. split; [| split].
  - eapply Permutation_NoDup; [apply Permutation_sym; exact Hperm |].
    apply all_pairs_NoDup.
  - intros i j. rewrite <- all_pairs_in. split; intros H.
    + eapply Permutation_in; eassumption.
    + eapply Permutation_in; [apply Permutation_sym |]; eassumption.
  - exact Hperm.
Qed.

Section FastFrame.
Context {E : ElemType}.
Local Open Scope m_scope.

Lemma frame_vector_add_fast out y ind :
  frame (fun h => h <> data out) (GpuArray_vector_add_fast out y ind).
Proof.
  unfold GpuArray_vector_add_fast.
  destruct (shape out) as [| r [| c [| ? ?]]]; try apply frame_raise.
  destruct (strides out) as [| s0 [| s1 [| ? ?]]]; try apply frame_raise.
  destruct (shape y) as [| ry [| cy [| ? ?]]]; try apply frame_raise.
  destruct (strides y) as [| t0 [| t1 [| ? ?]]]; try apply frame_raise.
  destruct (_ && _); [| apply frame_ret].
  unfold GpuKernel_call, k_vector_add_fast.
  apply frame_for_each. intros b. apply frame_for_each. intros t.
  apply frame_for_each. intros i. apply frame_for_each. intros j.
  unfold atomicAdd. cbn [X].
  apply (frame_write (fun h => h <> data out) (data out)
           (fun _ => target _ i j)
           (fun s => add (bufs s (data out) (target _ i j))
                         (bufs s _ (source _ i j)))).
  auto.
Qed.

End FastFrame.

(** The destination of the accelerated path is a matrix of the extents of
    [x] whose byte strides are multiples of the item size. *)
Lemma destination_rows_and_columns {E : ElemType} self s x r c s0 s1 :
  shape x = [r; c] -> strides x = [s0; s1] ->
  (inplace self = true ->
   (itemsize (dtype_of x) | s0) /\ (itemsize (dtype_of x) | s1)) ->
  let X := destination self s x in
  exists s0' s1',
    shape X = [r; c] /\ strides X = [s0'; s1'] /\
    (itemsize (dtype_of X) | s0') /\ (itemsize (dtype_of X) | s1').
Proof.
  intros Hsh Hst Hdiv X. subst X. unfold destination.
  destruct (inplace self).
  - destruct (Hdiv eq_refl) as [H0 H1]. exists s0, s1. auto.
  - exists (itemsize (dtype_of x) * (c * 1)), (itemsize (dtype_of x) * 1).
    cbn [shape strides dtype_of copy_of]. rewrite Hsh.
    cbn [c_strides prod].
    split; [reflexivity |]. split; [reflexivity |].
    split; [exists (c * 1); ring | exists 1; ring].
Qed.

(** X12.  The [inplace] flag on the accelerated path, on operands within
    the contract of the kernel ([fast_path_operands]: index values that
    name rows of [x] among it).  The code
    [GpuAdvancedIncSubtensor1_dev20.c_code] generates succeeds and
    returns the destination, the copy of [x] when [inplace] is false and
    [x] itself when it is true.  In the buffer of the destination it
    writes elements of the destination only: every address that is not
    that of an element keeps its content.  With [inplace] false no buffer
    that existed before the call is written; with [inplace] true, among
    those buffers, the buffer of [x] only. *)
Theorem fast_path_respects_inplace
  {E : ElemType} (self : IncOp) (x y : GpuArray) (ind : IndexVector)
  (s : store) (compute_capability r c s0 s1 ry t0 t1 : Z) (code : ccode) :
  c_code self (ndim x) (ndim y) compute_capability = Ok code ->
  fast_path_operands x y ind r c s0 s1 ry t0 t1 ->
  (inplace self = true ->
   (itemsize (dtype_of x) | s0) /\ (itemsize (dtype_of x) | s1)) ->
  let out := destination self s x in
  let res := exec code x y ind s in
  snd res = Ok out /\
  (forall t, outside out t ->
     bufs (fst res) (data out) t = bufs (start_store self s x) (data out) t) /\
  (inplace self = false ->
   (forall h t, (h < next s)%nat -> bufs (fst res) h t = bufs s h t) /\
   out = copy_of s x) /\
  (inplace self = true ->
   (forall h t, h <> data x -> (h < next s)%nat ->
                bufs (fst res) h t = bufs s h t) /\
   out = x).
Proof.
  intros Hcode Hop Hdiv out res.
  assert (Hc : code = VectorAddFast (inplace self)).
  { unfold c_code in Hcode. destruct (_ || _); [discriminate |].
    injection Hcode as <-. reflexivity. }
  subst code.
  assert (Hframe :
    (inplace self = false ->
     (forall h t, (h < next s)%nat -> bufs (fst res) h t = bufs s h t) /\
     (forall out, snd res = Ok out -> out = copy_of s x)) /\
    (inplace self = true ->
     (forall h t, h <> data x -> (h < next s)%nat ->
                  bufs (fst res) h t = bufs s h t) /\
     (forall out, snd res = Ok out -> out = x))).
  { subst res. cbn [exec].
    apply (optional_copy_frame (inplace self) x
             (fun out => bind (GpuArray_vector_add_fast out y ind)
                              (fun _ => ret out)) s).
    - intros x'. apply frame_bind; [apply frame_vector_add_fast |].
      intros. apply frame_ret.
    - intros x' s' out'. apply bind_ret_result. }
  destruct Hop as [HshX HstX Hshy Hsty Hr Hcc Hn Hry Ht0 Ht1 Hind Hval].
  destruct (destination_rows_and_columns self s x r c s0 s1 HshX HstX Hdiv)
    as (s0' & s1' & HshD & HstD & Hd0 & Hd1).
  fold out in HshD, HstD, Hd0, Hd1.
  set (st := start_store self s x).
  set (p := fast_params out y ind r c s0' s1' ry c t0 t1).
  assert (Hres : exists s',
                   res = (s', Ok out) /\
                   forall t, outside out t ->
                     bufs s' (data out) t = bufs st (data out) t).
  { subst res. cbn [exec]. unfold bind at 1.
    rewrite optional_copy_eq. fold out st.
    unfold bind at 1.
    rewrite (vector_add_fast_eq out y ind r c s0' s1' ry c t0 t1
               HshD HstD Hshy Hsty). fold p.
    destruct ((Z.min c 256 >? 0) && (Z.min (ind_size ind) 4096 >? 0)).
    - rewrite GpuKernel_call_pairs. unfold atomicAdd.
      rewrite (for_each_writes (X p)
                 (fun ij => target p (fst ij) (snd ij))
                 (fun st ij =>
                    add (bufs st (X p) (target p (fst ij) (snd ij)))
                        (bufs st (Y p) (source p (fst ij) (snd ij))))).
      unfold ret. eexists. split; [reflexivity |].
      intros t Hout. change (X p) with (data out).
      apply writes_untouched. intros Hin.
      apply in_map_iff in Hin. destruct Hin as ([i j] & Heq & Hij).
      cbn [fst snd] in Heq.
      change (numIndices p) with (ind_size ind) in Hij.
      change (numColsX p) with c in Hij.
      assert (Hb : 0 <= i < ind_size ind /\ 0 <= j < c).
      { apply all_pairs_in.
        eapply Permutation_in; [apply launch_pairs_cover_min | exact Hij]. }
      destruct Hb as [Hi Hj].
      pose proof (index_values_in_range ind r i Hval Hi) as Hv.
      subst p.
      rewrite (target_address out y ind r c s0' s1' ry c t0 t1 i j)
        in Heq by assumption.
      apply (Hout [wrap r (index_value ind i); j]); [| exact Heq].
      rewrite HshD. apply indices_of_cons.
      exists (wrap r (index_value ind i)), [j].
      split; [reflexivity |]. split.
      + unfold wrap. destruct (Z.ltb_spec (index_value ind i) 0); lia.
      + apply indices_of_cons. exists j, []. simpl. auto.
    - unfold ret. eexists. split; reflexivity. }
  destruct Hres as (s' & Hres & Hin).
  split; [rewrite Hres; reflexivity |].
  split; [rewrite Hres; exact Hin |].
  destruct Hframe as [Hf Ht]. split.
  - intros Hi. split; [apply (Hf Hi) |].
    subst out. unfold destination. rewrite Hi. reflexivity.
  - intros Hi. split; [apply (Ht Hi) |].
    subst out. unfold destination. rewrite Hi. reflexivity.
Qed.

Lemma kernel_launch_visits_every_pair_once_witness :
  let visited := launch_pairs 5 3 2 4 in
  GpuKernel_call five_by_three 2 4 zeros_and_ones
  = for_each visited
      (fun ij s =>
         atomicAdd 0%nat (target five_by_three (fst ij) (snd ij))
                   (bufs s 1%nat (source five_by_three (fst ij) (snd ij))) s)
      zeros_and_ones /\
  NoDup visited /\
  (forall i j, In (i, j) visited <-> 0 <= i < 5 /\ 0 <= j < 3) /\
  Permutation visited (all_pairs 5 3).
Proof.
  apply (kernel_launch_visits_every_pair_once
           (E := Z_elem) five_by_three 2 4 zeros_and_ones);
    unfold INT_MAX; simpl; lia.
Defined.

(** The order in which two blocks of two threads visit the pairs. *)
Example launch_order :
  launch_pairs 3 3 2 2
  = [(0, 0); (0, 2); (2, 0); (2, 2); (0, 1); (2, 1);
     (1, 0); (1, 2); (1, 1)].
Proof. reflexivity. Qed.

Lemma fast_path_respects_inplace_witness :
  let s := store_of [[[0; 0]; [0; 0]; [0; 0]]; [[1; 2]; [3; 4]]] in
  let x := matrix 0 3 2 in
  let out := matrix 2 3 2 in
  let res := exec (VectorAddFast false) x (matrix 1 2 2)
                  (index_vector_of [0; -3]) s in
  snd res = Ok out /\
  (forall t, outside out t ->
     bufs (fst res) 2%nat t
     = bufs (start_store (mkIncOp false false) s x) 2%nat t) /\
  (forall h t, (h < 2)%nat -> bufs (fst res) h t = bufs s h t).
Proof.
  intros s x out res.
  assert (Hop : fast_path_operands x (matrix 1 2 2) (index_vector_of [0; -3])
                  3 2 16 8 2 16 8).
  { constructor.
    - reflexivity.
    - reflexivity.
    - reflexivity.
    - reflexivity.
    - unfold INT_MAX. lia.
    - unfold INT_MAX. lia.
    - unfold INT_MAX. simpl. lia.
    - right. reflexivity.
    - intros _. exists 2. reflexivity.
    - intros _. exists 1. reflexivity.
    - exists 1. reflexivity.
    - change (asarray (index_vector_of [0; -3])) with [0; -3].
      repeat (apply Forall_cons; [lia |]). apply Forall_nil. }
  destruct (fast_path_respects_inplace
              (E := Z_elem) (mkIncOp false false) x (matrix 1 2 2)
              (index_vector_of [0; -3]) s 3 3 2 16 8 2 16 8
              (VectorAddFast false) eq_refl Hop
              ltac:(intros H; discriminate H))
    as (H1 & H2 & H3 & _).
  split; [exact H1 |]. split; [exact H2 |].
  exact (proj1 (H3 eq_refl)).
Defined.


(** Both paths on the example: the two rows of the source are added to
    row 0, named once as 0 and once as -3. *)
Example fast_and_slow_example :
  let s := store_of [[[0; 0]; [0; 0]; [0; 0]]; [[1; 2]; [3; 4]]] in
  let ind := index_vector_of [0; -3] in
  asarray ind = [0; -3] /\
  tolist2 (fst (exec (VectorAddFast true) (matrix 0 3 2) (matrix 1 2 2)
                     ind s)) (matrix 0 3 2)
  = [[4; 6]; [0; 0]; [0; 0]] /\
  tolist2 (fst (GpuAdvancedIncSubtensor1.perform
                  (mkIncOp true false) (matrix 0 3 2) (matrix 1 2 2)
                  (asarray ind) s)) (matrix 0 3 2)
  = [[4; 6]; [0; 0]; [0; 0]].
Proof. repeat split; reflexivity. Qed.

(** X14.  On operands within the contract of the kernel, every pair a
    launch visits adds to an element of [x], the one in the row the
    index names and the column of the pair, and reads an element of [y]:
    no address outside the two matrices is touched. *)
Theorem kernel_stays_inside_its_operands
  (x y : GpuArray) (ind : IndexVector) (r c s0 s1 ry t0 t1 : Z)
  (threads_per_block n_blocks i j : Z) :
  fast_path_operands x y ind r c s0 s1 ry t0 t1 ->
  (itemsize (dtype_of x) | s0) -> (itemsize (dtype_of x) | s1) ->
  0 < threads_per_block -> 0 < n_blocks ->
  In (i, j) (launch_pairs (ind_size ind) c threads_per_block n_blocks) ->
  let p := fast_params x y ind r c s0 s1 ry c t0 t1 in
  let row_x := wrap r (index_value ind i) in
  let row_y := if ry =? 1 then 0 else i in
  In [row_x; j] (indices_of (shape x)) /\
  target p i j = address x [row_x; j] /\
  In [row_y; j] (indices_of (shape y)) /\
  source p i j = address y [row_y; j].
Proof.
  intros Hop H0 H1 Ht Hb Hin p row_x row_y.
  pose proof Hop as [HshX HstX Hshy Hsty Hr Hc Hn Hry Ht0 Ht1 Hind Hval].
  assert (Hij : 0 <= i < ind_size ind /\ 0 <= j < c).
  { apply all_pairs_in.
    eapply Permutation_in; [| exact Hin].
    apply launch_pairs_cover; assumption. }
  destruct Hij as [Hi Hj].
  pose proof (index_values_in_range ind r i Hval Hi) as Hv.
  assert (Hw : 0 <= row_x < r)
    by (subst row_x; unfold wrap; destruct (Z.ltb_spec (index_value ind i) 0);
        lia).
  assert (Hy : 0 <= row_y < ry).
  { subst row_y. destruct (Z.eqb_spec ry 1); [lia |].
    destruct Hry; [contradiction | lia]. }
  split; [| split; [| split]].
  - rewrite HshX. apply indices_of_cons. exists row_x, [j].
    split; [reflexivity |]. split; [exact Hw |].
    apply indices_of_cons. exists j, []. simpl. auto.
  - apply target_address; assumption.
  - rewrite Hshy. apply indices_of_cons. exists row_y, [j].
    split; [reflexivity |]. split; [exact Hy |].
    apply indices_of_cons. exists j, []. simpl. auto.
  - subst p. rewrite source_address by (auto; lia).
    unfold address. rewrite Hsty. subst row_y. cbn [dot].
    destruct (ry =? 1); lia.
Qed.

Lemma kernel_stays_inside_its_operands_witness :
  let x := matrix 0 3 2 in
  let y := matrix 1 2 2 in
  let ind := index_vector_of [0; -3] in
  let p := fast_params x y ind 3 2 16 8 2 2 16 8 in
  In [wrap 3 (index_value ind 1); 1] (indices_of (shape x)) /\
  target p 1 1 = address x [wrap 3 (index_value ind 1); 1] /\
  In [1; 1] (indices_of (shape y)) /\
  source p 1 1 = address y [1; 1].
Proof.
  intros x y ind p.
  refine (kernel_stays_inside_its_operands x y ind 3 2 16 8 2 16 8 2 2 1 1
            _ _ _ _ _ _).
  - constructor.
    + reflexivity.
    + reflexivity.
    + reflexivity.
    + reflexivity.
    + unfold INT_MAX. lia.
    + unfold INT_MAX. lia.
    + unfold INT_MAX. simpl. lia.
    + right. reflexivity.
    + intros _. exists 2. reflexivity.
    + intros _. exists 1. reflexivity.
    + exists 1. reflexivity.
    + change (asarray ind) with [0; -3].
      repeat (apply Forall_cons; [lia |]). apply Forall_nil.
  - exists 2. reflexivity.
  - exists 1. reflexivity.
  - lia.
  - lia.
  - vm_compute. auto 10.
Defined.

End Dev20Facts.

(** ** What [atomicAdd] returns and the word it exchanges *)

Section Returns.
Import AtomicHalf AtomicHalfFacts.
Variable half_add : Z -> Z -> Z.
Variable addr : Z.
Variable val : Z.

Lemma returned_app l1 l2 : returned (l1 ++ l2) = returned l1 ++ returned l2.
Proof. unfold returned. apply flat_map_app. Qed.

Lemma partial_sums_S k h0 :
  partial_sums half_add val (S k) h0
  = partial_sums half_add val k h0 ++ [sum_of half_add val k h0].
Proof.
  unfold partial_sums. rewrite seq_S, map_app. reflexivity.
Qed.

Lemma step_returns w0 s s' :
  step half_add addr val s s' ->
  cas_inv half_add addr val w0 s ->
  Permutation (returned (threads s))
              (partial_sums half_add val (done_count (threads s))
                            (target_half addr w0)) ->
  Permutation (returned (threads s'))
              (partial_sums half_add val (done_count (threads s'))
                            (target_half addr w0)).
Proof.
  intros Hstep [Ht _] Hp. destruct Hstep as [w l1 t l2 w' t' Hts].
  simpl word in *. simpl threads in *.
  rewrite returned_app, done_count_app in *.
  destruct t as [| old | r]; simpl in Hts; [| | discriminate].
  - injection Hts as <- <-. exact Hp.
  - injection Hts as <- <-. rewrite (Z.eqb_sym old w).
    destruct (Z.eqb_spec w old) as [-> | Hne]; [| exact Hp].
    cbn [returned flat_map app] in *. fold (returned l2) in *.
    unfold done_count in *. cbn [filter is_done length] in *.
    rewrite Nat.add_succ_r, partial_sums_S.
    rewrite extract_target, Ht.
    rewrite <- Permutation_middle. rewrite <- Permutation_cons_append.
    apply perm_skip. exact Hp.
  Qed.

Lemma steps_returns w0 n s s' :
  steps half_add addr val n s s' ->
  cas_inv half_add addr val w0 s ->
  Permutation (returned (threads s))
              (partial_sums half_add val (done_count (threads s))
                            (target_half addr w0)) ->
  Permutation (returned (threads s'))
              (partial_sums half_add val (done_count (threads s'))
                            (target_half addr w0)).
Proof.
  induction 1 as [| n s1 s2 s3 Hstep _ IH]; intros Hinv Hp; [assumption |].
  apply IH.
  - eapply step_inv; eassumption.
  - eapply step_returns; eassumption.
Qed.

Lemma init_returned N : returned (repeat Start N) = [].
Proof. induction N as [| k IH]; [reflexivity | exact IH]. Qed.

Lemma init_done_count N : done_count (repeat Start N) = 0%nat.
Proof.
  unfold done_count. induction N as [| k IH]; [reflexivity | exact IH].
Qed.

End Returns.

(** X15.  [atomicAdd] returns the value the half-float held just before
    the addition of the call.  Along every execution of [N] calls on the
    same half-float, the values the returned calls gave back are, in some
    order, the half-float after 0, 1, ... additions, each once; when all
    have returned, the [N] successive values from the initial one. *)
Theorem atomic_add_returns_the_partial_sums
  (half_add : Z -> Z -> Z) (addr val : Z) (N : nat) (w0 : Z)
  (n : nat) (s : AtomicHalf.sys) :
  AtomicHalf.steps half_add addr val n (AtomicHalf.init N w0) s ->
  Permutation (returned (AtomicHalf.threads s))
              (partial_sums half_add val (done_count (AtomicHalf.threads s))
                            (AtomicHalf.target_half addr w0)) /\
  (AtomicHalf.all_done s ->
   Permutation (returned (AtomicHalf.threads s))
               (partial_sums half_add val N
                             (AtomicHalf.target_half addr w0))).
Proof.
  intros Hsteps.
  assert (Hp : Permutation (returned (AtomicHalf.threads s))
                 (partial_sums half_add val
                    (done_count (AtomicHalf.threads s))
                    (AtomicHalf.target_half addr w0))).
  { eapply steps_returns; [exact Hsteps | |].
    - unfold cas_inv. simpl. rewrite init_done_count. auto.
    - simpl. rewrite init_returned, init_done_count. constructor. }
  split; [exact Hp |].
  intros Hd. rewrite (all_done_count s Hd) in Hp.
  rewrite (steps_length half_add addr val n _ _ Hsteps) in Hp.
  simpl in Hp. rewrite repeat_length in Hp. exact Hp.
Qed.

Lemma land_split a b : Z.land a (Z.lnot b) + Z.land a b = a.
Proof.
  rewrite Z.add_nocarry_lxor.
  - apply Z.bits_inj'. intros n Hn.
    rewrite Z.lxor_spec, !Z.land_spec, Z.lnot_spec by exact Hn.
    destruct (Z.testbit a n), (Z.testbit b n); reflexivity.
  - apply Z.bits_inj'. intros n Hn.
    rewrite !Z.land_spec, Z.lnot_spec, Z.bits_0 by exact Hn.
    destruct (Z.testbit a n), (Z.testbit b n); reflexivity.
Qed.

Lemma land_2 a :
  Z.land a 2 = if (a mod 4 =? 2) || (a mod 4 =? 3) then 2 else 0.
Proof.
  assert (H : Z.land a 2 = Z.land (a mod 4) 2).
  { change 4 with (2 ^ 2). rewrite <- Z.land_ones by lia.
    rewrite <- Z.land_assoc. reflexivity. }
  rewrite H. pose proof (Z.mod_pos_bound a 4 ltac:(lia)) as Hb.
  assert (Hr : a mod 4 = 0 \/ a mod 4 = 1 \/ a mod 4 = 2 \/ a mod 4 = 3)
    by lia.
  destruct Hr as [-> | [-> | [-> | ->]]]; reflexivity.
Qed.

(** X16.  The word [atomicAdd] exchanges.  For a half-float at an even
    address, [base] is a multiple of 4 and the four bytes from [base]
    hold the two bytes of the half-float, at offset 2 exactly when
    [upper] selects the upper half of the word. *)
Theorem atomic_add_exchanges_the_word_of_the_half (addr : Z) :
  addr mod 2 = 0 ->
  base addr mod 4 = 0 /\
  base addr <= addr /\ addr + 2 <= base addr + 4 /\
  addr - base addr = (if AtomicHalf.upper addr then 2 else 0).
Proof.
  intros Heven. unfold base, AtomicHalf.upper.
  pose proof (land_split addr 2) as Hs.
  pose proof (land_2 addr) as H2. rewrite H2 in *.
  pose proof (Z.mod_pos_bound addr 4 ltac:(lia)) as Hb.
  assert (Hr : addr mod 4 = 0 \/ addr mod 4 = 2).
  { rewrite (Z.div_mod addr 4) in Heven by lia.
    replace (4 * (addr / 4) + addr mod 4)
      with (addr mod 4 + (2 * (addr / 4)) * 2) in Heven by lia.
    rewrite Z.mod_add in Heven by lia.
    assert (addr mod 4 = 0 \/ addr mod 4 = 1 \/ addr mod 4 = 2
            \/ addr mod 4 = 3) as [H | [H | [H | H]]] by lia;
      rewrite H in Heven; try discriminate; auto. }
  destruct Hr as [Hr | Hr]; rewrite Hr in *; cbn in *.
  - repeat split; try lia.
    replace (Z.land addr (-3)) with addr by lia. exact Hr.
  - repeat split; try lia.
    replace (Z.land addr (-3)) with (addr - 2) by lia.
    rewrite <- (Z.mod_add _ 1 4) by lia.
    replace (addr - 2 + 1 * 4) with (addr + 2) by lia.
    rewrite Z.add_mod, Hr by lia. reflexivity.
Qed.

Lemma atomic_add_exchanges_the_word_of_the_half_witness :
  base 6 mod 4 = 0 /\ base 6 <= 6 /\ 6 + 2 <= base 6 + 4 /\
  6 - base 6 = (if AtomicHalf.upper 6 then 2 else 0).
Proof.
  apply (atomic_add_exchanges_the_word_of_the_half 6). reflexivity.
Defined.

Lemma atomic_add_returns_the_partial_sums_witness :
  Permutation (returned (AtomicHalf.threads contended_run))
              (partial_sums int_add 1
                 (done_count (AtomicHalf.threads contended_run))
                 (AtomicHalf.target_half 2 0x00050003)) /\
  (AtomicHalf.all_done contended_run ->
   Permutation (returned (AtomicHalf.threads contended_run))
               (partial_sums int_add 1 2
                             (AtomicHalf.target_half 2 0x00050003))).
Proof.
  apply (atomic_add_returns_the_partial_sums int_add 2 1 2 0x00050003 5
           contended_run).
  eapply AtomicHalf.steps_S;
    [apply (AtomicHalf.step_thread int_add 2 1 _ [] AtomicHalf.Start
              [AtomicHalf.Start]); reflexivity |].
  eapply AtomicHalf.steps_S;
    [apply (AtomicHalf.step_thread int_add 2 1 _ [AtomicHalf.Loop 0x00050003]
              AtomicHalf.Start []); reflexivity |].
  eapply AtomicHalf.steps_S;
    [apply (AtomicHalf.step_thread int_add 2 1 _ []
              (AtomicHalf.Loop 0x00050003) [AtomicHalf.Loop 0x00050003]);
     reflexivity |].
  eapply AtomicHalf.steps_S;
    [apply (AtomicHalf.step_thread int_add 2 1 _ [AtomicHalf.Done 5]
              (AtomicHalf.Loop 0x00050003) []); reflexivity |].
  eapply AtomicHalf.steps_S;
    [apply (AtomicHalf.step_thread int_add 2 1 _ [AtomicHalf.Done 5]
              (AtomicHalf.Loop 0x00060003) []); reflexivity |].
  apply AtomicHalf.steps_O.
Defined.

(** ** Nodes and pickled state *)

Section NodeChecks.
Import String.

Lemma make_node_checks_aux
  (set_instead_of_inc : bool) (x_ y_ ilist_ : Node.TensorType) :
  (forall node,
     Node.make_node set_instead_of_inc x_ y_ ilist_ = Node.Applied node <->
     (Node.type_dtype x_ = Node.type_dtype y_ /\
      (1 <= Node.type_ndim x_)%nat /\
      (Node.type_ndim y_ <= Node.type_ndim x_)%nat /\
      Node.integer_dtype (Node.type_dtype ilist_) = true /\
      Node.type_ndim ilist_ = 1%nat) /\
     node = Node.mkApply [x_; y_; ilist_] [x_]) /\
  ((Node.type_ndim x_ < Node.type_ndim y_)%nat ->
   Node.make_node set_instead_of_inc x_ y_ ilist_
   = Node.NodeRaise Node.NodeAssertionError) /\
  (forall msg,
     Node.make_node set_instead_of_inc x_ y_ ilist_
     = Node.NodeRaise (Node.NodeTypeError msg) ->
     msg = "index must be integers"%string \/
     msg = "index must be vector"%string \/
     msg = "cannot index into a scalar"%string).
Proof.
  unfold Node.make_node.
  destruct (String.eqb_spec (Node.type_dtype x_) (Node.type_dtype y_))
    as [Hd | Hd]; cbn [negb].
  2:{ split; [| split].
      - intros node. split; [discriminate | intros [(H & _) _]; contradiction].
      - reflexivity.
      - discriminate. }
  destruct (Nat.leb_spec (Node.type_ndim y_) (Node.type_ndim x_))
    as [Hr | Hr]; cbn [negb].
  2:{ split; [| split].
      - intros node. split; [discriminate | intros [(_ & _ & H & _) _]; lia].
      - reflexivity.
      - discriminate. }
  destruct (Node.integer_dtype (Node.type_dtype ilist_)) eqn:Hi; cbn [negb].
  2:{ split; [| split].
      - intros node. split; [discriminate |].
        intros [(_ & _ & _ & H & _) _]. discriminate.
      - lia.
      - intros msg [= <-]. auto. }
  destruct (Nat.eqb_spec (Node.type_ndim ilist_) 1) as [Hv | Hv]; cbn [negb].
  2:{ split; [| split].
      - intros node. split; [discriminate |].
        intros [(_ & _ & _ & _ & H) _]. contradiction.
      - lia.
      - intros msg [= <-]. auto. }
  destruct (Nat.eqb_spec (Node.type_ndim x_) 0) as [H0 | H0].
  { split; [| split].
    - intros node. split; [discriminate | intros [(_ & H & _) _]; lia].
    - lia.
    - intros msg [= <-]. auto. }
  destruct (Nat.ltb_spec (Node.type_ndim x_) (Node.type_ndim y_)); [lia |].
  split; [| split].
  - intros node. split.
    + intros [= <-]. repeat split; auto; lia.
    + intros [_ ->]. reflexivity.
  - lia.
  - discriminate.
Qed.

(** X17.  [make_node] of the two scatter operations builds a node, with
    the inputs [x], [y], [ilist] and an output of the type of [x],
    exactly when [x] and [y] have the same dtype, [x] has rank at least 1
    and at least the rank of [y], and the index is a vector of an integer
    dtype.  A [y] of higher rank than [x] fails the assertion, so that
    the [TypeError] on the ranks that closes the function is never
    raised: the only type errors are the three about the index and the
    scalar [x]. *)
Theorem make_node_checks
  (set_instead_of_inc : bool) (x_ y_ ilist_ : Node.TensorType) :
  (forall node,
     Node.make_node set_instead_of_inc x_ y_ ilist_ = Node.Applied node <->
     (Node.type_dtype x_ = Node.type_dtype y_ /\
      (1 <= Node.type_ndim x_)%nat /\
      (Node.type_ndim y_ <= Node.type_ndim x_)%nat /\
      Node.integer_dtype (Node.type_dtype ilist_) = true /\
      Node.type_ndim ilist_ = 1%nat) /\
     node = Node.mkApply [x_; y_; ilist_] [x_]) /\
  ((Node.type_ndim x_ < Node.type_ndim y_)%nat ->
   Node.make_node set_instead_of_inc x_ y_ ilist_
   = Node.NodeRaise Node.NodeAssertionError) /\
  (forall msg,
     Node.make_node set_instead_of_inc x_ y_ ilist_
     = Node.NodeRaise (Node.NodeTypeError msg) ->
     msg = "index must be integers"%string \/
     msg = "index must be vector"%string \/
     msg = "cannot index into a scalar"%string).
Proof. apply make_node_checks_aux. Qed.

(** Among the dtype names of the graph layer, an index may have the
    eight integer ones. *)
Example integer_dtypes :
  filter Node.integer_dtype Node.dtype_names
  = ["int8"; "int16"; "int32"; "int64";
     "uint8"; "uint16"; "uint32"; "uint64"]%string.
Proof. reflexivity. Qed.

End NodeChecks.

Section SourcePreparation.
Context {E : ElemType}.

(** X18.  On a node [make_node] accepted, [perform] cannot fail while it
    prepares the source: for arrays of the ranks of the node, the test
    [y.shape[0] != 1] is defined, and when [y] is to be broadcast its
    reshape succeeds and gives a view on the buffer of [y] with the rank
    of a row of [x] and the elements of [y] in order. *)
Theorem accepted_nodes_prepare_their_source
  (set_instead_of_inc : bool) (x_ y_ ilist_ : Node.TensorType)
  (node : Node.Apply) (x y : GpuArray) (s : store) :
  Node.make_node set_instead_of_inc x_ y_ ilist_ = Node.Applied node ->
  ndim x = Node.type_ndim x_ -> ndim y = Node.type_ndim y_ ->
  length (strides y) = length (shape y) ->
  exists j,
    GpuAdvancedIncSubtensor1.jointly x y = Ok j /\
    (j = false ->
     exists src,
       (if (ndim y =? ndim x)%nat
        then Pygpu.reshape y (tl (shape y))
        else
          let nb_dims_to_add := (Z.of_nat (ndim x) - 1) - Z.of_nat (ndim y) in
          Pygpu.reshape y (repeat 1 (Z.to_nat nb_dims_to_add) ++ shape y))
       = Ok src /\
       data src = data y /\ ndim src = (ndim x - 1)%nat /\
       contents s src = contents s y).
Proof.
  intros Hnode Hx Hy Hst.
  destruct (proj1 (proj1 (make_node_checks_aux set_instead_of_inc x_ y_ ilist_)
                     node) Hnode) as [(_ & Hx1 & Hle & _) _].
  rewrite <- Hx in Hx1, Hle. rewrite <- Hy in Hle.
  exists (ScatterSpec.one_to_one x y).
  split; [apply jointly_eq; exact Hx1 |].
  intros Hone. rewrite reshaped_eq.
  destruct (broadcast_source_reads_y x y s Hst Hle Hx1 Hone)
    as (src & Hsrc & Hd & _ & Hn & Hc).
  exists src. auto.
Qed.

End SourcePreparation.

Section NodeWitness.
Import String.

Lemma accepted_nodes_prepare_their_source_witness :
  let x_ := Node.mkTensorType "float32" 2 in
  let y_ := Node.mkTensorType "float32" 1 in
  let x := matrix 0 3 2 in
  let y := mkGpuArray 1 0 [2] [8] float64 in
  let s := store_of [[[0; 0]; [0; 0]; [0; 0]]; [[5; 7]]] in
  exists j,
    GpuAdvancedIncSubtensor1.jointly x y = Ok j /\
    (j = false ->
     exists src,
       (if (ndim y =? ndim x)%nat
        then Pygpu.reshape y (tl (shape y))
        else
          let nb_dims_to_add := (Z.of_nat (ndim x) - 1) - Z.of_nat (ndim y) in
          Pygpu.reshape y (repeat 1 (Z.to_nat nb_dims_to_add) ++ shape y))
       = Ok src /\
       data src = data y /\ ndim src = (ndim x - 1)%nat /\
       contents s src = contents s y).
Proof.
  intros x_ y_ x y s.
  apply (accepted_nodes_prepare_their_source
           (E := Z_elem) false x_ y_ (Node.mkTensorType "int64" 1)
           (Node.mkApply [x_; y_; Node.mkTensorType "int64" 1] [x_])
           x y s); reflexivity.
Defined.

End NodeWitness.

Section Pickle.
Import String.
Import GpuIncSubtensorState.
Variable V : Type.

Lemma get_not_in (d : dict V) k : ~ In k (keys V d) -> get V d k = None.
Proof.
  induction d as [| [k' v] d IH]; intros Hn; [reflexivity |].
  simpl in *. destruct (String.eqb_spec k' k) as [-> | Hne]; [tauto |].
  apply IH. tauto.
Qed.

Lemma set_fresh (d : dict V) k v :
  ~ In k (keys V d) -> set V d k v = d ++ [(k, v)].
Proof.
  induction d as [| [k' v'] d IH]; intros Hn; [reflexivity |].
  simpl in *. destruct (String.eqb_spec k' k) as [-> | Hne]; [tauto |].
  rewrite IH by tauto. reflexivity.
Qed.

Lemma update_fresh (other : dict V) : forall d,
  NoDup (keys V other) ->
  (forall k, In k (keys V other) -> ~ In k (keys V d)) ->
  update V d other = d ++ other.
Proof.
  unfold update.
  induction other as [| [k v] other IH]; intros d Hnd Hdis; simpl.
  - symmetry. apply app_nil_r.
  - inversion Hnd as [| ? ? Hk Hnd']; subst.
    rewrite set_fresh by (apply Hdis; left; reflexivity).
    rewrite IH.
    + rewrite <- app_assoc. reflexivity.
    + exact Hnd'.
    + intros k' Hk' Hin. unfold keys in Hin. rewrite map_app in Hin.
      apply in_app_or in Hin. destruct Hin as [Hin | [<- | []]].
      * apply (Hdis k'); [right; exact Hk' | exact Hin].
      * exact (Hk Hk').
Qed.

Lemma keys_pop (d : dict V) k k' :
  In k' (keys V (pop V d k)) -> In k' (keys V d).
Proof.
  induction d as [| [k0 v] d IH]; [auto |].
  simpl. destruct (String.eqb k0 k); simpl; [auto |].
  intros [-> | H]; auto.
Qed.

Lemma NoDup_pop (d : dict V) k :
  NoDup (keys V d) -> NoDup (keys V (pop V d k)).
Proof.
  induction d as [| [k0 v] d IH]; intros Hnd; [constructor |].
  inversion Hnd as [| ? ? Hk Hnd']; subst. simpl.
  destruct (String.eqb k0 k); [exact Hnd' |].
  simpl. constructor; [| apply IH; exact Hnd'].
  intros Hin. apply Hk. eapply keys_pop. exact Hin.
Qed.

Lemma get_pop (d : dict V) k k' :
  NoDup (keys V d) ->
  get V (pop V d k) k' = if (k' =? k)%string then None else get V d k'.
Proof.
  induction d as [| [k0 v] d IH]; intros Hnd.
  - simpl. destruct (k' =? k)%string; reflexivity.
  - inversion Hnd as [| ? ? Hk Hnd']; subst. simpl.
    destruct (String.eqb_spec k0 k) as [-> | Hne].
    + destruct (String.eqb_spec k' k) as [Heq | Hne'].
      * rewrite Heq. apply get_not_in. exact Hk.
      * destruct (String.eqb_spec k k'); [congruence | reflexivity].
    + simpl. destruct (String.eqb_spec k0 k') as [Heq | Hne'].
      * destruct (String.eqb_spec k' k); [congruence | reflexivity].
      * apply IH. exact Hnd'.
Qed.

(** X19.  Pickling drops [iadd_node] and unpickling does not rebuild
    it.  For the attributes [d] of an op, restoring the state
    [__getstate__] saved into a new object succeeds and gives the
    attributes of [d] in order, without [iadd_node]: that key is absent
    and every other key has the value it had. *)
Theorem pickling_drops_iadd_node (d : dict V) :
  NoDup (keys V d) ->
  exists d',
    setstate V [] (getstate V d) = Some d' /\
    d' = getstate V d /\
    NoDup (keys V d') /\
    get V d' "iadd_node" = None /\
    forall k, k <> "iadd_node"%string -> get V d' k = get V d k.
Proof.
  intros Hnd.
  assert (Hg : NoDup (keys V (getstate V d))).
  { unfold getstate. destruct (contains V d "iadd_node");
      [apply NoDup_pop |]; exact Hnd. }
  exists (getstate V d). split.
  - unfold setstate, getattr_of_dict.
    rewrite update_fresh; [reflexivity | exact Hg | intros k _ []].
  - split; [reflexivity |]. split; [exact Hg |].
    unfold getstate, contains.
    destruct (get V d "iadd_node") eqn:Ei.
    + split.
      * rewrite get_pop by exact Hnd. rewrite String.eqb_refl. reflexivity.
      * intros k Hk. rewrite get_pop by exact Hnd.
        destruct (String.eqb_spec k "iadd_node"); [contradiction |].
        reflexivity.
    + split; [exact Ei | reflexivity].
Qed.

End Pickle.

Section PickleWitness.
Import String.
Import GpuIncSubtensorState.

Lemma pickling_drops_iadd_node_witness :
  let d := [("inplace", 1); ("iadd_node", 7); ("idx_list", 3)]%string in
  exists d',
    setstate Z [] (getstate Z d) = Some d' /\
    d' = getstate Z d /\
    NoDup (keys Z d') /\
    get Z d' "iadd_node" = None /\
    forall k, k <> "iadd_node"%string -> get Z d' k = get Z d k.
Proof.
  intros d. apply (pickling_drops_iadd_node Z d).
  unfold d, keys. simpl.
  repeat constructor; simpl; intuition discriminate.
Defined.

(** The state that is pickled and what unpickling restores. *)
Example pickle_example :
  let d := [("inplace", 1); ("iadd_node", 7); ("idx_list", 3)]%string in
  getstate Z d = [("inplace", 1); ("idx_list", 3)]%string /\
  setstate Z [] (getstate Z d) = Some [("inplace", 1); ("idx_list", 3)]%string.
Proof. split; reflexivity. Qed.

End PickleWitness.

(** ** The [inplace] flag *)

(** C4.  The [inplace] flag of the in-place combine
    ([GpuIncSubtensor.perform]) and of the scatter update
    ([GpuAdvancedIncSubtensor1.perform]).  The destination [X] is the
    copy of [x], in a new buffer, when [inplace] is false, and the array
    [x] itself when it is true.  With [inplace] false no buffer that
    existed before the call is written, on any path, a raising one
    included, so that the original keeps its contents; with [inplace]
    true the result is [x] itself and among the buffers that existed
    before only the buffer of [x] may change.  And the update is written
    into the destination.  After a combine, the selected view, which
    lies in the buffer of [X], holds [y] broadcast to it (set) or its old
    values plus [y] (accumulate).  After a scatter, each element of each
    row of [X] holds the last source (set) or its old value plus the
    sources (accumulate) of the indices that name the row.  With
    [inplace] true these are reads of the original buffer. *)
Theorem inplace_flag_decides_the_written_buffer
  {E : ElemType} (self : IncOp) (idx_list : list entry) (x y : GpuArray)
  (inputs idx : list Z) (s : store)
  (cdata : list index) (sub y' : GpuArray) (tasks : list (Z * GpuArray)) :
  let r1 := GpuIncSubtensor.perform self idx_list x y inputs s in
  let r2 := GpuAdvancedIncSubtensor1.perform self x y idx s in
  let X := destination self s x in
  let s1 := start_store self s x in
  (inplace self = false ->
   X = copy_of s x /\ data X = next s /\
   (forall h t, (h < next s)%nat -> bufs (fst r1) h t = bufs s h t) /\
   (forall out, snd r1 = Ok out -> out = copy_of s x) /\
   (forall h t, (h < next s)%nat -> bufs (fst r2) h t = bufs s h t) /\
   (forall out, snd r2 = Ok out -> out = copy_of s x)) /\
  (inplace self = true ->
   X = x /\ s1 = s /\
   (forall h t, h <> data x -> (h < next s)%nat ->
                bufs (fst r1) h t = bufs s h t) /\
   (forall out, snd r1 = Ok out -> out = x) /\
   (forall h t, h <> data x -> (h < next s)%nat ->
                bufs (fst r2) h t = bufs s h t) /\
   (forall out, snd r2 = Ok out -> out = x)) /\
  (GpuIncSubtensor.convert_all idx_list (rev inputs) = Ok cdata ->
   Pygpu.getitem X cdata = Ok sub ->
   distinct_elements sub ->
   (data x < next s)%nat -> (data y < next s)%nat -> data y <> data x ->
   (if set_instead_of_inc self then Pygpu.broadcast_to y (shape sub)
    else if Pygpu.shape_eqb (shape sub) (shape y) then Ok y
         else Raise ValueError) = Ok y' ->
   snd r1 = Ok X /\ data sub = data X /\
   (forall m, In m (indices_of (shape sub)) ->
      read (fst r1) sub m
      = if set_instead_of_inc self then read s y' m
        else add (read s1 sub m) (read s y' m))) /\
  (well_formed x ->
   (ScatterSpec.one_to_one x y = true ->
    well_formed y /\ hd 0 (shape y) = Z.of_nat (length idx)) ->
   scatter_tasks x y idx = Ok tasks ->
   Forall (fun t => valid_task x t /\ (data (snd t) < next s)%nat) tasks ->
   (set_instead_of_inc self = false ->
    dtype_of x <> float16 /\ dtype_of y <> float16) ->
   (inplace self = true -> injective_addresses x) ->
   snd r2 = Ok X /\
   (forall r m,
      0 <= r < hd 0 (shape x) -> In m (indices_of (tl (shape x))) ->
      read (fst r2) X (r :: m)
      = if set_instead_of_inc self
        then last (contributions s tasks (hd 0 (shape x)) r m)
                  (read s x (r :: m))
        else fold_left add (contributions s tasks (hd 0 (shape x)) r m)
                       (read s x (r :: m)))).
Proof.
  intros r1 r2 X s1.
  destruct (inplace_frames self idx_list x y inputs idx s) as [Hf Ht].
  fold r1 r2 in Hf, Ht.
  split; [| split; [| split]].
  - intros Hi. destruct (Hf Hi) as (Ha & Hb & Hc & Hd & He).
    assert (HX : X = copy_of s x)
      by (subst X; unfold destination; rewrite Hi; reflexivity).
    split; [exact HX |]. split; [rewrite HX; exact He |].
    repeat split; assumption.
  - intros Hi. destruct (Ht Hi) as (Ha & Hb & Hc & Hd).
    split; [subst X; unfold destination; rewrite Hi; reflexivity |].
    split; [subst s1; unfold start_store; rewrite Hi; reflexivity |].
    repeat split; assumption.
  - intros Hconv Hget Hdist Hx Hy Hxy Hy'.
    destruct (perform_on_view self idx_list x y inputs s cdata sub y'
                Hconv Hget Hdist Hx Hy Hxy Hy') as (s' & Hp & Hr & _).
    fold r1 in Hp. rewrite Hp. cbn [fst snd].
    split; [reflexivity |].
    split; [exact (getitem_shares _ _ _ Hget) |]. exact Hr.
  - intros Hx Hjoint Htasks Hvalid Hdt Hinj.
    destruct (set_instead_of_inc self) eqn:Hset.
    + destruct (set_result self x y idx s tasks Hset Hx Hjoint Htasks
                  Hvalid Hinj) as (s' & Hp & Hr).
      fold r2 in Hp. rewrite Hp. cbn [fst snd].
      split; [reflexivity | exact Hr].
    + destruct (Hdt eq_refl) as [Hdx Hdy].
      destruct (accumulate_result self x y idx s tasks Hset Hx Hjoint
                  Htasks Hvalid Hdx Hdy Hinj) as [Hp Hany].
      fold r2 in Hp. rewrite Hp. cbn [fst snd].
      split; [reflexivity |].
      apply (Hany tasks (Permutation_refl _)).
Qed.

Lemma inplace_flag_decides_the_written_buffer_witness :
  let self := mkIncOp true false in
  let s := store_of [[[1; 2]; [3; 4]]; [[10; 20]]] in
  let x := matrix 0 2 2 in
  let y := mkGpuArray 1 0 [2] [8] float64 in
  let sub := mkGpuArray 0 16 [2] [8] float64 in
  let tasks := [(-1, y); (1, y)] in
  let r1 := GpuIncSubtensor.perform self [EInt 1] x y [] s in
  let r2 := GpuAdvancedIncSubtensor1.perform self x y [-1; 1] s in
  (snd r1 = Ok x /\ data sub = data x /\
   forall m, In m (indices_of [2]) ->
     read (fst r1) sub m = read s sub m + read s y m) /\
  (snd r2 = Ok x /\
   forall r m, 0 <= r < 2 -> In m (indices_of [2]) ->
     read (fst r2) x (r :: m)
     = fold_left Z.add (contributions s tasks 2 r m) (read s x (r :: m))) /\
  (forall h t, h <> 0%nat -> (h < 2)%nat ->
     bufs (fst r1) h t = bufs s h t /\ bufs (fst r2) h t = bufs s h t).
Proof.
  intros self s x y sub tasks r1 r2.
  destruct (inplace_flag_decides_the_written_buffer
              (E := Z_elem) self [EInt 1] x y [] [-1; 1] s [IInt 1] sub y
              tasks)
    as (_ & Ht & Hc & Hs).
  assert (Hx : well_formed x).
  { unfold well_formed, ndim. simpl. repeat split; try lia.
    repeat constructor; lia. }
  assert (Hinj : injective_addresses x).
  { intros m1 m2 H1 H2. simpl in H1, H2.
    destruct H1 as [<- | [<- | [<- | [<- | []]]]];
      destruct H2 as [<- | [<- | [<- | [<- | []]]]];
      vm_compute; congruence. }
  split; [| split].
  - apply Hc; try reflexivity; try (simpl; lia).
    intros m1 m2 H1 H2. simpl in H1, H2.
    destruct H1 as [<- | [<- | []]]; destruct H2 as [<- | [<- | []]];
      vm_compute; congruence.
  - apply Hs.
    + exact Hx.
    + intros H. discriminate H.
    + reflexivity.
    + unfold tasks, valid_task. simpl.
      repeat constructor; simpl; try lia; try discriminate.
    + intros _. split; discriminate.
    + intros _. exact Hinj.
  - intros h t Hne Hlt.
    destruct (Ht eq_refl) as (_ & _ & Ha & _ & Hb & _).
    split; [apply Ha | apply Hb]; assumption.
Defined.

(** The scatter update [x[[-1, 1]] += y] in place and on a copy. *)
Example scatter_in_place_example :
  let s := store_of [[[1; 2]; [3; 4]]; [[10; 20]]] in
  let x := matrix 0 2 2 in
  let y := mkGpuArray 1 0 [2] [8] float64 in
  let r := GpuAdvancedIncSubtensor1.perform (mkIncOp true false) x y [-1; 1] s in
  let r' := GpuAdvancedIncSubtensor1.perform (mkIncOp false false) x y [-1; 1] s in
  snd r = Ok x /\ tolist2 (fst r) x = [[1; 2]; [23; 44]] /\
  snd r' = Ok (matrix 2 2 2) /\ tolist2 (fst r') x = [[1; 2]; [3; 4]] /\
  tolist2 (fst r') (matrix 2 2 2) = [[1; 2]; [23; 44]].
Proof. repeat split; reflexivity. Qed.
